(** * QuantumT3: the board state machine of quantum tic-tac-toe

    A shallow embedding of [src/board.py] (class [Board]) and the
    properties of its move validator, collapse trigger and resolver, and
    win/draw evaluator.

    Python values are modelled as follows: [int] as [Z], [str] as [string],
    a list as [list] indexed the way Python indexes (negative indices count
    from the end, anything else out of range raises [IndexError]), the
    result of [get_counts()] as the list of its (bitstring, count) entries
    in iteration order.  Methods of [Board] are state transformers that
    return either a value or a raised exception, together with the board as
    the call left it. *)

From Stdlib Require Import ZArith String Ascii List Bool Lia.
From stdpp Require Import base list.
Import ListNotations.

Local Open Scope string_scope.
Local Open Scope list_scope.
Local Open Scope Z_scope.

(** ** Python primitives *)

Module Py.

Inductive exn : Type :=
  | IndexError
  | ValueError
  | ZeroDivisionError
  | CircuitError.

Inductive res (A : Type) : Type :=
  | Return (a : A)
  | Raise (e : exn).
Arguments Return {A} a.
Arguments Raise {A} e.

Definition res_bind {A B} (r : res A) (k : A -> res B) : res B :=
  match r with
  | Return a => k a
  | Raise e => Raise e
  end.

(** The position a Python index denotes in a sequence of length [len]. *)
Definition pos (len : nat) (i : Z) : res nat :=
  if (0 <=? i) && (i <? Z.of_nat len) then Return (Z.to_nat i)
  else if (- Z.of_nat len <=? i) && (i <? 0) then Return (Z.to_nat (Z.of_nat len + i))
  else Raise IndexError.

(** [l[i]] *)
Definition getitem {A} (l : list A) (i : Z) : res A :=
  res_bind (pos (length l) i) (fun n =>
    match l !! n with
    | Some x => Return x
    | None => Raise IndexError
    end).

(** [l[i] = v] *)
Definition setitem {A} (l : list A) (i : Z) (v : A) : res (list A) :=
  res_bind (pos (length l) i) (fun n => Return (<[n := v]> l)).

(** [s[i]] on a string *)
Definition str_getitem (s : string) (i : Z) : res ascii :=
  res_bind (pos (String.length s) i) (fun n =>
    match String.get n s with
    | Some c => Return c
    | None => Raise IndexError
    end).

(** [s[::-1]] *)
Definition str_rev (s : string) : string :=
  string_of_list_ascii (rev (list_ascii_of_string s)).

(** [s.endswith(suffix)] *)
Definition endswith (s suffix : string) : bool :=
  let n := String.length s in
  let m := String.length suffix in
  (m <=? n)%nat && String.eqb (substring (n - m) m s) suffix.

(** [start, start + step, ...], [n] elements *)
Fixpoint steps (start step : Z) (n : nat) : list Z :=
  match n with
  | O => []
  | S n' => start :: steps (start + step) step n'
  end.

(** [range(start, stop, step)] *)
Definition range3 (start stop step : Z) : res (list Z) :=
  if step =? 0 then Raise ValueError
  else if 0 <? step
       then Return (steps start step (Z.to_nat ((stop - start + step - 1) / step)))
       else Return (steps start step (Z.to_nat ((start - stop - step - 1) / (- step)))).

(** [range(stop)] *)
Definition range (stop : Z) : list Z := steps 0 1 (Z.to_nat stop).

(** [divmod(a, b)] *)
Definition divmod (a b : Z) : res (Z * Z) :=
  if b =? 0 then Raise ZeroDivisionError else Return (a / b, a mod b).

(** [a // b] *)
Definition floordiv (a b : Z) : res Z :=
  if b =? 0 then Raise ZeroDivisionError else Return (a / b).

(** [a % b] *)
Definition modulo (a b : Z) : res Z :=
  if b =? 0 then Raise ZeroDivisionError else Return (a mod b).

(** [x in l] for strings *)
Definition str_in (x : string) (l : list string) : bool :=
  existsb (String.eqb x) l.

(** What a method can hand back where the source returns values of
    several types: a [str], an [int] or [None]. *)
Inductive value : Type :=
  | VStr (s : string)
  | VInt (z : Z)
  | VNone.

(** A dictionary from outcome bitstrings to counts, as its entries in
    iteration order. *)
Definition counts_t : Type := list (string * Z).

(** [max(counts, key=counts.get)]: the first key, in iteration order,
    whose count no other key exceeds; [ValueError] on an empty dict. *)
Fixpoint max_from (best : string * Z) (rest : counts_t) : string * Z :=
  match rest with
  | [] => best
  | kv :: rest' => max_from (if snd best <? snd kv then kv else best) rest'
  end.

Definition max_key (counts : counts_t) : res string :=
  match counts with
  | [] => Raise ValueError
  | kv :: rest => Return (fst (max_from kv rest))
  end.

End Py.
Import Py.

(** ** The board *)

(** The operations the board appends to its circuit; a qubit is named by
    its position in the register. *)
Inductive instr : Type :=
  | Greset
  | Gbarrier
  | Gx (q : nat)
  | Gid (q : nat)
  | Gswap (a b : nat)
  | Gh (q : nat)
  | Gcx (c t : nat)
  | Gccx (c1 c2 t : nat)
  | Gmeasure.

Record Board : Type := mkBoard {
  size : Z;
  entanglement_count : Z;
  cells : list (list string);
  qubits : list nat;
  circuit : list instr;
  winning_lines : list (list Z)
}.

(** Methods: a state transformer over the board that returns or raises. *)
Definition M (A : Type) : Type := Board -> res A * Board.

Definition ret {A} (a : A) : M A := fun b => (Return a, b).
Definition lift {A} (r : res A) : M A := fun b => (r, b).
Definition bind {A B} (m : M A) (k : A -> M B) : M B :=
  fun b =>
    match m b with
    | (Return a, b') => k a b'
    | (Raise e, b') => (Raise e, b')
    end.
Definition self : M Board := fun b => (Return b, b).
Definition modify (f : Board -> Board) : M unit := fun b => (Return tt, f b).

Notation "'let*' x ':=' m 'in' k" := (bind m (fun x => k))
  (at level 10, x pattern, m at level 100, k at level 200).
Notation "m ';;' k" := (bind m (fun _ => k))
  (at level 100, k at level 200, right associativity).

(** [all(f(x) for x in l)] and [any(f(x) for x in l)], which stop at the
    first element that decides them. *)
Fixpoint all_ {A} (f : A -> M bool) (l : list A) : M bool :=
  match l with
  | [] => ret true
  | x :: l' => let* t := f x in if t then all_ f l' else ret false
  end.

Fixpoint any_ {A} (f : A -> M bool) (l : list A) : M bool :=
  match l with
  | [] => ret false
  | x :: l' => let* t := f x in if t then ret true else any_ f l'
  end.

(** [for x in l: body(x)] *)
Fixpoint for_ {A} (l : list A) (body : A -> M unit) : M unit :=
  match l with
  | [] => ret tt
  | x :: l' => body x ;; for_ l' body
  end.

Definition with_cells (g : list (list string)) (b : Board) : Board :=
  mkBoard (size b) (entanglement_count b) g (qubits b) (circuit b) (winning_lines b).
Definition with_count (n : Z) (b : Board) : Board :=
  mkBoard (size b) n (cells b) (qubits b) (circuit b) (winning_lines b).
Definition with_circuit (c : list instr) (b : Board) : Board :=
  mkBoard (size b) (entanglement_count b) (cells b) (qubits b) c (winning_lines b).

(** [self.cells[row][col]] *)
Definition get_cell (row col : Z) : M string :=
  fun b => (res_bind (getitem (cells b) row) (fun r => getitem r col), b).

(** [self.cells[row][col] = v]: the row object is fetched, then updated in
    place. *)
Definition set_cell (row col : Z) (v : string) : M unit :=
  fun b =>
    match pos (length (cells b)) row with
    | Raise e => (Raise e, b)
    | Return n =>
        match cells b !! n with
        | None => (Raise IndexError, b)
        | Some r =>
            match setitem r col v with
            | Raise e => (Raise e, b)
            | Return r' => (Return tt, with_cells (<[n := r']> (cells b)) b)
            end
        end
    end.

(** [self.cells[i // self.size][i % self.size]] *)
Definition cell_at (i : Z) : M string :=
  fun b =>
    (res_bind (floordiv i (size b)) (fun row =>
     res_bind (getitem (cells b) row) (fun r =>
     res_bind (modulo i (size b)) (fun col =>
     getitem r col))), b).

(** [self.qubits[index]]: the register is indexed like a Python sequence. *)
Definition qubit (index : Z) : M nat :=
  fun b => (getitem (qubits b) index, b).

(** Appending a gate: the circuit refuses a gate whose qubit arguments are
    not pairwise distinct. *)
Definition append (g : instr) (qargs : list nat) : M unit :=
  fun b =>
    if bool_decide (NoDup qargs)
    then (Return tt, with_circuit (circuit b ++ [g]) b)
    else (Raise CircuitError, b).

Definition circuit_x (q : nat) : M unit := append (Gx q) [q].
Definition circuit_id (q : nat) : M unit := append (Gid q) [q].
Definition circuit_h (q : nat) : M unit := append (Gh q) [q].
Definition circuit_swap (a b : nat) : M unit := append (Gswap a b) [a; b].
Definition circuit_cx (c t : nat) : M unit := append (Gcx c t) [c; t].
Definition circuit_ccx (c1 c2 t : nat) : M unit := append (Gccx c1 c2 t) [c1; c2; t].
Definition circuit_barrier : M unit := append Gbarrier [].
Definition circuit_measure_all : M unit := append Gmeasure [].

(** ** The methods of [Board] *)

(** [[f(x) for x in l]], where evaluating [f(x)] may raise. *)
Fixpoint map_res {A B} (f : A -> res B) (l : list A) : res (list B) :=
  match l with
  | [] => Return []
  | x :: l' => res_bind (f x) (fun y => res_bind (map_res f l') (fun ys => Return (y :: ys)))
  end.

(** [Board.__init__]: the constructor returns the new board or raises.
    [init_winning_lines] is the expression assigned to [self.winning_lines]. *)
Definition init_winning_lines (size : Z) : res (list (list Z)) :=
  res_bind (map_res (fun i => range3 i (size ^ 2) size) (range size)) (fun l1 =>
  res_bind (map_res (fun i => range3 (i * size) ((i + 1) * size) 1) (range size)) (fun l2 =>
  res_bind (range3 0 (size ^ 2) (size + 1)) (fun d1 =>
  res_bind (range3 (size - 1) (size ^ 2 - 1) (size - 1)) (fun d2 =>
  Return (l1 ++ l2 ++ [d1; d2]))))).

Definition init (size : Z) : res Board :=
  let cells := map (fun _ => map (fun _ => " ") (range size)) (range size) in
  let qubits := seq 0 (Z.to_nat (size ^ 2)) in
  let circuit := [Greset; Gbarrier] in
  res_bind (init_winning_lines size) (fun lines =>
  Return (mkBoard size 0 cells qubits circuit lines)).

(** [Board.make_classical_move] *)
Definition make_classical_move (row col : Z) (player_mark : string) : M bool :=
  let* c := get_cell row col in
  if String.eqb c " " then
    set_cell row col player_mark ;;
    let* b := self in
    let index := row * size b + col in
    (if String.eqb player_mark "X"
     then let* q := qubit index in circuit_x q
     else let* q := qubit index in circuit_id q) ;;
    ret true
  else ret false.

(** [Board.make_swap_move] *)
Definition make_swap_move (row1 col1 row2 col2 : Z) : M bool :=
  let* c1 := get_cell row1 col1 in
  let* occupied :=
    (if negb (String.eqb c1 " ")
     then let* c2 := get_cell row2 col2 in ret (negb (String.eqb c2 " "))
     else ret false) in
  if occupied then
    let* b := self in
    let indices := [row1 * size b + col1; row2 * size b + col2] in
    let* i0 := lift (getitem indices 0) in
    let* q0 := qubit i0 in
    let* i1 := lift (getitem indices 1) in
    let* q1 := qubit i1 in
    circuit_swap q0 q1 ;;
    let* v2 := get_cell row2 col2 in
    let* v1 := get_cell row1 col1 in
    set_cell row1 col1 v2 ;;
    set_cell row2 col2 v1 ;;
    ret true
  else ret false.

(** [Board.make_entangled_move] *)
Definition make_entangled_move (positions : list (Z * Z)) (player_mark : string) : M bool :=
  if negb (existsb (Nat.eqb (length positions)) [2; 3]%nat) then ret false else
  let* occupied :=
    any_ (fun p => let* c := get_cell (fst p) (snd p) in ret (negb (String.eqb c " ")))
         positions in
  if occupied then ret false else
  if negb (Nat.eqb (length (remove_dups positions)) (length positions)) then ret false else
  let* b := self in
  let indices := map (fun p => fst p * size b + snd p) positions in
  (if Nat.eqb (length positions) 2 then
     let* i0 := lift (getitem indices 0) in
     let* q0 := qubit i0 in
     circuit_h q0 ;;
     let* i0 := lift (getitem indices 0) in
     let* q0 := qubit i0 in
     let* i1 := lift (getitem indices 1) in
     let* q1 := qubit i1 in
     circuit_cx q0 q1
   else
     let* i0 := lift (getitem indices 0) in
     let* q0 := qubit i0 in
     circuit_h q0 ;;
     let* i0 := lift (getitem indices 0) in
     let* q0 := qubit i0 in
     let* i1 := lift (getitem indices 1) in
     let* q1 := qubit i1 in
     circuit_cx q0 q1 ;;
     let* i0 := lift (getitem indices 0) in
     let* q0 := qubit i0 in
     let* i1 := lift (getitem indices 1) in
     let* q1 := qubit i1 in
     let* i2 := lift (getitem indices 2) in
     let* q2 := qubit i2 in
     circuit_ccx q0 q1 q2) ;;
  for_ positions (fun p => set_cell (fst p) (snd p) (String.append player_mark "?")) ;;
  modify (fun b => with_count (entanglement_count b + 1) b) ;;
  ret true.

(** [Board.can_be_collapsed] *)
Fixpoint some_line_pending (lines : list (list Z)) : M bool :=
  match lines with
  | [] => ret false
  | line :: lines' =>
      let* t := all_ (fun i => let* c := cell_at i in ret (endswith c "?")) line in
      if t then ret true else some_line_pending lines'
  end.

Definition can_be_collapsed : M bool :=
  let* b := self in
  if 3 <=? entanglement_count b
  then some_line_pending (winning_lines b)
  else ret false.

(** [Board.collapse_board].  The simulator is outside the program: [counts]
    is what [job.result().get_counts()] handed back for this call. *)
Definition max_state_of (counts : counts_t) : res string :=
  res_bind (max_key counts) (fun k => Return (str_rev k)).

Definition collapse_board (counts : counts_t) : M counts_t :=
  circuit_barrier ;;
  circuit_measure_all ;;
  let* max_state := lift (max_state_of counts) in
  let* b := self in
  for_ (range (size b ^ 2)) (fun i =>
    let* b := self in
    let* rc := lift (divmod i (size b)) in
    let* c := get_cell (fst rc) (snd rc) in
    if endswith c "?" then
      let* bit := lift (str_getitem max_state i) in
      set_cell (fst rc) (snd rc) (if Ascii.eqb bit "1" then "X" else "O")
    else ret tt) ;;
  modify (with_count 0) ;;
  ret counts.

(** [Board.check_win] *)
Fixpoint winner_on (lines : list (list Z)) : M (option string) :=
  match lines with
  | [] => ret None
  | line :: lines' =>
      let* i0 := lift (getitem line 0) in
      let* first_cell := cell_at i0 in
      let* is_same := all_ (fun i => let* c := cell_at i in ret (String.eqb c first_cell)) line in
      if is_same && negb (str_in first_cell [" "; "X?"; "O?"])
      then ret (Some first_cell)
      else winner_on lines'
  end.

Definition check_win : M value :=
  let* b := self in
  let* w := winner_on (winning_lines b) in
  match w with
  | Some first_cell => ret (VStr first_cell)
  | None =>
      let* b := self in
      let* full := all_ (fun i => let* c := cell_at i in ret (negb (str_in c [" "])))
                        (range (size b ^ 2)) in
      if full then
        let* b := self in
        if entanglement_count b <=? 0 then ret (VStr "Draw")
        else ret (VInt (entanglement_count b))
      else ret VNone
  end.

(** [Board.__str__].  [termcolor.colored] is outside the program and is a
    parameter: [colored text color] is the text it returns. *)
Module Render.

(** The line feed. *)
Definition newline : string := String "010"%char EmptyString.

(** [c in s] for a character [c] *)
Definition has_char (c : ascii) (s : string) : bool :=
  existsb (Ascii.eqb c) (list_ascii_of_string s).

(** [s[:-1]] *)
Fixpoint drop_last (s : string) : string :=
  match s with
  | EmptyString => EmptyString
  | String a EmptyString => EmptyString
  | String a rest => String a (drop_last rest)
  end.

(** [s * n] *)
Definition str_mul (s : string) (n : Z) : string :=
  String.concat EmptyString (repeat s (Z.to_nat n)).

Section WithColored.

Variable colored : string -> string -> string.

(** The body of the inner loop: what one cell adds to [board_str]. *)
Definition render_cell (board_str cell : string) : string :=
  let cell_color :=
    if has_char "?" cell then "cyan"
    else if String.eqb cell "X" then "red"
    else if String.eqb cell "O" then "green"
    else "yellow" in
  let board_str := String.append board_str
                     (String.append " " (String.append (colored cell cell_color) " ")) in
  String.append board_str (if has_char "?" cell then "|" else " |").

(** The body of the outer loop, for the row with index [i]. *)
Definition render_row (size : Z) (board_str : string) (i : Z) (row : list string) : string :=
  let board_str := fold_left render_cell row board_str in
  let board_str := String.append (drop_last board_str) newline in
  if i <? size - 1
  then String.append board_str (String.append (str_mul "-" (5 * size - 1)) newline)
  else board_str.

(** [for i, row in enumerate(rows)], counting from [i]. *)
Fixpoint render_rows (size : Z) (board_str : string) (i : Z) (rows : list (list string))
  : string :=
  match rows with
  | [] => board_str
  | row :: rows' => render_rows size (render_row size board_str i row) (i + 1) rows'
  end.

Definition __str__ (b : Board) : string :=
  render_rows (size b) EmptyString 0 (cells b).

End WithColored.

End Render.
Import Render.

(** ** Vocabulary of the properties *)

(** *** Grids and cells *)

(** [n] rows of [n] cells. *)
Definition grid_ok (n : nat) (g : list (list string)) : Prop :=
  length g = n /\ Forall (fun row => length row = n) g.

(** The content at row [r], column [c], counted from 0. *)
Definition grid_at (g : list (list string)) (r c : nat) : string :=
  match g !! r with
  | Some row => match row !! c with Some s => s | None => " " end
  | None => " "
  end.

(** The grid with [v] at row [r], column [c]. *)
Definition grid_set (g : list (list string)) (r c : nat) (v : string) : list (list string) :=
  match g !! r with
  | Some row => <[r := <[c := v]> row]> g
  | None => g
  end.

(** The content of the cell in row [row], column [col], and of the cell
    with index [i]. *)
Definition cell (b : Board) (row col : Z) : string :=
  grid_at (cells b) (Z.to_nat row) (Z.to_nat col).

Definition cell_idx (b : Board) (i : Z) : string :=
  cell b (i / size b) (i mod size b).

(** *** Winning lines *)

(** The lines of an [n] by [n] grid, by the indices of the cells they pass
    through. *)
Definition column_line (n c : Z) : list Z := map (fun r => r * n + c) (range n).
Definition row_line (n r : Z) : list Z := map (fun c => r * n + c) (range n).
Definition diagonal_line (n : Z) : list Z := map (fun k => k * n + k) (range n).
Definition antidiagonal_line (n : Z) : list Z := map (fun k => k * n + (n - 1 - k)) (range n).

Definition grid_lines (n : Z) : list (list Z) :=
  map (column_line n) (range n) ++ map (row_line n) (range n)
  ++ [diagonal_line n; antidiagonal_line n].

(** *** Well-formed boards *)

(** What [__init__] establishes and every method keeps: a [size] by [size]
    grid, one qubit per cell, and the winning lines of that size. *)
Record wf (b : Board) : Prop := mk_wf {
  wf_size : 0 <= size b;
  wf_cells : grid_ok (Z.to_nat (size b)) (cells b);
  wf_qubits : qubits b = seq 0 (Z.to_nat (size b ^ 2));
  wf_lines : init_winning_lines (size b) = Return (winning_lines b)
}.

(** *** Moves *)

(** A position on the board, rows and columns counted from 0. *)
Definition inside (b : Board) (p : Z * Z) : Prop :=
  0 <= fst p < size b /\ 0 <= snd p < size b.

(** The cell at position [p] is empty. *)
Definition empty_at (b : Board) (p : Z * Z) : Prop := cell b (fst p) (snd p) = " ".

(** The grid after [v] was written at each of the positions. *)
Definition mark_cells (g : list (list string)) (positions : list (Z * Z)) (v : string)
  : list (list string) :=
  fold_left (fun g p => grid_set g (Z.to_nat (fst p)) (Z.to_nat (snd p)) v) positions g.

(** The gates an entangling move appends for the qubits [qs]. *)
Definition entangle_gates (qs : list nat) : list instr :=
  match qs with
  | [q0; q1] => [Gh q0; Gcx q0 q1]
  | [q0; q1; q2] => [Gh q0; Gcx q0 q1; Gccx q0 q1 q2]
  | _ => []
  end.

(** The cell at position [p] is not empty. *)
Definition occupiedb (b : Board) (p : Z * Z) : bool :=
  negb (String.eqb (cell b (fst p) (snd p)) " ").

(** The qubit of the cell at position [p]. *)
Definition qubit_of (b : Board) (p : Z * Z) : nat := Z.to_nat (fst p * size b + snd p).

(** The board after a successful entangling move. *)
Definition entangled (b : Board) (positions : list (Z * Z)) (mark : string) : Board :=
  mkBoard (size b) (entanglement_count b + 1)
          (mark_cells (cells b) positions (String.append mark "?"))
          (qubits b)
          (circuit b ++ entangle_gates (map (qubit_of b) positions))
          (winning_lines b).

(** A position that Python indexing cannot resolve on a board of this
    size: a row or a column at or beyond [size], or below [- size]. *)
Definition outside (b : Board) (p : Z * Z) : Prop :=
  fst p < - size b \/ size b <= fst p \/ snd p < - size b \/ size b <= snd p.

(** The call hands back a value and the board is as before. *)
Definition recovered {A} (m : M A) (b : Board) : Prop :=
  exists v, m b = (Return v, b).

(** *** Pending cells and complete lines *)

(** The cell content is that of a pending cell. *)
Definition pendingb (s : string) : bool := endswith s "?".

(** Every cell of the line is pending. *)
Definition line_pending (b : Board) (line : list Z) : Prop :=
  forall i, i ∈ line -> pendingb (cell_idx b i) = true.

(** The cell states of the data model and the strings that carry them. *)
Inductive mark : Type := X | O.

Inductive cell_state : Type :=
  | Empty
  | Classical (m : mark)
  | Pending (m : mark).

Definition mark_str (m : mark) : string :=
  match m with X => "X" | O => "O" end.

Definition encode (c : cell_state) : string :=
  match c with
  | Empty => " "
  | Classical m => mark_str m
  | Pending m => String.append (mark_str m) "?"
  end.

(** Every cell of the board holds the string of some cell state. *)
Definition cells_valid (b : Board) : Prop :=
  forall i, 0 <= i < size b ^ 2 -> exists c, cell_idx b i = encode c.

(** The line is complete for [w]: the same non-empty, non-pending content
    [w] in all its cells. *)
Definition line_won (b : Board) (line : list Z) (w : string) : Prop :=
  (forall i, i ∈ line -> cell_idx b i = w) /\ w <> " " /\ w <> "X?" /\ w <> "O?".

(** The test [check_win] makes on a line, and the winner it reports. *)
Definition line_wonb (b : Board) (line : list Z) : bool :=
  let first_cell := cell_idx b (hd 0 line) in
  forallb (fun i => String.eqb (cell_idx b i) first_cell) line
  && negb (str_in first_cell [" "; "X?"; "O?"]).

Definition first_winner (b : Board) (lines : list (list Z)) : option string :=
  match find (line_wonb b) lines with
  | Some line => Some (cell_idx b (hd 0 line))
  | None => None
  end.

(** No cell of the board is empty. *)
Definition fullb (b : Board) : bool :=
  forallb (fun i => negb (str_in (cell_idx b i) [" "])) (range (size b ^ 2)).

(** *** Collapse *)

(** Bit [i] of the chosen outcome, and the mark it resolves a pending cell to. *)
Definition bit_at (max_state : string) (i : Z) : bool :=
  match String.get (Z.to_nat i) max_state with
  | Some c => Ascii.eqb c "1"
  | None => false
  end.

Definition resolved (max_state : string) (i : Z) : string :=
  if bit_at max_state i then "X" else "O".

(** One round of the loop of [collapse_board], on the grid. *)
Definition collapse_step (max_state : string) (n : Z) (g : list (list string)) (i : Z)
  : list (list string) :=
  let r := Z.to_nat (i / n) in
  let c := Z.to_nat (i mod n) in
  if pendingb (grid_at g r c) then grid_set g r c (resolved max_state i) else g.

(** The board after [collapse_board] resolved it from [max_state]. *)
Definition collapsed (max_state : string) (b : Board) : Board :=
  mkBoard (size b) 0
          (fold_left (collapse_step max_state (size b)) (range (size b ^ 2)) (cells b))
          (qubits b)
          (circuit b ++ [Gbarrier; Gmeasure])
          (winning_lines b).

(** The outcome bitstrings all have one character per cell. *)
Definition counts_ok (b : Board) (counts : counts_t) : Prop :=
  counts <> [] /\ forall k n, (k, n) ∈ counts -> String.length k = Z.to_nat (size b ^ 2).

(** [k] is the first key of [counts], in iteration order, whose count no
    other key exceeds. *)
Definition first_max (counts : counts_t) (k : string) : Prop :=
  exists n pre post,
    counts = pre ++ (k, n) :: post
    /\ (forall kv, kv ∈ pre -> snd kv < n)
    /\ (forall kv, kv ∈ post -> snd kv <= n).

(** *** Sampling *)

(** The number of shots the distribution records. *)
Definition total (counts : counts_t) : Z := fold_right Z.add 0 (map snd counts).

(** The choice [r] is the outcome [k]. *)
Definition chooses (k : string) (r : res string) : bool :=
  match r with
  | Return k' => String.eqb k' k
  | Raise _ => false
  end.

(** A way of choosing an outcome from [counts] with a draw [r] taken
    uniformly from [0 .. total - 1] is weight-proportional when every
    outcome is chosen by exactly as many draws as its count. *)
Definition weight_proportional (choose : counts_t -> Z -> res string) (counts : counts_t)
  : Prop :=
  forall k n, (k, n) ∈ counts ->
    Z.of_nat (length (List.filter (fun r => chooses k (choose counts r))
                                  (range (total counts)))) = n.

(** The outcome [collapse_board] reads its bits from: the source consults
    no draw, so the outcome is the same whatever the draw. *)
Definition committed_outcome (counts : counts_t) (draw : Z) : res string :=
  max_key counts.

(** *** Concrete boards *)

Definition lines3 : list (list Z) :=
  [[0; 3; 6]; [1; 4; 7]; [2; 5; 8]; [0; 1; 2]; [3; 4; 5]; [6; 7; 8]; [0; 4; 8]; [2; 4; 6]].

Definition register9 : list nat := [0; 1; 2; 3; 4; 5; 6; 7; 8]%nat.

(** [Board(3)], just constructed. *)
Definition board3 : Board :=
  mkBoard 3 0 [[" "; " "; " "]; [" "; " "; " "]; [" "; " "; " "]]
          register9 [Greset; Gbarrier] lines3.

(** The board after X entangled (0,0),(0,1), O entangled (1,1),(1,2),(2,2)
    and X entangled (0,2),(1,0),(2,0). *)
Definition pending_board : Board :=
  mkBoard 3 3 [["X?"; "X?"; "X?"]; ["X?"; "O?"; "O?"]; ["X?"; " "; "O?"]]
          register9
          [Greset; Gbarrier; Gh 0; Gcx 0 1; Gh 4; Gcx 4 5; Gccx 4 5 8;
           Gh 2; Gcx 2 3; Gccx 2 3 6]%nat
          lines3.

(** A board on which X has completed the first row. *)
Definition won_board : Board :=
  mkBoard 3 0 [["X"; "X"; "X"]; ["O"; "O"; " "]; [" "; " "; " "]]
          register9
          [Greset; Gbarrier; Gx 0; Gid 3; Gx 1; Gid 4; Gx 2]%nat
          lines3.

(** A full board with no complete line and one entanglement unresolved. *)
Definition full_board : Board :=
  mkBoard 3 1 [["X?"; "X?"; "O"]; ["O"; "O"; "X"]; ["X"; "O"; "X"]]
          register9
          [Greset; Gbarrier; Gid 2; Gid 3; Gid 4; Gx 5; Gx 6; Gid 7; Gx 8;
           Gh 0; Gcx 0 1]%nat
          lines3.

Definition counts2 : counts_t := [("000000011", 500); ("111000000", 524)].
Definition counts13 : counts_t := [("000000000", 1); ("000000011", 3)].

(** The check that every cell holds the string of a cell state. *)
Definition cells_validb (b : Board) : bool :=
  forallb (fun i => str_in (cell_idx b i) [" "; "X"; "O"; "X?"; "O?"]) (range (size b ^ 2)).

(** *** Invariants *)

Definition valid_str (s : string) : Prop := exists c, s = encode c.

(** Holds of every board the constructor builds and the methods reach when
    the players' marks are X and O. *)
Record Inv (b : Board) : Prop := mk_Inv {
  inv_wf : wf b;
  inv_valid : Forall (Forall valid_str) (cells b)
}.

(** [m] keeps [I], whether it returns or raises, and what it returns
    satisfies [Q]. *)
Definition triple {A} (I : Board -> Prop) (m : M A) (Q : A -> Prop) : Prop :=
  forall b, I b -> I (snd (m b)) /\ forall a, fst (m b) = Return a -> Q a.

(** The parts of a board that are fixed at construction. *)
Definition same_frame (b0 b : Board) : Prop :=
  size b = size b0 /\ qubits b = qubits b0 /\ winning_lines b = winning_lines b0.

(** *** Vocabulary of the further properties *)

(** The board after a successful swap of the cells at [p1] and [p2]. *)
Definition swapped (b : Board) (p1 p2 : Z * Z) : Board :=
  mkBoard (size b) (entanglement_count b)
          (grid_set (grid_set (cells b) (Z.to_nat (fst p1)) (Z.to_nat (snd p1))
                              (cell b (fst p2) (snd p2)))
                    (Z.to_nat (fst p2)) (Z.to_nat (snd p2)) (cell b (fst p1) (snd p1)))
          (qubits b)
          (circuit b ++ [Gswap (qubit_of b p1) (qubit_of b p2)])
          (winning_lines b).

(** The cell of the grid that the Python indices [row], [col] denote on a
    board of this size, if they denote one. *)
Definition resolve (b : Board) (p : Z * Z) : res (nat * nat) :=
  res_bind (pos (Z.to_nat (size b)) (fst p)) (fun r =>
  res_bind (pos (Z.to_nat (size b)) (snd p)) (fun c => Return (r, c))).

(** The grid after [v] was written into each of the cells [rcs]. *)
Definition written (g : list (list string)) (rcs : list (nat * nat)) (v : string)
  : list (list string) :=
  fold_left (fun g rc => grid_set g (fst rc) (snd rc) v) rcs g.

(** The cells that the positions denote, when each denotes an empty cell. *)
Fixpoint empty_targets (b : Board) (positions : list (Z * Z)) : res (option (list (nat * nat))) :=
  match positions with
  | [] => Return (Some [])
  | p :: ps =>
      res_bind (resolve b p) (fun rc =>
        if String.eqb (grid_at (cells b) (fst rc) (snd rc)) " "
        then res_bind (empty_targets b ps) (fun o => Return (option_map (cons rc) o))
        else Return None)
  end.

(** A computation that only extends the circuit. *)
Definition circuit_only (b0 b : Board) : Prop := exists circ, b = with_circuit circ b0.

(** No cell of the board is pending. *)
Definition no_pending (b : Board) : Prop :=
  forall r c, inside b (r, c) -> pendingb (cell b r c) = false.

(** The counter accounts for the pending cells: it is never negative, and
    while it is 0 no cell is pending. *)
Definition ledger_ok (b : Board) : Prop :=
  wf b /\ 0 <= entanglement_count b /\ (entanglement_count b = 0 -> no_pending b).

(** The loop of [collapse_board] on the grid: it stops with [IndexError]
    at the first pending cell for which the outcome has no bit. *)
Fixpoint collapse_run (max_state : string) (n : Z) (g : list (list string)) (idxs : list Z)
  : res unit * list (list string) :=
  match idxs with
  | [] => (Return tt, g)
  | i :: rest =>
      if pendingb (grid_at g (Z.to_nat (i / n)) (Z.to_nat (i mod n)))
         && (Z.of_nat (String.length max_state) <=? i)
      then (Raise IndexError, g)
      else collapse_run max_state n (collapse_step max_state n g i) rest
  end.

(** The text of one cell and of one row, and the rows laid out with a
    separator line between consecutive rows. *)
Definition cell_text (colored : string -> string -> string) (cell : string) : string :=
  render_cell colored EmptyString cell.

Definition row_text (colored : string -> string -> string) (row : list string) : string :=
  drop_last (String.concat EmptyString (map (cell_text colored) row)).

Fixpoint join_rows (sep : string) (texts : list string) : string :=
  match texts with
  | [] => EmptyString
  | [t] => String.append t newline
  | t :: texts' =>
      String.append t (String.append newline
        (String.append sep (String.append newline (join_rows sep texts'))))
  end.

(** A full board of classical marks with no complete line. *)
Definition draw_board : Board :=
  mkBoard 3 0 [["X"; "O"; "X"]; ["X"; "O"; "O"]; ["O"; "X"; "X"]]
          register9
          [Greset; Gbarrier; Gx 0; Gid 1; Gx 2; Gx 3; Gid 4; Gid 5; Gid 6; Gx 7; Gx 8]%nat
          lines3.

(** A distribution whose only outcome has a single bit. *)
Definition counts_short : counts_t := [("0", 5)].

(** [colored] when colours are off: the text itself. *)
Definition plain (text color : string) : string := text.

(** * Properties *)

(** ** Reasoning about the primitives *)

Lemma bind_Return {A B} (m : M A) (k : A -> M B) b a b1 :
  m b = (Return a, b1) -> bind m k b = k a b1.
Proof. intros H. unfold bind. now rewrite H. Qed.

Lemma bind_Raise {A B} (m : M A) (k : A -> M B) b e b1 :
  m b = (Raise e, b1) -> bind m k b = (Raise e, b1).
Proof. intros H. unfold bind. now rewrite H. Qed.

Lemma bind_lift {A B} (r : res A) (k : A -> M B) b a :
  r = Return a -> bind (lift r) k b = k a b.
Proof. intros ->. reflexivity. Qed.

Lemma bind_self {B} (k : Board -> M B) b : bind self k b = k b b.
Proof. reflexivity. Qed.

Lemma pos_inside len i :
  0 <= i < Z.of_nat len -> pos len i = Return (Z.to_nat i).
Proof.
  intros H. unfold pos.
  destruct (Z.leb_spec 0 i); [|lia].
  destruct (Z.ltb_spec i (Z.of_nat len)); [|lia].
  reflexivity.
Qed.

Lemma pos_outside len i :
  i < - Z.of_nat len \/ Z.of_nat len <= i -> pos len i = Raise IndexError.
Proof.
  intros H. unfold pos.
  destruct (Z.leb_spec 0 i), (Z.ltb_spec i (Z.of_nat len)),
    (Z.leb_spec (- Z.of_nat len) i), (Z.ltb_spec i 0); simpl; try reflexivity; lia.
Qed.

Lemma pos_bound len i n : pos len i = Return n -> (n < len)%nat.
Proof.
  unfold pos.
  destruct (Z.leb_spec 0 i), (Z.ltb_spec i (Z.of_nat len)),
    (Z.leb_spec (- Z.of_nat len) i), (Z.ltb_spec i 0); simpl;
    intros [= <-]; lia.
Qed.

Lemma getitem_inside {A} (l : list A) i x :
  0 <= i -> l !! Z.to_nat i = Some x -> getitem l i = Return x.
Proof.
  intros Hi Hx. unfold getitem.
  rewrite pos_inside.
  - simpl. now rewrite Hx.
  - apply lookup_lt_Some in Hx. lia.
Qed.

Lemma getitem_outside {A} (l : list A) i :
  i < - Z.of_nat (length l) \/ Z.of_nat (length l) <= i ->
  getitem l i = Raise IndexError.
Proof. intros H. unfold getitem. now rewrite pos_outside. Qed.

Lemma getitem_Return {A} (l : list A) i x :
  getitem l i = Return x -> - Z.of_nat (length l) <= i < Z.of_nat (length l).
Proof.
  intros H.
  destruct (Z_lt_dec i (- Z.of_nat (length l))) as [|]; [rewrite getitem_outside in H by lia; discriminate|].
  destruct (Z_le_dec (Z.of_nat (length l)) i) as [|]; [rewrite getitem_outside in H by lia; discriminate|].
  lia.
Qed.

Lemma getitem_exn {A} (l : list A) i e : getitem l i = Raise e -> e = IndexError.
Proof.
  unfold getitem. destruct (pos (length l) i) as [n|e'] eqn:E; simpl.
  - destruct (l !! n); [discriminate|]. now intros [= <-].
  - unfold pos in E. repeat destruct (_ && _) in E; try discriminate.
    injection E as <-. now intros [= <-].
Qed.

(** ** The grid *)

Lemma grid_ok_row n g r row : grid_ok n g -> g !! r = Some row -> length row = n.
Proof.
  intros [_ H] Hr. rewrite Forall_forall in H. apply H.
  apply list_elem_of_lookup. eauto.
Qed.

Lemma grid_ok_lookup n g r : grid_ok n g -> (r < n)%nat -> exists row, g !! r = Some row /\ length row = n.
Proof.
  intros Hg Hr. destruct (lookup_lt_is_Some_2 g r) as [row Hrow].
  - destruct Hg as [-> _]. exact Hr.
  - exists row. split; [exact Hrow|]. eapply grid_ok_row; eauto.
Qed.

Lemma grid_set_ok n g r c v : grid_ok n g -> grid_ok n (grid_set g r c v).
Proof.
  intros Hg. unfold grid_set. destruct (g !! r) as [row|] eqn:E; [|exact Hg].
  pose proof (grid_ok_row _ _ _ _ Hg E) as Hlen.
  destruct Hg as [Hl Hall]. split.
  - now rewrite length_insert.
  - rewrite Forall_forall in *. intros x Hx.
    apply list_elem_of_lookup in Hx. destruct Hx as [i Hi].
    destruct (decide (r = i)) as [->|Hne].
    + rewrite list_lookup_insert_eq in Hi by (eapply lookup_lt_Some; eauto).
      injection Hi as <-. now rewrite length_insert.
    + rewrite list_lookup_insert_ne in Hi by exact Hne.
      apply Hall, list_elem_of_lookup. eauto.
Qed.

Lemma grid_at_set_eq n g r c v :
  grid_ok n g -> (r < n)%nat -> (c < n)%nat -> grid_at (grid_set g r c v) r c = v.
Proof.
  intros Hg Hr Hc. destruct (grid_ok_lookup _ _ _ Hg Hr) as (row & Hrow & Hlen).
  unfold grid_set, grid_at. rewrite Hrow.
  rewrite list_lookup_insert_eq by (eapply lookup_lt_Some; eauto).
  rewrite list_lookup_insert_eq by lia. reflexivity.
Qed.

Lemma grid_at_set_ne g r c v r' c' :
  (r, c) <> (r', c') -> grid_at (grid_set g r c v) r' c' = grid_at g r' c'.
Proof.
  intros Hne. unfold grid_set, grid_at. destruct (g !! r) as [row|] eqn:E; [|reflexivity].
  destruct (decide (r = r')) as [<-|Hr].
  - rewrite list_lookup_insert_eq by (eapply lookup_lt_Some; eauto). rewrite E.
    rewrite list_lookup_insert_ne by congruence. reflexivity.
  - rewrite list_lookup_insert_ne by exact Hr. reflexivity.
Qed.

Lemma get_cell_inside n b row col :
  grid_ok n (cells b) -> 0 <= row < Z.of_nat n -> 0 <= col < Z.of_nat n ->
  get_cell row col b = (Return (cell b row col), b).
Proof.
  intros Hg Hr Hc.
  destruct (grid_ok_lookup _ _ (Z.to_nat row) Hg ltac:(lia)) as (r & Hrow & Hlen).
  destruct (lookup_lt_is_Some_2 r (Z.to_nat col) ltac:(lia)) as [s Hs].
  unfold get_cell, cell, grid_at. rewrite Hrow, Hs.
  rewrite (getitem_inside _ _ r) by (lia || assumption). simpl.
  rewrite (getitem_inside _ _ s) by (lia || assumption). reflexivity.
Qed.

Lemma get_cell_outside n b row col :
  grid_ok n (cells b) ->
  row < - Z.of_nat n \/ Z.of_nat n <= row \/ col < - Z.of_nat n \/ Z.of_nat n <= col ->
  get_cell row col b = (Raise IndexError, b).
Proof.
  intros Hg Hout. unfold get_cell. f_equal.
  destruct (getitem (cells b) row) as [r|e] eqn:E; simpl.
  - pose proof (getitem_Return _ _ _ E) as Hin.
    assert (length r = n) as Hlen.
    { unfold getitem in E. destruct (pos (length (cells b)) row) as [k|]; [|discriminate].
      simpl in E. destruct (cells b !! k) eqn:Ek; [|discriminate].
      injection E as ->. eapply grid_ok_row; eauto. }
    destruct Hg as [Hl _]. apply getitem_outside. lia.
  - f_equal. eapply getitem_exn; eauto.
Qed.

Lemma get_cell_state row col b : snd (get_cell row col b) = b.
Proof. reflexivity. Qed.

Lemma set_cell_inside n b row col v :
  grid_ok n (cells b) -> 0 <= row < Z.of_nat n -> 0 <= col < Z.of_nat n ->
  set_cell row col v b =
  (Return tt, with_cells (grid_set (cells b) (Z.to_nat row) (Z.to_nat col) v) b).
Proof.
  intros Hg Hr Hc.
  destruct (grid_ok_lookup _ _ (Z.to_nat row) Hg ltac:(lia)) as (r & Hrow & Hlen).
  unfold set_cell, grid_set. destruct Hg as [Hl _].
  rewrite pos_inside by lia. rewrite Hrow.
  unfold setitem. rewrite pos_inside by lia. reflexivity.
Qed.

(** ** Ranges and winning lines *)

Lemma steps_map a s n :
  steps a s n = map (fun k => a + Z.of_nat k * s) (seq 0 n).
Proof.
  revert a. induction n as [|n IH]; intros a; [reflexivity|].
  cbn [steps seq map]. f_equal; [lia|].
  rewrite IH, <- seq_shift, map_map. apply map_ext. intros k. lia.
Qed.

Lemma range_map n : range n = map Z.of_nat (seq 0 (Z.to_nat n)).
Proof. unfold range. rewrite steps_map. apply map_ext. intros k. lia. Qed.

Lemma elem_of_range n x : x ∈ range n <-> 0 <= x < n.
Proof.
  rewrite range_map, list_elem_of_In, in_map_iff. split.
  - intros (k & <- & Hk). apply in_seq in Hk. lia.
  - intros H. exists (Z.to_nat x). split; [lia|]. apply in_seq. lia.
Qed.

Lemma length_range n : length (range n) = Z.to_nat n.
Proof. rewrite range_map, length_map, length_seq. reflexivity. Qed.

Lemma lookup_range n k : (k < Z.to_nat n)%nat -> range n !! k = Some (Z.of_nat k).
Proof.
  intros H. rewrite range_map, list_lookup_fmap, lookup_seq_lt by exact H. reflexivity.
Qed.

Lemma map_res_Return {A B} (f : A -> res B) (g : A -> B) l :
  (forall x, x ∈ l -> f x = Return (g x)) -> map_res f l = Return (map g l).
Proof.
  induction l as [|x l IH]; intros H; [reflexivity|].
  cbn [map_res map]. rewrite H by left. simpl.
  rewrite IH; [reflexivity|]. intros y Hy. apply H. now right.
Qed.

Lemma range3_up a b s n :
  0 < s -> 0 <= n -> s * n <= b - a + s - 1 < s * n + s ->
  range3 a b s = Return (map (fun k => a + k * s) (range n)).
Proof.
  intros Hs Hn Hq. unfold range3.
  destruct (Z.eqb_spec s 0); [lia|].
  destruct (Z.ltb_spec 0 s); [|lia].
  replace ((b - a + s - 1) / s) with n by (apply Z.div_unique with (b - a + s - 1 - s * n); lia).
  rewrite steps_map, range_map, map_map. reflexivity.
Qed.

Lemma init_winning_lines_grid n :
  2 <= n -> init_winning_lines n = Return (grid_lines n).
Proof.
  intros Hn. unfold init_winning_lines, grid_lines.
  rewrite (map_res_Return _ (column_line n)).
  2:{ intros i Hi. apply elem_of_range in Hi. unfold column_line.
      rewrite (range3_up _ _ _ n) by nia.
      f_equal. apply map_ext. intros k. lia. }
  cbn [res_bind]. rewrite (map_res_Return _ (row_line n)).
  2:{ intros i Hi. apply elem_of_range in Hi. unfold row_line.
      rewrite (range3_up _ _ _ n) by nia.
      f_equal. apply map_ext. intros k. lia. }
  cbn [res_bind]. rewrite (range3_up _ _ _ n) by nia.
  cbn [res_bind]. rewrite (range3_up _ _ _ n) by nia.
  cbn [res_bind]. unfold diagonal_line, antidiagonal_line.
  do 4 f_equal; [|f_equal]; apply map_ext; intros k; lia.
Qed.

Lemma init_winning_lines_0 : init_winning_lines 0 = Return [[]; []].
Proof. reflexivity. Qed.

Lemma init_winning_lines_1 : init_winning_lines 1 = Raise ValueError.
Proof. reflexivity. Qed.

Lemma grid_lines_inside n line i :
  0 <= n -> line ∈ grid_lines n -> i ∈ line -> 0 <= i < n ^ 2.
Proof.
  intros Hn Hline Hi. unfold grid_lines in Hline.
  rewrite !elem_of_app, !list_elem_of_fmap in Hline.
  destruct Hline as [(c & -> & Hc)|[(r & -> & Hr)|Hd]].
  - apply elem_of_range in Hc. unfold column_line in Hi.
    apply list_elem_of_fmap in Hi. destruct Hi as (r & -> & Hr).
    apply elem_of_range in Hr. nia.
  - apply elem_of_range in Hr. unfold row_line in Hi.
    apply list_elem_of_fmap in Hi. destruct Hi as (c & -> & Hc).
    apply elem_of_range in Hc. nia.
  - apply elem_of_cons in Hd. destruct Hd as [->|Hd].
    + unfold diagonal_line in Hi. apply list_elem_of_fmap in Hi.
      destruct Hi as (k & -> & Hk). apply elem_of_range in Hk. nia.
    + apply list_elem_of_singleton in Hd. subst line.
      unfold antidiagonal_line in Hi. apply list_elem_of_fmap in Hi.
      destruct Hi as (k & -> & Hk). apply elem_of_range in Hk. nia.
Qed.

Lemma range_pos_cons n : 0 < n -> exists l, range n = 0 :: l.
Proof.
  intros Hn. unfold range. destruct (Z.to_nat n) eqn:E; [lia|].
  cbn [steps]. eauto.
Qed.

Lemma grid_lines_nonempty n line :
  0 < n -> line ∈ grid_lines n -> exists i0 rest, line = i0 :: rest.
Proof.
  intros Hn Hline. destruct (range_pos_cons n Hn) as [l Hl].
  unfold grid_lines in Hline.
  rewrite !elem_of_app, !list_elem_of_fmap in Hline.
  destruct Hline as [(c & -> & Hc)|[(r & -> & Hr)|Hd]].
  - unfold column_line. rewrite Hl. cbn [map]. eauto.
  - unfold row_line. rewrite Hl. cbn [map]. eauto.
  - apply elem_of_cons in Hd. destruct Hd as [->|Hd].
    + unfold diagonal_line. rewrite Hl. cbn [map]. eauto.
    + apply list_elem_of_singleton in Hd. subst line.
      unfold antidiagonal_line. rewrite Hl. cbn [map]. eauto.
Qed.

(** ** Well-formed boards *)

Lemma init_wf n b : 0 <= n -> init n = Return b -> wf b.
Proof.
  intros Hn. unfold init.
  destruct (init_winning_lines n) as [lines|] eqn:E; [|discriminate].
  cbn [res_bind]. intros [= <-]. split; cbn [size cells qubits winning_lines].
  - exact Hn.
  - split.
    + now rewrite length_map, length_range.
    + rewrite Forall_forall. intros row Hrow.
      apply list_elem_of_fmap in Hrow. destruct Hrow as (i & -> & _).
      now rewrite length_map, length_range.
  - reflexivity.
  - exact E.
Qed.

Lemma wf_size_pos b : wf b -> 0 < size b -> 2 <= size b.
Proof.
  intros Hwf Hpos. destruct (Z.eq_dec (size b) 1) as [E|]; [|lia].
  pose proof (wf_lines b Hwf) as H. rewrite E in H. discriminate.
Qed.

Lemma wf_winning_lines b : wf b -> 0 < size b -> winning_lines b = grid_lines (size b).
Proof.
  intros Hwf Hpos. pose proof (wf_lines b Hwf) as H.
  rewrite init_winning_lines_grid in H by (now apply wf_size_pos).
  now injection H.
Qed.

Lemma wf_with_cells b g :
  wf b -> grid_ok (Z.to_nat (size b)) g -> wf (with_cells g b).
Proof. intros [] Hg. split; assumption. Qed.

Lemma wf_with_count b n : wf b -> wf (with_count n b).
Proof. intros []. split; assumption. Qed.

Lemma wf_with_circuit b c : wf b -> wf (with_circuit c b).
Proof. intros []. split; assumption. Qed.

Lemma index_split n i : 0 < n -> 0 <= i < n ^ 2 -> 0 <= i / n < n /\ 0 <= i mod n < n.
Proof.
  intros Hn Hi. split.
  - split; [apply Z.div_pos; lia|]. apply Z.div_lt_upper_bound; nia.
  - apply Z.mod_pos_bound. lia.
Qed.

Lemma index_join n r c :
  0 <= r < n -> 0 <= c < n ->
  0 <= r * n + c < n ^ 2 /\ (r * n + c) / n = r /\ (r * n + c) mod n = c.
Proof.
  intros Hr Hc. split; [nia|]. split.
  - symmetry. apply Z.div_unique with c; lia.
  - symmetry. apply Z.mod_unique with r; lia.
Qed.

Lemma cell_at_inside b i :
  wf b -> 0 <= i < size b ^ 2 -> cell_at i b = (Return (cell_idx b i), b).
Proof.
  intros Hwf Hi. assert (0 < size b) as Hpos by (pose proof (wf_size b Hwf); nia).
  destruct (index_split _ _ Hpos Hi) as [Hr Hc].
  pose proof (get_cell_inside _ b (i / size b) (i mod size b) (wf_cells b Hwf)
                ltac:(lia) ltac:(lia)) as H.
  unfold get_cell in H. injection H as H.
  unfold cell_at, floordiv, modulo.
  destruct (Z.eqb_spec (size b) 0); [lia|]. cbn [res_bind].
  destruct (getitem (cells b) (i / size b)) as [row|]; [|discriminate].
  cbn [res_bind] in *. now rewrite H.
Qed.

Lemma cell_idx_join b r c :
  0 <= r < size b -> 0 <= c < size b -> cell_idx b (r * size b + c) = cell b r c.
Proof.
  intros Hr Hc. unfold cell_idx.
  destruct (index_join _ _ _ Hr Hc) as (_ & -> & ->). reflexivity.
Qed.

Lemma qubit_inside b i :
  wf b -> 0 <= i < size b ^ 2 -> qubit i b = (Return (Z.to_nat i), b).
Proof.
  intros Hwf Hi. unfold qubit. f_equal. apply getitem_inside; [lia|].
  rewrite (wf_qubits b Hwf), lookup_seq_lt by lia. reflexivity.
Qed.

(** C10 fails at size 1: [Board(1)] raises [ValueError], because the
    anti-diagonal is computed with [range(0, 0, 0)], whose step is zero. *)
Theorem init_size_one_raises : init 1 = Raise ValueError.
Proof. reflexivity. Qed.

(** For every size from 2 on, the constructor succeeds and the winning
    lines are the columns, the rows and the two diagonals of the grid. *)
Lemma init_grid n :
  2 <= n -> exists b, init n = Return b /\ wf b /\ winning_lines b = grid_lines n.
Proof.
  intros Hn. unfold init.
  destruct (init_winning_lines n) as [lines|] eqn:E;
    rewrite init_winning_lines_grid in E by assumption; [|discriminate].
  injection E as <-. cbn [res_bind]. eexists. split; [reflexivity|].
  split; [|reflexivity].
  apply (init_wf n); [lia|]. unfold init.
  rewrite init_winning_lines_grid by assumption. reflexivity.
Qed.

(** ** Classical moves *)

Lemma string_eqb_false s t : s <> t -> String.eqb s t = false.
Proof. intros H. now apply String.eqb_neq. Qed.

Lemma append_distinct g qargs b :
  NoDup qargs -> append g qargs b = (Return tt, with_circuit (circuit b ++ [g]) b).
Proof. intros H. unfold append. now rewrite bool_decide_eq_true_2. Qed.

Lemma cell_with_cells_eq b row col v :
  wf b -> 0 <= row < size b -> 0 <= col < size b ->
  cell (with_cells (grid_set (cells b) (Z.to_nat row) (Z.to_nat col) v) b) row col = v.
Proof.
  intros Hwf Hr Hc. unfold cell. cbn [cells with_cells].
  eapply grid_at_set_eq; [apply (wf_cells b Hwf)| |]; lia.
Qed.

Lemma cell_with_cells_ne b row col v r c :
  0 <= row -> 0 <= col -> 0 <= r -> 0 <= c -> (r, c) <> (row, col) ->
  cell (with_cells (grid_set (cells b) (Z.to_nat row) (Z.to_nat col) v) b) r c
  = cell b r c.
Proof.
  intros Hrow Hcol Hr Hc Hne. unfold cell. cbn [cells with_cells].
  apply grid_at_set_ne. intros [= E1 E2]. apply Hne. f_equal; lia.
Qed.

Lemma make_classical_move_empty b row col mark :
  wf b -> 0 <= row < size b -> 0 <= col < size b -> cell b row col = " " ->
  make_classical_move row col mark b =
  (Return true,
   with_circuit
     (circuit b ++ [if String.eqb mark "X" then Gx (Z.to_nat (row * size b + col))
                    else Gid (Z.to_nat (row * size b + col))])
     (with_cells (grid_set (cells b) (Z.to_nat row) (Z.to_nat col) mark) b)).
Proof.
  intros Hwf Hr Hc He. unfold make_classical_move.
  erewrite bind_Return by (eapply get_cell_inside; [apply (wf_cells b Hwf)|lia|lia]).
  rewrite He. cbn [String.eqb Ascii.eqb Bool.eqb].
  erewrite bind_Return by (eapply set_cell_inside; [apply (wf_cells b Hwf)|lia|lia]).
  set (b1 := with_cells _ b).
  assert (wf b1) as Hwf1 by (apply wf_with_cells; [|apply grid_set_ok, wf_cells]; exact Hwf).
  erewrite bind_Return by reflexivity. cbn beta.
  change (size b1) with (size b).
  destruct (index_join _ _ _ Hr Hc) as (Hi & _ & _).
  destruct (String.eqb mark "X").
  - rewrite (bind_Return _ _ b1 tt
               (with_circuit (circuit b1 ++ [Gx (Z.to_nat (row * size b + col))]) b1));
      [reflexivity|].
    erewrite bind_Return by (apply qubit_inside; assumption).
    apply append_distinct, NoDup_singleton.
  - rewrite (bind_Return _ _ b1 tt
               (with_circuit (circuit b1 ++ [Gid (Z.to_nat (row * size b + col))]) b1));
      [reflexivity|].
    erewrite bind_Return by (apply qubit_inside; assumption).
    apply append_distinct, NoDup_singleton.
Qed.

Lemma make_classical_move_occupied b row col mark :
  wf b -> 0 <= row < size b -> 0 <= col < size b -> cell b row col <> " " ->
  make_classical_move row col mark b = (Return false, b).
Proof.
  intros Hwf Hr Hc He. unfold make_classical_move.
  erewrite bind_Return by (eapply get_cell_inside; [apply (wf_cells b Hwf)|lia|lia]).
  now rewrite string_eqb_false.
Qed.

(** C8: on an in-range cell [make_classical_move] returns a boolean and
    never raises; it returns [True] exactly when the cell is empty, and then
    the cell holds the mark, every other cell and the entanglement counter
    are as before; on an occupied cell it returns [False] and the board is
    unchanged. *)
Theorem make_classical_move_correct b row col mark :
  wf b -> 0 <= row < size b -> 0 <= col < size b ->
  exists ok b',
    make_classical_move row col mark b = (Return ok, b')
    /\ (ok = true <-> cell b row col = " ")
    /\ (ok = true ->
        cell b' row col = mark
        /\ (forall r c, 0 <= r -> 0 <= c -> (r, c) <> (row, col) -> cell b' r c = cell b r c)
        /\ entanglement_count b' = entanglement_count b)
    /\ (ok = false -> b' = b).
Proof.
  intros Hwf Hr Hc. destruct (string_dec (cell b row col) " ") as [He|He].
  - eexists true, _. split; [apply make_classical_move_empty; assumption|].
    split; [tauto|]. split; [|discriminate]. intros _. split; [|split].
    + unfold cell. cbn [cells with_circuit with_cells].
      eapply grid_at_set_eq; [apply (wf_cells b Hwf)| |]; lia.
    + intros r c Hr0 Hc0 Hne.
      apply (cell_with_cells_ne b row col mark r c); (lia || assumption).
    + reflexivity.
  - exists false, b. split; [apply make_classical_move_occupied; assumption|].
    split; [split; [discriminate|contradiction]|]. split; [discriminate|reflexivity].
Qed.

(** ** Entangling moves *)

Lemma any_Return {A} (f : A -> M bool) (g : A -> bool) l b :
  (forall x, x ∈ l -> f x b = (Return (g x), b)) ->
  any_ f l b = (Return (existsb g l), b).
Proof.
  induction l as [|x l IH]; intros H; [reflexivity|].
  cbn [any_ existsb]. rewrite (bind_Return _ _ _ _ _ (H x ltac:(left))).
  destruct (g x); [reflexivity|]. apply IH. intros y Hy. apply H. now right.
Qed.

Lemma all_Return {A} (f : A -> M bool) (g : A -> bool) l b :
  (forall x, x ∈ l -> f x b = (Return (g x), b)) ->
  all_ f l b = (Return (forallb g l), b).
Proof.
  induction l as [|x l IH]; intros H; [reflexivity|].
  cbn [all_ forallb]. rewrite (bind_Return _ _ _ _ _ (H x ltac:(left))).
  destruct (g x); [|reflexivity]. apply IH. intros y Hy. apply H. now right.
Qed.

Lemma remove_dups_length_le {A} `{EqDecision A} (l : list A) :
  (length (remove_dups l) <= length l)%nat.
Proof.
  induction l as [|x l IH]; [reflexivity|]. cbn [remove_dups].
  destruct (decide_rel elem_of x l); cbn [length]; lia.
Qed.

Lemma remove_dups_length_NoDup {A} `{EqDecision A} (l : list A) :
  length (remove_dups l) = length l <-> NoDup l.
Proof.
  induction l as [|x l IH].
  - split; [constructor|reflexivity].
  - cbn [remove_dups]. rewrite NoDup_cons.
    pose proof (remove_dups_length_le l).
    destruct (decide_rel elem_of x l) as [Hin|Hin]; cbn [length].
    + split; [lia|tauto].
    + rewrite <- IH. split; [intros; split; [assumption|lia]|intros [_ ?]; lia].
Qed.

Lemma mark_cells_ok n g positions v :
  grid_ok n g -> grid_ok n (mark_cells g positions v).
Proof.
  revert g. induction positions as [|p ps IH]; intros g Hg; [exact Hg|].
  cbn [mark_cells fold_left]. apply IH, grid_set_ok, Hg.
Qed.

Lemma for_set_cell b positions v :
  wf b -> Forall (inside b) positions ->
  for_ positions (fun p => set_cell (fst p) (snd p) v) b
  = (Return tt, with_cells (mark_cells (cells b) positions v) b).
Proof.
  revert b. induction positions as [|p ps IH]; intros b Hwf Hin.
  - destruct b. reflexivity.
  - apply Forall_cons in Hin. destruct Hin as [[Hr Hc] Hin].
    cbn [for_ mark_cells fold_left].
    erewrite bind_Return by (eapply set_cell_inside; [apply (wf_cells b Hwf)|lia|lia]).
    rewrite IH.
    + reflexivity.
    + apply wf_with_cells; [exact Hwf|]. apply grid_set_ok, wf_cells, Hwf.
    + exact Hin.
Qed.

Lemma grid_at_mark_cells n g positions v r c :
  grid_ok n g ->
  Forall (fun p => 0 <= fst p < Z.of_nat n /\ 0 <= snd p < Z.of_nat n) positions ->
  0 <= r -> 0 <= c ->
  grid_at (mark_cells g positions v) (Z.to_nat r) (Z.to_nat c)
  = if bool_decide ((r, c) ∈ positions) then v else grid_at g (Z.to_nat r) (Z.to_nat c).
Proof.
  intros Hg Hin Hr Hc. revert g Hg.
  induction Hin as [|p ps [Hpr Hpc] Hin IH]; intros g Hg.
  - reflexivity.
  - cbn [mark_cells fold_left]. fold (mark_cells (grid_set g (Z.to_nat (fst p)) (Z.to_nat (snd p)) v) ps v).
    rewrite IH by (apply grid_set_ok, Hg).
    destruct (bool_decide_reflect ((r, c) ∈ ps)) as [Hps|Hps].
    + rewrite bool_decide_eq_true_2 by (now right). reflexivity.
    + destruct (decide ((r, c) = p)) as [<-|Hne].
      * rewrite bool_decide_eq_true_2 by left.
        cbn [fst snd] in *. eapply grid_at_set_eq; [exact Hg| |]; lia.
      * rewrite bool_decide_eq_false_2.
        2:{ intros H. apply elem_of_cons in H. tauto. }
        apply grid_at_set_ne. destruct p as [pr pc]. cbn [fst snd] in *.
        intros [= E1 E2]. apply Hne. f_equal; lia.
Qed.

Lemma make_entangled_move_arity b positions mark :
  length positions <> 2%nat -> length positions <> 3%nat ->
  make_entangled_move positions mark b = (Return false, b).
Proof.
  intros H2 H3. unfold make_entangled_move. cbn [existsb].
  apply Nat.eqb_neq in H2, H3. rewrite H2, H3. reflexivity.
Qed.

Lemma occupied_scan b positions :
  wf b -> Forall (inside b) positions ->
  any_ (fun p => let* c := get_cell (fst p) (snd p) in ret (negb (String.eqb c " ")))
       positions b
  = (Return (existsb (occupiedb b) positions), b).
Proof.
  intros Hwf Hin. apply any_Return. intros p Hp.
  rewrite Forall_forall in Hin. destruct (Hin p Hp) as [Hr Hc].
  erewrite bind_Return by (eapply get_cell_inside; [apply (wf_cells b Hwf)|lia|lia]).
  reflexivity.
Qed.

Lemma existsb_occupied b positions :
  existsb (occupiedb b) positions = false <-> Forall (empty_at b) positions.
Proof.
  rewrite Forall_forall. split.
  - intros H p Hp. unfold empty_at.
    destruct (string_dec (cell b (fst p) (snd p)) " ") as [|Hne]; [assumption|].
    assert (existsb (occupiedb b) positions = true) as Ht; [|congruence].
    apply existsb_exists. exists p. split; [now apply list_elem_of_In|].
    unfold occupiedb. now rewrite string_eqb_false.
  - intros H. destruct (existsb (occupiedb b) positions) eqn:E; [|reflexivity].
    apply existsb_exists in E. destruct E as (p & Hp & Ho).
    apply list_elem_of_In in Hp. specialize (H p Hp). unfold empty_at in H.
    unfold occupiedb in Ho. rewrite H in Ho. discriminate.
Qed.

Lemma qubit_of_inside b p : inside b p -> 0 <= fst p * size b + snd p < size b ^ 2.
Proof. intros [Hr Hc]. apply index_join; assumption. Qed.

Lemma qubit_of_inj b p q :
  inside b p -> inside b q -> p <> q -> qubit_of b p <> qubit_of b q.
Proof.
  intros Hp Hq Hne E. apply Hne. unfold qubit_of in E.
  pose proof (qubit_of_inside _ _ Hp). pose proof (qubit_of_inside _ _ Hq).
  assert (fst p * size b + snd p = fst q * size b + snd q) as E' by lia.
  destruct Hp as [Hp1 Hp2], Hq as [Hq1 Hq2].
  destruct (index_join _ _ _ Hp1 Hp2) as (_ & Hd & Hm).
  destruct (index_join _ _ _ Hq1 Hq2) as (_ & Hd' & Hm').
  rewrite E' in Hd, Hm. destruct p, q. cbn [fst snd] in *. congruence.
Qed.

Ltac run_qubit Hwf :=
  erewrite bind_Return by
    (apply qubit_inside; [repeat apply wf_with_circuit; exact Hwf
                         |cbn [size with_circuit]; apply qubit_of_inside; assumption]).

Lemma make_entangled_move_success b positions mark :
  wf b -> Forall (inside b) positions ->
  (length positions = 2 \/ length positions = 3)%nat ->
  Forall (empty_at b) positions -> NoDup positions ->
  make_entangled_move positions mark b = (Return true, entangled b positions mark).
Proof.
  intros Hwf Hin Hlen Hempty Hnd. unfold make_entangled_move.
  assert (existsb (Nat.eqb (length positions)) [2; 3]%nat = true) as ->.
  { cbn [existsb]. destruct Hlen as [-> | ->]; reflexivity. }
  cbn [negb]. rewrite (bind_Return _ _ _ _ _ (occupied_scan b positions Hwf Hin)).
  rewrite (proj2 (existsb_occupied b positions) Hempty).
  rewrite (proj2 (remove_dups_length_NoDup positions) Hnd), Nat.eqb_refl. cbn [negb].
  rewrite bind_self.
  destruct positions as [|p0 [|p1 [|p2 [|p3 ps]]]]; cbn [length] in Hlen; try lia.
  - apply Forall_cons in Hin. destruct Hin as [H0 Hin].
    apply Forall_cons in Hin. destruct Hin as [H1 _].
    apply NoDup_cons in Hnd. destruct Hnd as [Hn01 _].
    rewrite list_elem_of_singleton in Hn01.
    pose proof (qubit_of_inj b p0 p1 H0 H1 Hn01) as Hq01.
    cbn [length Nat.eqb map].
    rewrite (bind_Return _ _ b tt
      (with_circuit (circuit b ++ [Gh (qubit_of b p0); Gcx (qubit_of b p0) (qubit_of b p1)]) b)).
    + erewrite bind_Return.
      2:{ apply for_set_cell; [apply wf_with_circuit, Hwf|].
          constructor; [exact H0|constructor; [exact H1|constructor]]. }
      erewrite bind_Return by reflexivity. reflexivity.
    + erewrite bind_lift by reflexivity. run_qubit Hwf.
      erewrite bind_Return by (apply append_distinct, NoDup_singleton).
      erewrite bind_lift by reflexivity. run_qubit Hwf.
      erewrite bind_lift by reflexivity. run_qubit Hwf.
      unfold circuit_cx. rewrite append_distinct.
      * unfold with_circuit. cbn [circuit size entanglement_count cells qubits winning_lines].
        rewrite <- app_assoc. reflexivity.
      * apply NoDup_cons. split; [now rewrite list_elem_of_singleton|apply NoDup_singleton].
  - apply Forall_cons in Hin. destruct Hin as [H0 Hin].
    apply Forall_cons in Hin. destruct Hin as [H1 Hin].
    apply Forall_cons in Hin. destruct Hin as [H2 _].
    apply NoDup_cons in Hnd. destruct Hnd as [Hn0 Hnd].
    apply NoDup_cons in Hnd. destruct Hnd as [Hn12 _].
    rewrite elem_of_cons, list_elem_of_singleton in Hn0.
    rewrite list_elem_of_singleton in Hn12.
    pose proof (qubit_of_inj b p0 p1 H0 H1 ltac:(tauto)) as Hq01.
    pose proof (qubit_of_inj b p0 p2 H0 H2 ltac:(tauto)) as Hq02.
    pose proof (qubit_of_inj b p1 p2 H1 H2 Hn12) as Hq12.
    cbn [length Nat.eqb map].
    rewrite (bind_Return _ _ b tt
      (with_circuit (circuit b ++ [Gh (qubit_of b p0); Gcx (qubit_of b p0) (qubit_of b p1);
                                   Gccx (qubit_of b p0) (qubit_of b p1) (qubit_of b p2)]) b)).
    + erewrite bind_Return.
      2:{ apply for_set_cell; [apply wf_with_circuit, Hwf|].
          constructor; [exact H0|constructor; [exact H1|constructor; [exact H2|constructor]]]. }
      erewrite bind_Return by reflexivity. reflexivity.
    + erewrite bind_lift by reflexivity. run_qubit Hwf.
      erewrite bind_Return by (apply append_distinct, NoDup_singleton).
      erewrite bind_lift by reflexivity. run_qubit Hwf.
      erewrite bind_lift by reflexivity. run_qubit Hwf.
      erewrite bind_Return.
      2:{ apply append_distinct. apply NoDup_cons.
          split; [now rewrite list_elem_of_singleton|apply NoDup_singleton]. }
      erewrite bind_lift by reflexivity. run_qubit Hwf.
      erewrite bind_lift by reflexivity. run_qubit Hwf.
      erewrite bind_lift by reflexivity. run_qubit Hwf.
      unfold circuit_ccx. rewrite append_distinct.
      * unfold with_circuit. cbn [circuit size entanglement_count cells qubits winning_lines].
        rewrite <- !app_assoc. reflexivity.
      * apply NoDup_cons. split.
        { rewrite elem_of_cons, list_elem_of_singleton. tauto. }
        apply NoDup_cons. split; [now rewrite list_elem_of_singleton|apply NoDup_singleton].
Qed.

Lemma make_entangled_move_occupied b positions mark :
  wf b -> Forall (inside b) positions -> ~ Forall (empty_at b) positions ->
  make_entangled_move positions mark b = (Return false, b).
Proof.
  intros Hwf Hin Hocc. unfold make_entangled_move.
  destruct (negb (existsb (Nat.eqb (length positions)) [2; 3]%nat)); [reflexivity|].
  rewrite (bind_Return _ _ _ _ _ (occupied_scan b positions Hwf Hin)).
  destruct (existsb (occupiedb b) positions) eqn:E; [reflexivity|].
  apply existsb_occupied in E. contradiction.
Qed.

Lemma make_entangled_move_duplicate b positions mark :
  wf b -> Forall (inside b) positions -> ~ NoDup positions ->
  make_entangled_move positions mark b = (Return false, b).
Proof.
  intros Hwf Hin Hdup. unfold make_entangled_move.
  destruct (negb (existsb (Nat.eqb (length positions)) [2; 3]%nat)); [reflexivity|].
  rewrite (bind_Return _ _ _ _ _ (occupied_scan b positions Hwf Hin)).
  destruct (existsb (occupiedb b) positions); [reflexivity|].
  destruct (Nat.eqb_spec (length (remove_dups positions)) (length positions)) as [E|E];
    [|reflexivity].
  apply remove_dups_length_NoDup in E. contradiction.
Qed.

Lemma entangled_count b positions mark :
  entanglement_count (entangled b positions mark) = entanglement_count b + 1.
Proof. reflexivity. Qed.

Lemma entangled_cell b positions mark r c :
  wf b -> Forall (inside b) positions -> 0 <= r -> 0 <= c ->
  cell (entangled b positions mark) r c
  = if bool_decide ((r, c) ∈ positions) then String.append mark "?" else cell b r c.
Proof.
  intros Hwf Hin Hr Hc. unfold cell, entangled. cbn [cells].
  apply grid_at_mark_cells with (n := Z.to_nat (size b)); try assumption.
  - apply wf_cells, Hwf.
  - eapply Forall_impl; [exact Hin|]. intros p [H1 H2]. lia.
Qed.

Lemma entangled_wf b positions mark : wf b -> wf (entangled b positions mark).
Proof.
  intros Hwf. destruct Hwf as [H1 H2 H3 H4]. split; cbn [size cells qubits winning_lines entangled];
    try assumption.
  apply mark_cells_ok, H2.
Qed.

(** C6: an entangling move over two or three distinct, empty, in-range
    positions succeeds; afterwards each named cell holds the mark followed
    by [?] (pending, tagged with the mark), every cell that was not named
    is as before, and the entanglement counter is one more than before. *)
Theorem make_entangled_move_effect b positions mark :
  wf b -> Forall (inside b) positions ->
  (length positions = 2 \/ length positions = 3)%nat ->
  NoDup positions -> Forall (empty_at b) positions ->
  exists b',
    make_entangled_move positions mark b = (Return true, b')
    /\ (forall p, p ∈ positions -> cell b' (fst p) (snd p) = String.append mark "?")
    /\ (forall r c, 0 <= r -> 0 <= c -> (r, c) ∉ positions -> cell b' r c = cell b r c)
    /\ entanglement_count b' = entanglement_count b + 1.
Proof.
  intros Hwf Hin Hlen Hnd Hempty. exists (entangled b positions mark).
  split; [now apply make_entangled_move_success|]. split; [|split].
  - intros p Hp. rewrite Forall_forall in Hin. destruct (Hin p Hp) as [Hr Hc].
    rewrite entangled_cell; try lia; try assumption.
    + rewrite bool_decide_eq_true_2; [reflexivity|]. now destruct p.
    + now apply Forall_forall.
  - intros r c Hr Hc Hnot. rewrite entangled_cell by assumption.
    now rewrite bool_decide_eq_false_2.
  - reflexivity.
Qed.

(** C7: [make_entangled_move] returns [False] and leaves the whole board
    (cells, circuit, counter) as it was whenever the number of positions is
    neither 2 nor 3; over in-range positions it returns a boolean, which is
    [False] exactly when the arity is wrong, a named cell is not empty, or a
    position is repeated, and the board is then unchanged. *)
Theorem make_entangled_move_outcome b positions mark :
  wf b ->
  (length positions <> 2%nat /\ length positions <> 3%nat ->
   make_entangled_move positions mark b = (Return false, b))
  /\ (Forall (inside b) positions ->
      exists ok b',
        make_entangled_move positions mark b = (Return ok, b')
        /\ (ok = false <->
            (length positions <> 2%nat /\ length positions <> 3%nat)
            \/ ~ Forall (empty_at b) positions
            \/ ~ NoDup positions)
        /\ (ok = false -> b' = b)).
Proof.
  intros Hwf. split.
  - intros [H2 H3]. now apply make_entangled_move_arity.
  - intros Hin.
    destruct (decide (length positions = 2%nat \/ length positions = 3%nat)) as [Hlen|Hlen].
    + assert (Forall (empty_at b) positions \/ ~ Forall (empty_at b) positions)
        as [Hempty|Hocc].
      { destruct (existsb (occupiedb b) positions) eqn:E.
        - right. intros H. apply existsb_occupied in H. congruence.
        - left. now apply existsb_occupied. }
      * destruct (decide (NoDup positions)) as [Hnd|Hdup].
        -- exists true, (entangled b positions mark).
           split; [now apply make_entangled_move_success|].
           split; [|discriminate]. split; [discriminate|].
           intros [[? ?]|[?|?]]; [lia|contradiction|contradiction].
        -- exists false, b. split; [now apply make_entangled_move_duplicate|]. tauto.
      * exists false, b. split; [now apply make_entangled_move_occupied|]. tauto.
    + exists false, b. split; [apply make_entangled_move_arity; lia|].
      split; [|reflexivity]. split; [|reflexivity]. intros _. left. lia.
Qed.

(** ** Cells outside the board *)

Lemma get_cell_outside_wf b p :
  wf b -> outside b p -> get_cell (fst p) (snd p) b = (Raise IndexError, b).
Proof.
  intros Hwf Hout. eapply get_cell_outside; [apply (wf_cells b Hwf)|].
  pose proof (wf_size b Hwf). unfold outside in Hout. lia.
Qed.

Lemma get_cell_cases row col b :
  (exists s, get_cell row col b = (Return s, b)) \/ get_cell row col b = (Raise IndexError, b).
Proof.
  unfold get_cell.
  destruct (res_bind (getitem (cells b) row) (fun r => getitem r col)) as [s|e] eqn:E.
  - left. eauto.
  - right. f_equal. f_equal.
    destruct (getitem (cells b) row) as [r|e'] eqn:E1; cbn [res_bind] in E.
    + eapply getitem_exn; eauto.
    + injection E as <-. eapply getitem_exn; eauto.
Qed.

Lemma make_classical_move_outside b row col mark :
  wf b -> outside b (row, col) ->
  make_classical_move row col mark b = (Raise IndexError, b).
Proof.
  intros Hwf Hout. unfold make_classical_move.
  apply bind_Raise. now apply (get_cell_outside_wf b (row, col)).
Qed.

Lemma make_swap_move_outside_first b row1 col1 row2 col2 :
  wf b -> outside b (row1, col1) ->
  make_swap_move row1 col1 row2 col2 b = (Raise IndexError, b).
Proof.
  intros Hwf Hout. unfold make_swap_move.
  apply bind_Raise. now apply (get_cell_outside_wf b (row1, col1)).
Qed.

Lemma make_swap_move_outside_second b row1 col1 row2 col2 :
  wf b -> inside b (row1, col1) -> outside b (row2, col2) ->
  make_swap_move row1 col1 row2 col2 b
  = (if String.eqb (cell b row1 col1) " " then Return false else Raise IndexError, b).
Proof.
  intros Hwf [Hr Hc] Hout. cbn [fst snd] in *. unfold make_swap_move.
  erewrite bind_Return by (eapply get_cell_inside; [apply (wf_cells b Hwf)|lia|lia]).
  destruct (String.eqb (cell b row1 col1) " "); cbn [negb].
  - erewrite bind_Return by reflexivity. reflexivity.
  - apply bind_Raise, bind_Raise. now apply (get_cell_outside_wf b (row2, col2)).
Qed.

Lemma make_swap_move_outside b row1 col1 row2 col2 :
  wf b -> outside b (row1, col1) \/ outside b (row2, col2) ->
  make_swap_move row1 col1 row2 col2 b = (Raise IndexError, b)
  \/ make_swap_move row1 col1 row2 col2 b = (Return false, b).
Proof.
  intros Hwf [Hout|Hout].
  - left. now apply make_swap_move_outside_first.
  - unfold make_swap_move.
    destruct (get_cell_cases row1 col1 b) as [[s Hs]|Hs].
    + rewrite (bind_Return _ _ _ _ _ Hs).
      destruct (String.eqb s " "); cbn [negb].
      * right. erewrite bind_Return by reflexivity. reflexivity.
      * left. apply bind_Raise, bind_Raise. now apply (get_cell_outside_wf b (row2, col2)).
    + left. now apply bind_Raise.
Qed.

Lemma occupied_scan_outside b positions :
  wf b -> Exists (outside b) positions ->
  let scan := any_ (fun p => let* c := get_cell (fst p) (snd p) in
                             ret (negb (String.eqb c " "))) positions in
  scan b = (Raise IndexError, b) \/ scan b = (Return true, b).
Proof.
  intros Hwf Hex. cbn zeta. induction Hex as [p ps Hout|p ps Hex IH].
  - left. cbn [any_]. apply bind_Raise, bind_Raise. now apply get_cell_outside_wf.
  - cbn [any_]. destruct (get_cell_cases (fst p) (snd p) b) as [[s Hs]|Hs].
    + erewrite bind_Return by (erewrite bind_Return by exact Hs; reflexivity).
      destruct (negb (String.eqb s " ")); [now right|exact IH].
    + left. now apply bind_Raise, bind_Raise.
Qed.

Lemma occupied_scan_outside_first b pre p post :
  wf b -> Forall (inside b) pre -> Forall (empty_at b) pre -> outside b p ->
  any_ (fun p => let* c := get_cell (fst p) (snd p) in ret (negb (String.eqb c " ")))
       (pre ++ p :: post) b
  = (Raise IndexError, b).
Proof.
  intros Hwf Hin Hempty Hout. induction pre as [|q pre IH]; cbn [app any_].
  - apply bind_Raise, bind_Raise. now apply get_cell_outside_wf.
  - apply Forall_cons in Hin, Hempty. destruct Hin as [[Hr Hc] Hin], Hempty as [He Hempty].
    erewrite bind_Return.
    2:{ erewrite bind_Return by (eapply get_cell_inside; [apply (wf_cells b Hwf)|lia|lia]).
        reflexivity. }
    unfold empty_at in He. rewrite He. cbn [String.eqb Ascii.eqb Bool.eqb negb].
    now apply IH.
Qed.

Lemma make_entangled_move_outside b positions mark :
  wf b -> Exists (outside b) positions ->
  make_entangled_move positions mark b = (Raise IndexError, b)
  \/ make_entangled_move positions mark b = (Return false, b).
Proof.
  intros Hwf Hex. unfold make_entangled_move.
  destruct (negb (existsb (Nat.eqb (length positions)) [2; 3]%nat)); [now right|].
  destruct (occupied_scan_outside b positions Hwf Hex) as [H|H].
  - left. now apply bind_Raise.
  - right. now rewrite (bind_Return _ _ _ _ _ H).
Qed.

Lemma make_entangled_move_outside_first b pre p post mark :
  wf b -> (length (pre ++ p :: post) = 2 \/ length (pre ++ p :: post) = 3)%nat ->
  Forall (inside b) pre -> Forall (empty_at b) pre -> outside b p ->
  make_entangled_move (pre ++ p :: post) mark b = (Raise IndexError, b).
Proof.
  intros Hwf Hlen Hin Hempty Hout. unfold make_entangled_move.
  assert (existsb (Nat.eqb (length (pre ++ p :: post))) [2; 3]%nat = true) as ->.
  { cbn [existsb]. destruct Hlen as [-> | ->]; reflexivity. }
  cbn [negb]. apply bind_Raise. now apply occupied_scan_outside_first.
Qed.

(** C9, amended: a move that names a cell whose row or column is at or
    beyond [size], or below [- size], leaves the board as it was;
    [make_classical_move] raises [IndexError], and [make_swap_move] and
    [make_entangled_move] either raise [IndexError] or return [False]. *)
Theorem out_of_range_moves b mark :
  wf b ->
  (forall row col, outside b (row, col) ->
     make_classical_move row col mark b = (Raise IndexError, b))
  /\ (forall row1 col1 row2 col2,
        outside b (row1, col1) \/ outside b (row2, col2) ->
        make_swap_move row1 col1 row2 col2 b = (Raise IndexError, b)
        \/ make_swap_move row1 col1 row2 col2 b = (Return false, b))
  /\ (forall positions, Exists (outside b) positions ->
        make_entangled_move positions mark b = (Raise IndexError, b)
        \/ make_entangled_move positions mark b = (Return false, b)).
Proof.
  intros Hwf. split; [|split].
  - intros row col. now apply make_classical_move_outside.
  - intros row1 col1 row2 col2. now apply make_swap_move_outside.
  - intros positions. now apply make_entangled_move_outside.
Qed.

(** ** Collapse trigger *)

Lemma wf_lines_inside b line i :
  wf b -> line ∈ winning_lines b -> i ∈ line -> 0 <= i < size b ^ 2.
Proof.
  intros Hwf Hline Hi. pose proof (wf_size b Hwf) as Hs.
  destruct (Z.eq_dec (size b) 0) as [E|E].
  - pose proof (wf_lines b Hwf) as H. rewrite E in H.
    rewrite init_winning_lines_0 in H. injection H as H. rewrite <- H in Hline.
    apply elem_of_cons in Hline. destruct Hline as [->|Hline].
    + now apply elem_of_nil in Hi.
    + apply list_elem_of_singleton in Hline. subst line. now apply elem_of_nil in Hi.
  - rewrite wf_winning_lines in Hline by (assumption || lia).
    eapply grid_lines_inside; eauto.
Qed.

Lemma all_pending b line :
  wf b -> (forall i, i ∈ line -> 0 <= i < size b ^ 2) ->
  all_ (fun i => let* c := cell_at i in ret (endswith c "?")) line b
  = (Return (forallb (fun i => pendingb (cell_idx b i)) line), b).
Proof.
  intros Hwf Hin. apply all_Return. intros i Hi.
  erewrite bind_Return by (apply cell_at_inside; auto). reflexivity.
Qed.

Lemma some_line_pending_Return b lines :
  wf b -> (forall line i, line ∈ lines -> i ∈ line -> 0 <= i < size b ^ 2) ->
  some_line_pending lines b
  = (Return (existsb (forallb (fun i => pendingb (cell_idx b i))) lines), b).
Proof.
  intros Hwf. induction lines as [|line lines IH]; intros Hin; [reflexivity|].
  cbn [some_line_pending existsb].
  rewrite (bind_Return _ _ _ _ _ (all_pending b line Hwf (fun i => Hin line i ltac:(left)))).
  destruct (forallb _ line); [reflexivity|].
  apply IH. intros l i Hl. apply Hin. now right.
Qed.

(** C2: [can_be_collapsed] returns a boolean and leaves the board as it
    was; the boolean is [True] exactly when the entanglement counter is at
    least 3 and some winning line has only pending cells (cells whose
    content ends in [?], whatever the mark before it). *)
Theorem can_be_collapsed_correct b :
  wf b ->
  exists t,
    can_be_collapsed b = (Return t, b)
    /\ (t = true <->
        3 <= entanglement_count b
        /\ exists line, line ∈ winning_lines b /\ line_pending b line).
Proof.
  intros Hwf. unfold can_be_collapsed. rewrite bind_self.
  destruct (Z.leb_spec 3 (entanglement_count b)) as [Hc|Hc].
  - rewrite some_line_pending_Return by (assumption || (intros; eapply wf_lines_inside; eauto)).
    eexists. split; [reflexivity|]. rewrite existsb_exists. split.
    + intros (line & Hline & Hall). split; [assumption|]. exists line.
      split; [now apply list_elem_of_In|]. intros i Hi.
      rewrite forallb_forall in Hall. apply Hall. now apply list_elem_of_In.
    + intros (_ & line & Hline & Hall). exists line. split; [now apply list_elem_of_In|].
      apply forallb_forall. intros i Hi. apply Hall. now apply list_elem_of_In.
  - exists false. split; [reflexivity|]. split; [discriminate|]. intros [? _]. lia.
Qed.

(** ** Win and draw evaluation *)

Lemma encode_pending c : pendingb (encode c) = true <-> exists m, c = Pending m.
Proof.
  destruct c as [|[]|[]]; cbn; split; intros H; try discriminate; eauto;
    destruct H as [m H]; discriminate.
Qed.

Lemma line_wonb_true b line i0 rest :
  line = i0 :: rest -> line_wonb b line = true <-> line_won b line (cell_idx b i0).
Proof.
  intros ->. unfold line_wonb, line_won, str_in. cbn [hd existsb].
  rewrite andb_true_iff, forallb_forall, negb_true_iff, !orb_false_iff.
  rewrite !String.eqb_neq. split.
  - intros (Hall & H1 & H2 & H3 & _). split; [|tauto].
    intros i Hi. apply String.eqb_eq, Hall. now apply list_elem_of_In.
  - intros (Hall & H1 & H2 & H3). split; [|tauto].
    intros i Hi. apply String.eqb_eq, Hall. now apply list_elem_of_In.
Qed.

Lemma winner_on_Return b lines :
  wf b ->
  (forall line, line ∈ lines ->
     (exists i0 rest, line = i0 :: rest) /\ forall i, i ∈ line -> 0 <= i < size b ^ 2) ->
  winner_on lines b = (Return (first_winner b lines), b).
Proof.
  intros Hwf. unfold first_winner.
  induction lines as [|line lines IH]; intros Hlines; [reflexivity|].
  destruct (Hlines line ltac:(left)) as [(i0 & rest & ->) Hin].
  cbn [winner_on find]. erewrite bind_lift by reflexivity.
  erewrite bind_Return by (apply cell_at_inside; [assumption|apply Hin; left]).
  erewrite bind_Return.
  2:{ apply (all_Return _ (fun i => String.eqb (cell_idx b i) (cell_idx b i0))).
      intros i Hi. erewrite bind_Return by (apply cell_at_inside; auto). reflexivity. }
  change (line_wonb b (i0 :: rest)) with
    (forallb (fun i => String.eqb (cell_idx b i) (cell_idx b i0)) (i0 :: rest)
     && negb (str_in (cell_idx b i0) [" "; "X?"; "O?"])).
  destruct (_ && _); [reflexivity|].
  apply IH. intros l Hl. apply Hlines. now right.
Qed.

Lemma wf_lines_shape b line :
  wf b -> 0 < size b -> line ∈ winning_lines b ->
  (exists i0 rest, line = i0 :: rest) /\ forall i, i ∈ line -> 0 <= i < size b ^ 2.
Proof.
  intros Hwf Hpos Hline. split.
  - rewrite wf_winning_lines in Hline by assumption.
    eapply grid_lines_nonempty; eauto.
  - intros i Hi. eapply wf_lines_inside; eauto.
Qed.

Lemma first_winner_Some b lines w :
  (forall line, line ∈ lines -> exists i0 rest, line = i0 :: rest) ->
  first_winner b lines = Some w ->
  exists line, line ∈ lines /\ line_won b line w.
Proof.
  intros Hne. unfold first_winner.
  destruct (find (line_wonb b) lines) as [line|] eqn:E; [|discriminate].
  intros [= <-]. apply find_some in E. destruct E as [Hin Hwon].
  apply list_elem_of_In in Hin. exists line. split; [assumption|].
  destruct (Hne line Hin) as (i0 & rest & ->).
  now apply (line_wonb_true b _ i0 rest eq_refl).
Qed.

Lemma first_winner_None b lines :
  (forall line, line ∈ lines -> exists i0 rest, line = i0 :: rest) ->
  (forall line w, line ∈ lines -> ~ line_won b line w) ->
  first_winner b lines = None.
Proof.
  intros Hne Hno. unfold first_winner.
  destruct (find (line_wonb b) lines) as [line|] eqn:E; [|reflexivity].
  apply find_some in E. destruct E as [Hin Hwon].
  apply list_elem_of_In in Hin. destruct (Hne line Hin) as (i0 & rest & ->).
  apply (line_wonb_true b _ i0 rest eq_refl) in Hwon.
  now apply Hno in Hwon.
Qed.

Lemma full_scan b :
  wf b ->
  all_ (fun i => let* c := cell_at i in ret (negb (str_in c [" "]))) (range (size b ^ 2)) b
  = (Return (fullb b), b).
Proof.
  intros Hwf. apply all_Return. intros i Hi. apply elem_of_range in Hi.
  erewrite bind_Return by (apply cell_at_inside; auto). reflexivity.
Qed.

Lemma fullb_true b : fullb b = true <-> forall i, 0 <= i < size b ^ 2 -> cell_idx b i <> " ".
Proof.
  unfold fullb, str_in. rewrite forallb_forall. cbn [existsb]. split.
  - intros H i Hi. specialize (H i ltac:(now apply list_elem_of_In, elem_of_range)).
    rewrite orb_false_r, negb_true_iff in H. now apply String.eqb_neq.
  - intros H i Hi. apply list_elem_of_In, elem_of_range in Hi.
    rewrite orb_false_r, negb_true_iff. now apply String.eqb_neq, H.
Qed.

Lemma check_win_Return b :
  wf b -> 0 < size b ->
  check_win b =
  (Return match first_winner b (winning_lines b) with
          | Some w => VStr w
          | None =>
              if fullb b
              then if entanglement_count b <=? 0 then VStr "Draw"
                   else VInt (entanglement_count b)
              else VNone
          end, b).
Proof.
  intros Hwf Hpos. unfold check_win. rewrite bind_self.
  rewrite (bind_Return _ _ _ _ _
             (winner_on_Return b (winning_lines b) Hwf
                (fun line => wf_lines_shape b line Hwf Hpos))).
  destruct (first_winner b (winning_lines b)); [reflexivity|].
  rewrite bind_self, (bind_Return _ _ _ _ _ (full_scan b Hwf)).
  destruct (fullb b); [|reflexivity].
  rewrite bind_self. destruct (entanglement_count b <=? 0); reflexivity.
Qed.

Lemma first_winner_None_inv b lines :
  (forall line, line ∈ lines -> exists i0 rest, line = i0 :: rest) ->
  first_winner b lines = None ->
  forall line w, line ∈ lines -> ~ line_won b line w.
Proof.
  intros Hne Hnone line w Hin Hwon. unfold first_winner in Hnone.
  destruct (find (line_wonb b) lines) as [l|] eqn:E; [discriminate|].
  apply list_elem_of_In in Hin. pose proof (find_none _ _ E line Hin) as Hf.
  apply list_elem_of_In in Hin. destruct (Hne line Hin) as (i0 & rest & ->).
  assert (cell_idx b i0 = w) as <- by (apply Hwon; left).
  apply (line_wonb_true b _ i0 rest eq_refl) in Hwon. congruence.
Qed.

(** C4: on a board whose cells hold cell states, whenever [check_win]
    reports a winner [w] (a string other than ["Draw"]), some winning line
    has [w] in every cell, no cell of that line is pending, and [w] is a
    classical mark; a line with a pending cell, even one of equal pending
    cells, is never what a reported winner rests on. *)
Theorem check_win_never_pending b w b' :
  wf b -> 0 < size b -> cells_valid b ->
  check_win b = (Return (VStr w), b') -> w <> "Draw" ->
  exists line,
    line ∈ winning_lines b
    /\ (forall i, i ∈ line -> cell_idx b i = w /\ pendingb (cell_idx b i) = false)
    /\ exists m, w = encode (Classical m).
Proof.
  intros Hwf Hpos Hvalid Hrun Hw. rewrite check_win_Return in Hrun by assumption.
  destruct (first_winner b (winning_lines b)) as [w'|] eqn:E.
  - injection Hrun as -> _.
    apply first_winner_Some in E.
    2:{ intros line Hline. now apply (wf_lines_shape b line Hwf Hpos). }
    destruct E as (line & Hline & Hall & H1 & H2 & H3).
    destruct (wf_lines_shape b line Hwf Hpos Hline) as [(i0 & rest & ->) Hin].
    destruct (Hvalid i0 (Hin i0 ltac:(left))) as [c Hc].
    rewrite (Hall i0 ltac:(left)) in Hc.
    assert (exists m, c = Classical m) as [m ->].
    { destruct c as [|m|[]]; cbn in Hc; [congruence|eauto|congruence|congruence]. }
    exists (i0 :: rest). split; [assumption|]. split; [|eauto].
    intros i Hi. rewrite (Hall i Hi). split; [reflexivity|].
    rewrite Hc. now destruct m.
  - destruct (fullb b); [|discriminate].
    destruct (entanglement_count b <=? 0); [|discriminate].
    injection Hrun as <- _. contradiction.
Qed.

(** C5: on a full board (no empty cell) where no winning line is complete,
    [check_win] returns ["Draw"] when the entanglement counter is 0 and the
    counter itself when it is positive; that integer is neither the string
    ["Draw"] nor [None]. *)
Theorem check_win_full_board b :
  wf b -> 0 < size b ->
  (forall line w, line ∈ winning_lines b -> ~ line_won b line w) ->
  (forall i, 0 <= i < size b ^ 2 -> cell_idx b i <> " ") ->
  (entanglement_count b = 0 -> check_win b = (Return (VStr "Draw"), b))
  /\ (0 < entanglement_count b ->
      check_win b = (Return (VInt (entanglement_count b)), b)
      /\ VInt (entanglement_count b) <> VStr "Draw"
      /\ VInt (entanglement_count b) <> VNone).
Proof.
  intros Hwf Hpos Hno Hfull.
  pose proof (check_win_Return b Hwf Hpos) as Hrun.
  rewrite first_winner_None in Hrun.
  2:{ intros line Hline. now apply (wf_lines_shape b line Hwf Hpos). }
  2:{ exact Hno. }
  rewrite (proj2 (fullb_true b) Hfull) in Hrun. split.
  - intros E. rewrite E in Hrun. exact Hrun.
  - intros Hc. destruct (Z.leb_spec (entanglement_count b) 0); [lia|].
    split; [exact Hrun|]. split; discriminate.
Qed.

(** ** Collapse resolution *)

Lemma string_get_inside s n :
  (n < String.length s)%nat -> exists c, String.get n s = Some c.
Proof.
  revert n. induction s as [|a s IH]; intros n Hn; cbn in Hn; [lia|].
  destruct n as [|n]; cbn; [eauto|]. apply IH. lia.
Qed.

Lemma str_getitem_inside s i :
  0 <= i < Z.of_nat (String.length s) ->
  exists c, str_getitem s i = Return c /\ String.get (Z.to_nat i) s = Some c.
Proof.
  intros Hi. destruct (string_get_inside s (Z.to_nat i) ltac:(lia)) as [c Hc].
  exists c. split; [|exact Hc]. unfold str_getitem.
  rewrite pos_inside by lia. cbn [res_bind]. now rewrite Hc.
Qed.

Lemma collapse_step_ok ms n k g i : grid_ok k g -> grid_ok k (collapse_step ms n g i).
Proof.
  intros Hg. unfold collapse_step. destruct (pendingb _); [|exact Hg].
  now apply grid_set_ok.
Qed.

Lemma collapse_loop ms b idxs :
  wf b -> (forall i, i ∈ idxs -> 0 <= i < size b ^ 2) ->
  size b ^ 2 <= Z.of_nat (String.length ms) ->
  for_ idxs (fun i =>
    let* b := self in
    let* rc := lift (divmod i (size b)) in
    let* c := get_cell (fst rc) (snd rc) in
    if endswith c "?" then
      let* bit := lift (str_getitem ms i) in
      set_cell (fst rc) (snd rc) (if Ascii.eqb bit "1" then "X" else "O")
    else ret tt) b
  = (Return tt, with_cells (fold_left (collapse_step ms (size b)) idxs (cells b)) b).
Proof.
  intros Hwf Hin Hlen. revert b Hwf Hin Hlen.
  induction idxs as [|i idxs IH]; intros b Hwf Hin Hlen.
  - destruct b. reflexivity.
  - cbn [for_ fold_left].
    assert (0 <= i < size b ^ 2) as Hi by (apply Hin; left).
    assert (0 < size b) as Hpos by (pose proof (wf_size b Hwf); nia).
    destruct (index_split _ _ Hpos Hi) as [Hr Hc].
    assert ((let* b0 := self in
             let* rc := lift (divmod i (size b0)) in
             let* c := get_cell (fst rc) (snd rc) in
             if endswith c "?" then
               let* bit := lift (str_getitem ms i) in
               set_cell (fst rc) (snd rc) (if Ascii.eqb bit "1" then "X" else "O")
             else ret tt) b
            = (Return tt, with_cells (collapse_step ms (size b) (cells b) i) b)) as Hstep.
    { rewrite bind_self. unfold divmod.
      destruct (Z.eqb_spec (size b) 0); [lia|].
      erewrite bind_lift by reflexivity. cbn [fst snd].
      erewrite bind_Return by (eapply get_cell_inside; [apply (wf_cells b Hwf)|lia|lia]).
      unfold collapse_step. fold (cell b (i / size b) (i mod size b)).
      unfold pendingb. destruct (endswith (cell b (i / size b) (i mod size b)) "?").
      - destruct (str_getitem_inside ms i ltac:(lia)) as (ch & Hget & Hch).
        erewrite bind_lift by exact Hget.
        erewrite set_cell_inside by (try apply (wf_cells b Hwf); lia).
        unfold resolved, bit_at. rewrite Hch. reflexivity.
      - destruct b. reflexivity. }
    rewrite (bind_Return _ _ _ _ _ Hstep).
    rewrite IH.
    + reflexivity.
    + apply wf_with_cells; [exact Hwf|]. apply collapse_step_ok, wf_cells, Hwf.
    + intros j Hj. apply Hin. now right.
    + exact Hlen.
Qed.

Lemma resolved_not_pending ms i : pendingb (resolved ms i) = false.
Proof. unfold resolved. now destruct (bit_at ms i). Qed.

Lemma grid_at_collapse_step ms n k g i j :
  grid_ok k g -> 0 < n -> n = Z.of_nat k -> 0 <= i < n ^ 2 -> 0 <= j < n ^ 2 ->
  grid_at (collapse_step ms n g i) (Z.to_nat (j / n)) (Z.to_nat (j mod n))
  = if bool_decide (j = i) && pendingb (grid_at g (Z.to_nat (j / n)) (Z.to_nat (j mod n)))
    then resolved ms j
    else grid_at g (Z.to_nat (j / n)) (Z.to_nat (j mod n)).
Proof.
  intros Hg Hn Hk Hi Hj. unfold collapse_step.
  destruct (index_split _ _ Hn Hi) as [Hir Hic].
  destruct (index_split _ _ Hn Hj) as [Hjr Hjc].
  destruct (bool_decide_reflect (j = i)) as [->|Hne]; cbn [andb].
  - destruct (pendingb _); [|reflexivity].
    eapply grid_at_set_eq; [exact Hg| |]; lia.
  - destruct (pendingb (grid_at g (Z.to_nat (i / n)) (Z.to_nat (i mod n)))); [|reflexivity].
    apply grid_at_set_ne. intros [= E1 E2]. apply Hne.
    rewrite (Z.div_mod i n), (Z.div_mod j n) by lia.
    assert (i / n = j / n) as -> by lia. assert (i mod n = j mod n) as -> by lia.
    reflexivity.
Qed.

Lemma grid_at_collapse ms n k idxs g j :
  grid_ok k g -> 0 < n -> n = Z.of_nat k ->
  (forall i, i ∈ idxs -> 0 <= i < n ^ 2) -> 0 <= j < n ^ 2 ->
  grid_at (fold_left (collapse_step ms n) idxs g) (Z.to_nat (j / n)) (Z.to_nat (j mod n))
  = if bool_decide (j ∈ idxs) && pendingb (grid_at g (Z.to_nat (j / n)) (Z.to_nat (j mod n)))
    then resolved ms j
    else grid_at g (Z.to_nat (j / n)) (Z.to_nat (j mod n)).
Proof.
  intros Hg Hn Hk Hin Hj. revert g Hg.
  induction idxs as [|i idxs IH]; intros g Hg; [reflexivity|].
  cbn [fold_left]. rewrite IH.
  2:{ intros i' Hi'. apply Hin. now right. }
  2:{ now apply collapse_step_ok. }
  rewrite (grid_at_collapse_step ms n k g i j) by (try assumption; apply Hin; left).
  destruct (bool_decide_reflect (j = i)) as [->|Hne]; cbn [andb].
  - rewrite (bool_decide_eq_true_2 (i ∈ i :: idxs)) by left. cbn [andb].
    destruct (pendingb (grid_at g _ _)) eqn:Ep.
    + rewrite resolved_not_pending, andb_false_r. reflexivity.
    + rewrite Ep, andb_false_r. reflexivity.
  - destruct (bool_decide_reflect (j ∈ idxs)) as [Hjin|Hjin]; cbn [andb].
    + rewrite (bool_decide_eq_true_2 (j ∈ i :: idxs)) by (now right). reflexivity.
    + rewrite (bool_decide_eq_false_2 (j ∈ i :: idxs)); [reflexivity|].
      intros H. apply elem_of_cons in H. tauto.
Qed.

(** ** The chosen outcome *)

Lemma max_from_first best rest :
  exists pre post,
    best :: rest = pre ++ max_from best rest :: post
    /\ (forall kv, kv ∈ pre -> snd kv < snd (max_from best rest))
    /\ (forall kv, kv ∈ post -> snd kv <= snd (max_from best rest)).
Proof.
  revert best. induction rest as [|kv rest IH]; intros best.
  - exists [], []. split; [reflexivity|]. split; intros ? H; inversion H.
  - cbn [max_from]. destruct (Z.ltb_spec (snd best) (snd kv)) as [Hlt|Hge].
    + destruct (IH kv) as (pre & post & E & Hpre & Hpost).
      exists (best :: pre), post. split; [cbn; now rewrite E|]. split; [|exact Hpost].
      intros x Hx. apply elem_of_cons in Hx. destruct Hx as [->|Hx]; [|now apply Hpre].
      destruct pre as [|p pre].
      * cbn in E. injection E as E _. rewrite <- E. exact Hlt.
      * cbn in E. injection E as E _. subst p.
        specialize (Hpre kv ltac:(left)). lia.
    + destruct (IH best) as (pre & post & E & Hpre & Hpost).
      destruct pre as [|p pre].
      * cbn in E. injection E as E1 E2.
        exists [], (kv :: post). split; [cbn; now rewrite <- E1, E2|].
        split; [intros ? H; inversion H|].
        intros x Hx. apply elem_of_cons in Hx. destruct Hx as [->|Hx]; [|now apply Hpost].
        rewrite <- E1. exact Hge.
      * cbn in E. injection E as E1 E2. subst p.
        exists (best :: kv :: pre), post. split; [cbn [app]; do 2 f_equal; exact E2|]. split; [|exact Hpost].
        intros x Hx. apply elem_of_cons in Hx. destruct Hx as [->|Hx]; [apply Hpre; left|].
        apply elem_of_cons in Hx. destruct Hx as [->|Hx]; [|apply Hpre; now right].
        specialize (Hpre best ltac:(left)). lia.
Qed.

Lemma max_key_first_max counts k : max_key counts = Return k -> first_max counts k.
Proof.
  destruct counts as [|kv rest]; [discriminate|]. cbn [max_key]. intros [= <-].
  destruct (max_from_first kv rest) as (pre & post & E & Hpre & Hpost).
  exists (snd (max_from kv rest)), pre, post.
  split; [|split; assumption]. now rewrite <- surjective_pairing.
Qed.

Lemma max_key_Return counts :
  counts <> [] -> exists k, max_key counts = Return k /\ first_max counts k.
Proof.
  intros Hne. destruct counts as [|kv rest]; [contradiction|].
  eexists. split; [reflexivity|]. now apply max_key_first_max.
Qed.

Lemma first_max_elem counts k : first_max counts k -> exists n, (k, n) ∈ counts.
Proof.
  intros (n & pre & post & -> & _). exists n. apply elem_of_app. right. left.
Qed.

Lemma length_list_ascii s : length (list_ascii_of_string s) = String.length s.
Proof. induction s as [|a s IH]; cbn; [reflexivity|]. now rewrite IH. Qed.

Lemma get_list_ascii s n : String.get n s = nth_error (list_ascii_of_string s) n.
Proof.
  revert n. induction s as [|a s IH]; intros [|n]; cbn; try reflexivity. apply IH.
Qed.

Lemma str_rev_length s : String.length (str_rev s) = String.length s.
Proof.
  unfold str_rev.
  rewrite <- length_list_ascii, list_ascii_of_string_of_list_ascii, length_rev.
  apply length_list_ascii.
Qed.

(** Character [i] of [s[::-1]] is character [len(s) - 1 - i] of [s]. *)
Lemma str_rev_get s i :
  (i < String.length s)%nat ->
  String.get i (str_rev s) = String.get (String.length s - 1 - i) s.
Proof.
  intros Hi. unfold str_rev.
  rewrite !get_list_ascii, list_ascii_of_string_of_list_ascii, nth_error_rev.
  rewrite length_list_ascii.
  destruct (Nat.ltb_spec i (String.length s)); [|lia].
  f_equal. lia.
Qed.

Lemma collapse_board_Return b counts ms :
  wf b -> max_state_of counts = Return ms ->
  size b ^ 2 <= Z.of_nat (String.length ms) ->
  collapse_board counts b = (Return counts, collapsed ms b).
Proof.
  intros Hwf Hms Hlen. unfold collapse_board, circuit_barrier, circuit_measure_all.
  erewrite bind_Return by (apply append_distinct, NoDup_nil_2).
  erewrite bind_Return by (apply append_distinct, NoDup_nil_2).
  erewrite bind_lift by exact Hms. rewrite bind_self.
  erewrite bind_Return.
  2:{ apply collapse_loop; [repeat apply wf_with_circuit; exact Hwf| |exact Hlen].
      intros i Hi. now apply elem_of_range in Hi. }
  unfold collapsed, modify, bind, ret, with_count, with_cells, with_circuit.
  cbn [size entanglement_count cells qubits circuit winning_lines].
  rewrite <- app_assoc. reflexivity.
Qed.

Lemma collapsed_cell ms b j :
  wf b -> 0 <= j < size b ^ 2 ->
  cell_idx (collapsed ms b) j
  = if pendingb (cell_idx b j) then resolved ms j else cell_idx b j.
Proof.
  intros Hwf Hj. assert (0 < size b) as Hpos by (pose proof (wf_size b Hwf); nia).
  unfold cell_idx, cell, collapsed. cbn [size cells].
  rewrite (grid_at_collapse ms (size b) (Z.to_nat (size b))); try assumption.
  - rewrite bool_decide_eq_true_2 by (now apply elem_of_range). reflexivity.
  - apply wf_cells, Hwf.
  - lia.
  - intros i Hi. now apply elem_of_range in Hi.
Qed.

Lemma max_state_of_Return b counts :
  counts_ok b counts ->
  exists k, first_max counts k /\ max_state_of counts = Return (str_rev k)
            /\ String.length (str_rev k) = Z.to_nat (size b ^ 2).
Proof.
  intros [Hne Hlen]. destruct (max_key_Return counts Hne) as (k & Hk & Hfirst).
  exists k. split; [exact Hfirst|]. split.
  - unfold max_state_of. now rewrite Hk.
  - destruct (first_max_elem _ _ Hfirst) as [n Hn].
    rewrite str_rev_length. eapply Hlen; eauto.
Qed.

(** C1: with the outcome bitstrings the simulator handed back (one
    character per cell), [collapse_board] returns without raising; it sets
    every pending cell to Classical X when the cell's bit of the chosen
    outcome is 1 and to Classical O otherwise, leaves every other cell
    (classical or empty) as it was, and sets the entanglement counter to 0.
    Nothing requires a pending cell to exist. *)
Theorem collapse_board_correct b counts :
  wf b -> counts_ok b counts ->
  exists max_state b',
    max_state_of counts = Return max_state
    /\ collapse_board counts b = (Return counts, b')
    /\ size b' = size b
    /\ entanglement_count b' = 0
    /\ forall i, 0 <= i < size b ^ 2 ->
         cell_idx b' i =
         if pendingb (cell_idx b i)
         then encode (Classical (if bit_at max_state i then X else O))
         else cell_idx b i.
Proof.
  intros Hwf Hcounts.
  destruct (max_state_of_Return b counts Hcounts) as (k & _ & Hms & Hlen).
  exists (str_rev k), (collapsed (str_rev k) b).
  split; [exact Hms|]. split.
  - apply collapse_board_Return; [assumption|assumption|]. rewrite Hlen.
    pose proof (Z.pow_nonneg (size b) 2 ltac:(apply wf_size, Hwf)). lia.
  - split; [reflexivity|]. split; [reflexivity|].
    intros i Hi. rewrite collapsed_cell by assumption.
    unfold resolved. now destruct (bit_at (str_rev k) i).
Qed.

(** C3, amended: the bits [collapse_board] commits come from the single
    outcome with the highest count in the returned distribution (the first
    such key in iteration order), read back to front, so that bit [i] of
    the string read is the bit the key carries for cell [i], counted from
    its right end; each pending cell [i] is resolved from that bit. *)
Theorem collapse_board_outcome b counts :
  wf b -> counts_ok b counts ->
  exists k b',
    first_max counts k
    /\ max_state_of counts = Return (str_rev k)
    /\ collapse_board counts b = (Return counts, b')
    /\ forall i, 0 <= i < size b ^ 2 ->
         bit_at (str_rev k) i = bit_at k (size b ^ 2 - 1 - i)
         /\ (pendingb (cell_idx b i) = true ->
             cell_idx b' i = if bit_at k (size b ^ 2 - 1 - i) then "X" else "O").
Proof.
  intros Hwf Hcounts.
  destruct (max_state_of_Return b counts Hcounts) as (k & Hfirst & Hms & Hlen).
  pose proof (Z.pow_nonneg (size b) 2 ltac:(apply wf_size, Hwf)) as Hsq.
  exists k, (collapsed (str_rev k) b).
  split; [exact Hfirst|]. split; [exact Hms|]. split.
  - apply collapse_board_Return; [assumption|assumption|]. rewrite Hlen. lia.
  - intros i Hi. rewrite str_rev_length in Hlen.
    assert (bit_at (str_rev k) i = bit_at k (size b ^ 2 - 1 - i)) as Hbit.
    { unfold bit_at. rewrite str_rev_get by lia.
      replace (Z.to_nat (size b ^ 2 - 1 - i)) with (String.length k - 1 - Z.to_nat i)%nat by lia.
      reflexivity. }
    split; [exact Hbit|]. intros Hp.
    rewrite collapsed_cell, Hp by assumption. unfold resolved. now rewrite Hbit.
Qed.

(** ** The claims on concrete boards *)

Lemma board3_init : init 3 = Return board3.
Proof. reflexivity. Qed.

Ltac wf_concrete :=
  split; [cbn; lia | split; [reflexivity | repeat constructor] | reflexivity | reflexivity].

Lemma board3_wf : wf board3.
Proof. exact (init_wf 3 board3 ltac:(lia) board3_init). Qed.

Lemma pending_board_wf : wf pending_board.
Proof. wf_concrete. Qed.

Lemma won_board_wf : wf won_board.
Proof. wf_concrete. Qed.

Lemma full_board_wf : wf full_board.
Proof. wf_concrete. Qed.

Lemma pending_board_reached :
  (make_entangled_move [(0, 0); (0, 1)] "X" ;;
   make_entangled_move [(1, 1); (1, 2); (2, 2)] "O" ;;
   make_entangled_move [(0, 2); (1, 0); (2, 0)] "X") board3
  = (Return true, pending_board).
Proof. reflexivity. Qed.

Lemma cells_validb_sound b : cells_validb b = true -> cells_valid b.
Proof.
  unfold cells_validb, cells_valid. rewrite forallb_forall. intros H i Hi.
  specialize (H i ltac:(now apply list_elem_of_In, elem_of_range)).
  unfold str_in in H. cbn [existsb] in H.
  repeat (apply orb_true_iff in H; destruct H as [H|H]); try discriminate;
    apply String.eqb_eq in H; rewrite H.
  - now exists Empty.
  - now exists (Classical X).
  - now exists (Classical O).
  - now exists (Pending X).
  - now exists (Pending O).
Qed.

Lemma counts_ok_counts2 b : size b = 3 -> counts_ok b counts2.
Proof.
  intros E. split; [discriminate|]. intros k n H. rewrite E.
  unfold counts2 in H. repeat (apply elem_of_cons in H; destruct H as [H|H]);
    try (injection H as -> ->; reflexivity).
  inversion H.
Qed.

Lemma collapse_board_correct_witness :
  wf pending_board /\ counts_ok pending_board counts2
  /\ exists max_state b',
       max_state_of counts2 = Return max_state
       /\ collapse_board counts2 pending_board = (Return counts2, b')
       /\ size b' = size pending_board
       /\ entanglement_count b' = 0
       /\ forall i, 0 <= i < size pending_board ^ 2 ->
            cell_idx b' i =
            if pendingb (cell_idx pending_board i)
            then encode (Classical (if bit_at max_state i then X else O))
            else cell_idx pending_board i.
Proof.
  split; [exact pending_board_wf|]. split; [now apply counts_ok_counts2|].
  apply (collapse_board_correct pending_board counts2).
  - exact pending_board_wf.
  - now apply counts_ok_counts2.
Defined.

Lemma can_be_collapsed_correct_witness :
  wf pending_board
  /\ exists t,
       can_be_collapsed pending_board = (Return t, pending_board)
       /\ (t = true <->
           3 <= entanglement_count pending_board
           /\ exists line, line ∈ winning_lines pending_board /\ line_pending pending_board line).
Proof.
  split; [exact pending_board_wf|].
  apply (can_be_collapsed_correct pending_board). exact pending_board_wf.
Defined.

Lemma collapse_board_outcome_witness :
  wf pending_board /\ counts_ok pending_board counts2
  /\ exists k b',
       first_max counts2 k
       /\ max_state_of counts2 = Return (str_rev k)
       /\ collapse_board counts2 pending_board = (Return counts2, b')
       /\ forall i, 0 <= i < size pending_board ^ 2 ->
            bit_at (str_rev k) i = bit_at k (size pending_board ^ 2 - 1 - i)
            /\ (pendingb (cell_idx pending_board i) = true ->
                cell_idx b' i = if bit_at k (size pending_board ^ 2 - 1 - i) then "X" else "O").
Proof.
  split; [exact pending_board_wf|]. split; [now apply counts_ok_counts2|].
  apply (collapse_board_outcome pending_board counts2).
  - exact pending_board_wf.
  - now apply counts_ok_counts2.
Defined.

(** C3 as stated fails: of four shots, one gave [000000000] and three gave
    [000000011]; an outcome drawn in proportion to these weights would be
    [000000000] for one draw in four, but the source commits [000000011]
    whatever the draw. *)
Lemma committed_outcome_not_proportional :
  ~ weight_proportional committed_outcome counts13.
Proof.
  intros H. specialize (H "000000000" 1 ltac:(left)).
  vm_compute in H. discriminate.
Qed.

Lemma check_win_never_pending_witness :
  wf won_board /\ 0 < size won_board /\ cells_valid won_board
  /\ check_win won_board = (Return (VStr "X"), won_board) /\ "X" <> "Draw"
  /\ exists line,
       line ∈ winning_lines won_board
       /\ (forall i, i ∈ line ->
             cell_idx won_board i = "X" /\ pendingb (cell_idx won_board i) = false)
       /\ exists m, "X" = encode (Classical m).
Proof.
  split; [exact won_board_wf|]. split; [reflexivity|].
  split; [apply cells_validb_sound; reflexivity|].
  split; [reflexivity|]. split; [discriminate|].
  apply (check_win_never_pending won_board "X" won_board).
  - exact won_board_wf.
  - reflexivity.
  - apply cells_validb_sound. reflexivity.
  - reflexivity.
  - discriminate.
Defined.

Lemma full_board_no_line line w :
  line ∈ winning_lines full_board -> ~ line_won full_board line w.
Proof.
  apply (first_winner_None_inv full_board (winning_lines full_board)).
  - intros l Hl. now apply (wf_lines_shape full_board l full_board_wf).
  - reflexivity.
Qed.

Lemma check_win_full_board_witness :
  wf full_board /\ 0 < size full_board
  /\ check_win full_board = (Return (VInt 1), full_board).
Proof.
  split; [exact full_board_wf|]. split; [reflexivity|].
  apply (check_win_full_board full_board).
  - exact full_board_wf.
  - reflexivity.
  - exact full_board_no_line.
  - apply fullb_true. reflexivity.
  - reflexivity.
Defined.

Lemma make_entangled_move_effect_witness :
  wf board3
  /\ exists b',
       make_entangled_move [(0, 0); (0, 1)] "X" board3 = (Return true, b')
       /\ (forall p, p ∈ [(0, 0); (0, 1)] -> cell b' (fst p) (snd p) = "X?")
       /\ (forall r c, 0 <= r -> 0 <= c -> (r, c) ∉ [(0, 0); (0, 1)] ->
             cell b' r c = cell board3 r c)
       /\ entanglement_count b' = entanglement_count board3 + 1.
Proof.
  split; [exact board3_wf|].
  apply (make_entangled_move_effect board3 [(0, 0); (0, 1)] "X").
  - exact board3_wf.
  - repeat (constructor; [split; cbn; lia|]). constructor.
  - left. reflexivity.
  - apply NoDup_cons. split; [|apply NoDup_singleton].
    rewrite list_elem_of_singleton. discriminate.
  - repeat (constructor; [reflexivity|]). constructor.
Defined.

Lemma make_entangled_move_outcome_witness :
  wf board3
  /\ make_entangled_move [(1, 1)] "X" board3 = (Return false, board3)
  /\ exists ok b',
       make_entangled_move [(0, 0); (0, 0)] "O" board3 = (Return ok, b')
       /\ (ok = false <->
           (length [(0, 0); (0, 0)] <> 2%nat /\ length [(0, 0); (0, 0)] <> 3%nat)
           \/ ~ Forall (empty_at board3) [(0, 0); (0, 0)]
           \/ ~ NoDup [(0, 0); (0, 0)])
       /\ (ok = false -> b' = board3).
Proof.
  split; [exact board3_wf|]. split.
  - apply (proj1 (make_entangled_move_outcome board3 [(1, 1)] "X" board3_wf)).
    cbn [length]. lia.
  - apply (proj2 (make_entangled_move_outcome board3 [(0, 0); (0, 0)] "O" board3_wf)).
    repeat (constructor; [split; cbn; lia|]). constructor.
Defined.

Lemma make_classical_move_correct_witness :
  wf board3
  /\ exists ok b',
       make_classical_move 1 1 "X" board3 = (Return ok, b')
       /\ (ok = true <-> cell board3 1 1 = " ")
       /\ (ok = true ->
           cell b' 1 1 = "X"
           /\ (forall r c, 0 <= r -> 0 <= c -> (r, c) <> (1, 1) -> cell b' r c = cell board3 r c)
           /\ entanglement_count b' = entanglement_count board3)
       /\ (ok = false -> b' = board3).
Proof.
  split; [exact board3_wf|].
  apply (make_classical_move_correct board3 1 1 "X").
  - exact board3_wf.
  - cbn. lia.
  - cbn. lia.
Defined.

(** C9 as stated fails: on a fresh 3 by 3 board a classical move on row 3
    does not hand back a failure value, it raises. *)
Lemma out_of_range_not_recovered :
  ~ recovered (make_classical_move 3 0 "X") board3.
Proof. intros [v H]. vm_compute in H. discriminate. Qed.

Lemma out_of_range_moves_witness :
  wf board3
  /\ make_classical_move 0 3 "O" board3 = (Raise IndexError, board3)
  /\ (make_swap_move 0 0 7 0 board3 = (Raise IndexError, board3)
      \/ make_swap_move 0 0 7 0 board3 = (Return false, board3)).
Proof.
  split; [exact board3_wf|].
  destruct (out_of_range_moves board3 "O" board3_wf) as (Hc & Hs & _). split.
  - apply Hc. unfold outside. cbn. lia.
  - apply Hs. right. unfold outside. cbn. lia.
Defined.

(** ** Invariants of the methods *)

Section Triples.

Variable I : Board -> Prop.

Lemma triple_ret {A} (a : A) : triple I (ret a) (fun _ => True).
Proof. intros b Hb. split; [exact Hb|trivial]. Qed.

Lemma triple_lift {A} (r : res A) : triple I (lift r) (fun _ => True).
Proof. intros b Hb. split; [exact Hb|trivial]. Qed.

Lemma triple_self : triple I self I.
Proof. intros b Hb. split; [exact Hb|]. cbn. now intros a [= <-]. Qed.

Lemma triple_weaken {A} (m : M A) (Q Q' : A -> Prop) :
  triple I m Q -> (forall a, Q a -> Q' a) -> triple I m Q'.
Proof. intros H HQ b Hb. destruct (H b Hb) as [H1 H2]. split; auto. Qed.

Lemma triple_bind {A B} (m : M A) (k : A -> M B) (Q : A -> Prop) (R : B -> Prop) :
  triple I m Q -> (forall a, Q a -> triple I (k a) R) -> triple I (bind m k) R.
Proof.
  intros Hm Hk b Hb. destruct (Hm b Hb) as [H1 H2]. unfold bind.
  destruct (m b) as [[a|e] b1]; cbn [fst snd] in *.
  - apply Hk; auto.
  - split; [exact H1|discriminate].
Qed.

Lemma triple_for {A} (l : list A) (body : A -> M unit) :
  (forall x, triple I (body x) (fun _ => True)) -> triple I (for_ l body) (fun _ => True).
Proof.
  intros H. induction l as [|x l IH]; cbn [for_]; [apply triple_ret|].
  eapply triple_bind; [apply H|]. intros _ _. exact IH.
Qed.

Lemma triple_all {A} (f : A -> M bool) (l : list A) :
  (forall x, triple I (f x) (fun _ => True)) -> triple I (all_ f l) (fun _ => True).
Proof.
  intros H. induction l as [|x l IH]; cbn [all_]; [apply triple_ret|].
  eapply triple_bind; [apply H|]. intros [] _; [exact IH|apply triple_ret].
Qed.

Lemma triple_any {A} (f : A -> M bool) (l : list A) :
  (forall x, triple I (f x) (fun _ => True)) -> triple I (any_ f l) (fun _ => True).
Proof.
  intros H. induction l as [|x l IH]; cbn [any_]; [apply triple_ret|].
  eapply triple_bind; [apply H|]. intros [] _; [apply triple_ret|exact IH].
Qed.

End Triples.

Lemma getitem_elem {A} (l : list A) i x : getitem l i = Return x -> x ∈ l.
Proof.
  unfold getitem. destruct (pos (length l) i) as [n|]; [|discriminate]. cbn [res_bind].
  destruct (l !! n) eqn:E; [|discriminate]. intros [= <-].
  apply list_elem_of_lookup. eauto.
Qed.

(** The methods keep every property [I] of the board that survives a write
    of a string satisfying [P] into a cell, an extension of the circuit
    and a change of the counter, provided the cells of a board with [I]
    satisfy [P]. *)
Section Methods.

Variable I : Board -> Prop.
Variable P : string -> Prop.

Hypothesis I_read : forall b r s, I b -> r ∈ cells b -> s ∈ r -> P s.
Hypothesis I_write : forall b n r k v,
  I b -> cells b !! n = Some r -> P v -> I (with_cells (<[n := <[k := v]> r]> (cells b)) b).
Hypothesis I_circuit : forall b c, I b -> I (with_circuit c b).
Hypothesis I_count : forall b n, I b -> I (with_count n b).
Hypothesis P_X : P "X".
Hypothesis P_O : P "O".

Lemma triple_get_cell row col : triple I (get_cell row col) P.
Proof.
  intros b Hb. split; [exact Hb|]. cbn [fst get_cell]. intros s Hs.
  destruct (getitem (cells b) row) as [r|] eqn:E; [|discriminate]. cbn [res_bind] in Hs.
  apply getitem_elem in E, Hs. eauto.
Qed.

Lemma triple_cell_at i : triple I (cell_at i) P.
Proof.
  intros b Hb. split; [exact Hb|]. cbn [fst cell_at]. intros s Hs.
  destruct (floordiv i (size b)) as [row|]; [|discriminate]. cbn [res_bind] in Hs.
  destruct (getitem (cells b) row) as [r|] eqn:E; [|discriminate]. cbn [res_bind] in Hs.
  destruct (modulo i (size b)) as [col|]; [|discriminate]. cbn [res_bind] in Hs.
  apply getitem_elem in E, Hs. eauto.
Qed.

Lemma triple_set_cell row col v : P v -> triple I (set_cell row col v) (fun _ => True).
Proof.
  intros Hv b Hb. split; [|trivial]. unfold set_cell.
  destruct (pos (length (cells b)) row) as [n|]; [|exact Hb].
  destruct (cells b !! n) as [r|] eqn:E; [|exact Hb].
  unfold setitem. destruct (pos (length r) col) as [k|]; [|exact Hb].
  cbn [res_bind snd]. now apply I_write.
Qed.

Lemma triple_qubit index : triple I (qubit index) (fun _ => True).
Proof. intros b Hb. split; [exact Hb|trivial]. Qed.

Lemma triple_append g qargs : triple I (append g qargs) (fun _ => True).
Proof.
  intros b Hb. split; [|trivial]. unfold append.
  destruct (bool_decide (NoDup qargs)); [|exact Hb]. now apply I_circuit.
Qed.

Lemma triple_modify_count (f : Board -> Z) :
  triple I (modify (fun b => with_count (f b) b)) (fun _ => True).
Proof. intros b Hb. split; [|trivial]. now apply I_count. Qed.

Lemma P_resolved (bit : bool) : P (if bit then "X" else "O").
Proof. now destruct bit. Qed.

Ltac triple_prim :=
  first [ apply triple_ret | apply triple_lift | apply triple_self
        | apply triple_get_cell | apply triple_cell_at | apply triple_qubit
        | apply triple_append | apply triple_modify_count
        | apply (triple_modify_count (fun _ => 0))
        | apply triple_set_cell; first [assumption | apply P_resolved] ].

Ltac triple_step :=
  match goal with
  | |- triple _ (bind _ _) _ =>
      first [ eapply triple_bind; [solve [triple_prim] | intros ? ?]
            | apply triple_bind with (Q := fun _ => True); [|intros ? _] ]
  | |- triple _ (if ?c then _ else _) _ => destruct c
  | |- triple _ (for_ _ _) _ => apply triple_for; intros ?
  | |- triple _ (all_ _ _) _ => apply triple_all; intros ?
  | |- triple _ (any_ _ _) _ => apply triple_any; intros ?
  | |- triple _ _ _ => solve [eapply triple_weaken; [triple_prim | trivial]]
  end.

Lemma make_classical_move_keeps row col player_mark :
  P player_mark -> triple I (make_classical_move row col player_mark) (fun _ => True).
Proof.
  intros Hmark. unfold make_classical_move, circuit_x, circuit_id. repeat triple_step.
Qed.

Lemma make_swap_move_keeps row1 col1 row2 col2 :
  triple I (make_swap_move row1 col1 row2 col2) (fun _ => True).
Proof.
  unfold make_swap_move, circuit_swap. repeat triple_step.
Qed.

Lemma make_entangled_move_keeps positions player_mark :
  P (String.append player_mark "?") ->
  triple I (make_entangled_move positions player_mark) (fun _ => True).
Proof.
  intros Hmark.
  unfold make_entangled_move, circuit_h, circuit_cx, circuit_ccx. repeat triple_step.
Qed.

Lemma can_be_collapsed_keeps : triple I can_be_collapsed (fun _ => True).
Proof.
  unfold can_be_collapsed. eapply triple_bind; [apply triple_self|]. intros b _.
  destruct (3 <=? entanglement_count b); [|apply triple_ret].
  induction (winning_lines b) as [|line lines IH]; cbn [some_line_pending];
    repeat triple_step. exact IH.
Qed.

Lemma collapse_board_keeps counts : triple I (collapse_board counts) (fun _ => True).
Proof.
  unfold collapse_board, circuit_barrier, circuit_measure_all. repeat triple_step.
Qed.

Lemma check_win_keeps : triple I check_win (fun _ => True).
Proof.
  unfold check_win. eapply triple_bind; [apply triple_self|]. intros b _.
  apply triple_bind with (Q := fun _ => True).
  - induction (winning_lines b) as [|line lines IH]; cbn [winner_on];
      repeat triple_step. exact IH.
  - intros [w|] _; repeat triple_step.
Qed.

End Methods.

(** *** Well-formedness and valid cells *)

Lemma Inv_read b r s : Inv b -> r ∈ cells b -> s ∈ r -> valid_str s.
Proof.
  intros [_ Hv] Hr Hs. rewrite Forall_forall in Hv. specialize (Hv r Hr).
  rewrite Forall_forall in Hv. auto.
Qed.

Lemma Inv_write b n r k v :
  Inv b -> cells b !! n = Some r -> valid_str v ->
  Inv (with_cells (<[n := <[k := v]> r]> (cells b)) b).
Proof.
  intros [Hwf Hval] E Hv. split.
  - apply wf_with_cells; [exact Hwf|]. destruct (wf_cells b Hwf) as [Hl Hrows]. split.
    + now rewrite length_insert.
    + apply Forall_insert; [exact Hrows|]. rewrite length_insert.
      rewrite Forall_forall in Hrows. apply Hrows, list_elem_of_lookup. eauto.
  - cbn [cells with_cells]. apply Forall_insert; [exact Hval|].
    apply Forall_insert; [|exact Hv].
    rewrite Forall_forall in Hval. apply Hval, list_elem_of_lookup. eauto.
Qed.

Lemma Inv_with_circuit b c : Inv b -> Inv (with_circuit c b).
Proof. intros [H1 H2]. split; [now apply wf_with_circuit|exact H2]. Qed.

Lemma Inv_with_count b n : Inv b -> Inv (with_count n b).
Proof. intros [H1 H2]. split; [now apply wf_with_count|exact H2]. Qed.

Lemma valid_mark_str m : valid_str (mark_str m).
Proof. now exists (Classical m). Qed.

Lemma valid_pending_str m : valid_str (String.append (mark_str m) "?").
Proof. now exists (Pending m). Qed.

Lemma init_Inv n b : 0 <= n -> init n = Return b -> Inv b.
Proof.
  intros Hn Hinit. split; [eapply init_wf; eauto|].
  unfold init in Hinit. destruct (init_winning_lines n); [|discriminate].
  cbn [res_bind] in Hinit. injection Hinit as <-. cbn [cells].
  rewrite Forall_forall. intros row Hrow. apply list_elem_of_fmap in Hrow.
  destruct Hrow as (i & -> & _). rewrite Forall_forall. intros s Hs.
  apply list_elem_of_fmap in Hs. destruct Hs as (j & -> & _). now exists Empty.
Qed.

(** Played with the marks X and O, every method leaves a well-formed board
    with valid cells well-formed with valid cells, whether it returns or
    raises. *)
Lemma methods_keep_Inv (m : mark) :
  (forall row col, triple Inv (make_classical_move row col (mark_str m)) (fun _ => True))
  /\ (forall row1 col1 row2 col2,
        triple Inv (make_swap_move row1 col1 row2 col2) (fun _ => True))
  /\ (forall positions,
        triple Inv (make_entangled_move positions (mark_str m)) (fun _ => True))
  /\ triple Inv can_be_collapsed (fun _ => True)
  /\ (forall counts, triple Inv (collapse_board counts) (fun _ => True))
  /\ triple Inv check_win (fun _ => True).
Proof.
  pose proof (valid_mark_str X) as HX. pose proof (valid_mark_str O) as HO.
  cbn [mark_str] in HX, HO.
  pose proof (valid_mark_str m) as Hm. pose proof (valid_pending_str m) as Hp.
  split; [|split; [|split; [|split; [|split]]]]; intros.
  - eapply (make_classical_move_keeps Inv valid_str);
      eauto using Inv_read, Inv_write, Inv_with_circuit, Inv_with_count.
  - eapply (make_swap_move_keeps Inv valid_str);
      eauto using Inv_read, Inv_write, Inv_with_circuit, Inv_with_count.
  - eapply (make_entangled_move_keeps Inv valid_str);
      eauto using Inv_read, Inv_write, Inv_with_circuit, Inv_with_count.
  - eapply (can_be_collapsed_keeps Inv valid_str);
      eauto using Inv_read, Inv_write, Inv_with_circuit, Inv_with_count.
  - eapply (collapse_board_keeps Inv valid_str);
      eauto using Inv_read, Inv_write, Inv_with_circuit, Inv_with_count.
  - eapply (check_win_keeps Inv valid_str);
      eauto using Inv_read, Inv_write, Inv_with_circuit, Inv_with_count.
Qed.

Lemma Inv_cells_valid b : Inv b -> cells_valid b.
Proof.
  intros HI i Hi. pose proof (cell_at_inside b i (inv_wf b HI) Hi) as Hcell.
  destruct (triple_cell_at Inv valid_str Inv_read i b HI) as [_ H].
  apply H. now rewrite Hcell.
Qed.

(** *** What no method changes *)

(** No method assigns [size], [qubits] or [winning_lines]: whatever the
    arguments and whether the call returns or raises, they are afterwards
    what they were. *)
Lemma methods_keep_frame b0 player_mark :
  (forall row col,
     triple (same_frame b0) (make_classical_move row col player_mark) (fun _ => True))
  /\ (forall row1 col1 row2 col2,
        triple (same_frame b0) (make_swap_move row1 col1 row2 col2) (fun _ => True))
  /\ (forall positions,
        triple (same_frame b0) (make_entangled_move positions player_mark) (fun _ => True))
  /\ triple (same_frame b0) can_be_collapsed (fun _ => True)
  /\ (forall counts, triple (same_frame b0) (collapse_board counts) (fun _ => True))
  /\ triple (same_frame b0) check_win (fun _ => True).
Proof.
  split; [|split; [|split; [|split; [|split]]]]; intros.
  - eapply (make_classical_move_keeps (same_frame b0) (fun _ => True)); trivial.
  - eapply (make_swap_move_keeps (same_frame b0) (fun _ => True)); trivial.
  - eapply (make_entangled_move_keeps (same_frame b0) (fun _ => True)); trivial.
  - eapply (can_be_collapsed_keeps (same_frame b0) (fun _ => True)); trivial.
  - eapply (collapse_board_keeps (same_frame b0) (fun _ => True)); trivial.
  - eapply (check_win_keeps (same_frame b0) (fun _ => True)); trivial.
Qed.

Lemma winning_lines_fixed {A} (m : M A) b :
  triple (same_frame b) m (fun _ => True) ->
  winning_lines (snd (m b)) = winning_lines b /\ size (snd (m b)) = size b.
Proof.
  intros H. destruct (H b) as [(Hs & _ & Hl) _]; [repeat split|]. now split.
Qed.

(** * Further properties *)

(** ** Swap moves *)

Lemma make_swap_move_success b row1 col1 row2 col2 :
  wf b -> inside b (row1, col1) -> inside b (row2, col2) ->
  (row1, col1) <> (row2, col2) ->
  cell b row1 col1 <> " " -> cell b row2 col2 <> " " ->
  make_swap_move row1 col1 row2 col2 b
  = (Return true, swapped b (row1, col1) (row2, col2)).
Proof.
  intros Hwf H1 H2 Hne Ho1 Ho2. pose proof H1 as [Hr1 Hc1]. pose proof H2 as [Hr2 Hc2].
  cbn [fst snd] in *. unfold make_swap_move.
  pose proof (wf_cells b Hwf) as Hg.
  erewrite bind_Return by (eapply get_cell_inside; [exact Hg|lia|lia]).
  rewrite (string_eqb_false _ _ Ho1). cbn [negb].
  erewrite bind_Return.
  2:{ erewrite bind_Return by (eapply get_cell_inside; [exact Hg|lia|lia]). reflexivity. }
  rewrite (string_eqb_false _ _ Ho2). cbn [negb].
  rewrite bind_self.
  erewrite bind_lift by reflexivity.
  erewrite bind_Return by (apply qubit_inside; [exact Hwf|apply (qubit_of_inside b (row1, col1) H1)]).
  erewrite bind_lift by reflexivity.
  erewrite bind_Return by (apply qubit_inside; [exact Hwf|apply (qubit_of_inside b (row2, col2) H2)]).
  erewrite bind_Return.
  2:{ apply append_distinct. apply NoDup_cons. split; [|apply NoDup_singleton].
      rewrite list_elem_of_singleton. apply (qubit_of_inj b (row1, col1) (row2, col2)); assumption. }
  set (b1 := with_circuit _ b).
  assert (grid_ok (Z.to_nat (size b)) (cells b1)) as Hg1 by exact Hg.
  erewrite bind_Return by (eapply get_cell_inside; [exact Hg1|lia|lia]).
  erewrite bind_Return by (eapply get_cell_inside; [exact Hg1|lia|lia]).
  erewrite bind_Return by (eapply set_cell_inside; [exact Hg1|lia|lia]).
  erewrite bind_Return.
  2:{ eapply (set_cell_inside (Z.to_nat (size b))); [|lia|lia].
      cbn [cells with_cells]. apply grid_set_ok, Hg1. }
  reflexivity.
Qed.

Lemma make_swap_move_same b row col :
  wf b -> inside b (row, col) -> cell b row col <> " " ->
  make_swap_move row col row col b = (Raise CircuitError, b).
Proof.
  intros Hwf H1 Ho. pose proof H1 as [Hr Hc]. cbn [fst snd] in *.
  unfold make_swap_move. pose proof (wf_cells b Hwf) as Hg.
  erewrite bind_Return by (eapply get_cell_inside; [exact Hg|lia|lia]).
  rewrite (string_eqb_false _ _ Ho). cbn [negb].
  erewrite bind_Return.
  2:{ erewrite bind_Return by (eapply get_cell_inside; [exact Hg|lia|lia]). reflexivity. }
  rewrite (string_eqb_false _ _ Ho). cbn [negb].
  rewrite bind_self.
  erewrite bind_lift by reflexivity.
  erewrite bind_Return by (apply qubit_inside; [exact Hwf|apply (qubit_of_inside b (row, col) H1)]).
  erewrite bind_lift by reflexivity.
  erewrite bind_Return by (apply qubit_inside; [exact Hwf|apply (qubit_of_inside b (row, col) H1)]).
  apply bind_Raise. unfold circuit_swap, append.
  rewrite bool_decide_eq_false_2; [reflexivity|].
  intros Hnd. apply NoDup_cons in Hnd. destruct Hnd as [Hnot _]. apply Hnot. left.
Qed.

Lemma make_swap_move_empty b row1 col1 row2 col2 :
  wf b -> inside b (row1, col1) -> inside b (row2, col2) ->
  cell b row1 col1 = " " \/ cell b row2 col2 = " " ->
  make_swap_move row1 col1 row2 col2 b = (Return false, b).
Proof.
  intros Hwf [Hr1 Hc1] [Hr2 Hc2] He. cbn [fst snd] in *.
  unfold make_swap_move. pose proof (wf_cells b Hwf) as Hg.
  erewrite bind_Return by (eapply get_cell_inside; [exact Hg|lia|lia]).
  destruct (String.eqb_spec (cell b row1 col1) " ") as [E1|N1]; cbn [negb].
  - erewrite bind_Return by reflexivity. reflexivity.
  - destruct He as [He|He]; [contradiction|].
    erewrite bind_Return.
    2:{ erewrite bind_Return by (eapply get_cell_inside; [exact Hg|lia|lia]). reflexivity. }
    rewrite He. reflexivity.
Qed.

Lemma swapped_cell_first b p1 p2 :
  wf b -> inside b p1 -> inside b p2 -> p1 <> p2 ->
  cell (swapped b p1 p2) (fst p1) (snd p1) = cell b (fst p2) (snd p2).
Proof.
  intros Hwf [Hr1 Hc1] [Hr2 Hc2] Hne. unfold cell at 1, swapped. cbn [cells].
  rewrite grid_at_set_ne.
  - eapply grid_at_set_eq; [apply (wf_cells b Hwf)| |]; lia.
  - intros [= E1 E2]. apply Hne. destruct p1, p2. cbn [fst snd] in *. f_equal; lia.
Qed.

Lemma swapped_cell_second b p1 p2 :
  wf b -> inside b p1 -> inside b p2 ->
  cell (swapped b p1 p2) (fst p2) (snd p2) = cell b (fst p1) (snd p1).
Proof.
  intros Hwf [Hr1 Hc1] [Hr2 Hc2]. unfold cell at 1, swapped. cbn [cells].
  eapply grid_at_set_eq; [apply grid_set_ok, (wf_cells b Hwf)| |]; lia.
Qed.

Lemma swapped_cell_other b p1 p2 r c :
  0 <= fst p1 -> 0 <= snd p1 -> 0 <= fst p2 -> 0 <= snd p2 -> 0 <= r -> 0 <= c ->
  (r, c) <> p1 -> (r, c) <> p2 ->
  cell (swapped b p1 p2) r c = cell b r c.
Proof.
  intros H1 H2 H3 H4 Hr Hc N1 N2. unfold cell, swapped. cbn [cells].
  rewrite !grid_at_set_ne; [reflexivity| |].
  - intros [= E1 E2]. apply N1. destruct p1. cbn [fst snd] in *. f_equal; lia.
  - intros [= E1 E2]. apply N2. destruct p2. cbn [fst snd] in *. f_equal; lia.
Qed.

Lemma swapped_wf b p1 p2 : wf b -> wf (swapped b p1 p2).
Proof.
  intros [H1 H2 H3 H4]. split; cbn [size cells qubits winning_lines swapped]; try assumption.
  now apply grid_set_ok, grid_set_ok.
Qed.

(** X1: a swap of two different cells of the board that are both occupied
    returns [True]; afterwards each of the two cells holds what the other
    held (pending tags included), every other cell and the entanglement
    counter are as before, and one swap gate on the two cells' qubits has
    been appended to the circuit. *)
Theorem make_swap_move_effect b row1 col1 row2 col2 :
  wf b -> inside b (row1, col1) -> inside b (row2, col2) ->
  (row1, col1) <> (row2, col2) ->
  cell b row1 col1 <> " " -> cell b row2 col2 <> " " ->
  exists b',
    make_swap_move row1 col1 row2 col2 b = (Return true, b')
    /\ cell b' row1 col1 = cell b row2 col2
    /\ cell b' row2 col2 = cell b row1 col1
    /\ (forall r c, 0 <= r -> 0 <= c -> (r, c) <> (row1, col1) -> (r, c) <> (row2, col2) ->
          cell b' r c = cell b r c)
    /\ entanglement_count b' = entanglement_count b
    /\ circuit b' = circuit b ++ [Gswap (Z.to_nat (row1 * size b + col1))
                                        (Z.to_nat (row2 * size b + col2))].
Proof.
  intros Hwf H1 H2 Hne Ho1 Ho2. exists (swapped b (row1, col1) (row2, col2)).
  split; [now apply make_swap_move_success|]. split; [|split; [|split; [|split]]].
  - now apply (swapped_cell_first b (row1, col1) (row2, col2)).
  - now apply (swapped_cell_second b (row1, col1) (row2, col2)).
  - intros r c Hr Hc N1 N2. destruct H1 as [[? ?] [? ?]], H2 as [[? ?] [? ?]].
    now apply swapped_cell_other.
  - reflexivity.
  - reflexivity.
Qed.

(** X2: a swap that names an empty cell of the board returns [False] and
    changes nothing, whichever of the two cells is the empty one. *)
Theorem make_swap_move_refused b row1 col1 row2 col2 :
  wf b -> inside b (row1, col1) -> inside b (row2, col2) ->
  cell b row1 col1 = " " \/ cell b row2 col2 = " " ->
  make_swap_move row1 col1 row2 col2 b = (Return false, b).
Proof. exact (make_swap_move_empty b row1 col1 row2 col2). Qed.

(** X3: swapping the same two cells twice in a row puts every cell back:
    the second swap succeeds too, and afterwards all cells and the
    entanglement counter are what they were before the first. *)
Theorem make_swap_move_twice b row1 col1 row2 col2 :
  wf b -> inside b (row1, col1) -> inside b (row2, col2) ->
  (row1, col1) <> (row2, col2) ->
  cell b row1 col1 <> " " -> cell b row2 col2 <> " " ->
  exists b2,
    (make_swap_move row1 col1 row2 col2 ;; make_swap_move row1 col1 row2 col2) b
    = (Return true, b2)
    /\ (forall r c, 0 <= r -> 0 <= c -> cell b2 r c = cell b r c)
    /\ entanglement_count b2 = entanglement_count b.
Proof.
  intros Hwf H1 H2 Hne Ho1 Ho2.
  set (b1 := swapped b (row1, col1) (row2, col2)).
  assert (wf b1) as Hwf1 by now apply swapped_wf.
  pose proof (swapped_cell_first b _ _ Hwf H1 H2 Hne) as E1.
  pose proof (swapped_cell_second b _ _ Hwf H1 H2) as E2.
  pose proof (swapped_cell_first b1 _ _ Hwf1 H1 H2 Hne) as F1.
  pose proof (swapped_cell_second b1 _ _ Hwf1 H1 H2) as F2.
  cbn [fst snd] in E1, E2, F1, F2. fold b1 in E1, E2.
  exists (swapped b1 (row1, col1) (row2, col2)). split; [|split].
  - rewrite (bind_Return _ _ _ _ _ (make_swap_move_success b _ _ _ _ Hwf H1 H2 Hne Ho1 Ho2)).
    apply make_swap_move_success; try assumption; congruence.
  - intros r c Hr Hc.
    destruct (decide ((r, c) = (row1, col1))) as [E|N1].
    { injection E as -> ->. congruence. }
    destruct (decide ((r, c) = (row2, col2))) as [E|N2].
    { injection E as -> ->. congruence. }
    destruct H1 as [[? ?] [? ?]], H2 as [[? ?] [? ?]].
    rewrite (swapped_cell_other b1 (row1, col1) (row2, col2)) by assumption.
    now apply swapped_cell_other.
  - reflexivity.
Qed.

(** X4: whatever a swap over cells of the board does (succeed, refuse or
    raise), it never changes which cells are occupied, nor the
    entanglement counter. *)
Theorem make_swap_move_keeps_occupancy b row1 col1 row2 col2 :
  wf b -> inside b (row1, col1) -> inside b (row2, col2) ->
  let b' := snd (make_swap_move row1 col1 row2 col2 b) in
  (forall r c, 0 <= r -> 0 <= c -> (cell b' r c = " " <-> cell b r c = " "))
  /\ entanglement_count b' = entanglement_count b.
Proof.
  intros Hwf H1 H2. cbn zeta.
  destruct (string_dec (cell b row1 col1) " ") as [E1|N1];
    [rewrite make_swap_move_empty by (try assumption; now left); now split|].
  destruct (string_dec (cell b row2 col2) " ") as [E2|N2];
    [rewrite make_swap_move_empty by (try assumption; now right); now split|].
  destruct (decide ((row1, col1) = (row2, col2))) as [E|Hne].
  - injection E as <- <-. rewrite make_swap_move_same by assumption. now split.
  - rewrite make_swap_move_success by assumption. cbn [snd]. split; [|reflexivity].
    pose proof (swapped_cell_first b _ _ Hwf H1 H2 Hne) as E1.
    pose proof (swapped_cell_second b _ _ Hwf H1 H2) as E2.
    cbn [fst snd] in E1, E2.
    intros r c Hr Hc.
    destruct (decide ((r, c) = (row1, col1))) as [E|N3].
    { injection E as -> ->. rewrite E1. tauto. }
    destruct (decide ((r, c) = (row2, col2))) as [E|N4].
    { injection E as -> ->. rewrite E2. tauto. }
    destruct H1 as [[? ?] [? ?]], H2 as [[? ?] [? ?]].
    now rewrite swapped_cell_other.
Qed.

(** ** Moves with arbitrary arguments *)

Lemma pos_exn len i e : pos len i = Raise e -> e = IndexError.
Proof.
  unfold pos. repeat destruct (_ && _); try discriminate. now intros [= <-].
Qed.

Lemma resolve_exn b p e : resolve b p = Raise e -> e = IndexError.
Proof.
  unfold resolve. destruct (pos _ (fst p)) as [r|e1] eqn:E1; cbn [res_bind].
  - destruct (pos _ (snd p)) as [c|e2] eqn:E2; cbn [res_bind]; [discriminate|].
    intros [= <-]. eapply pos_exn; eauto.
  - intros [= <-]. eapply pos_exn; eauto.
Qed.

Lemma resolve_bound b p r c :
  resolve b p = Return (r, c) -> (r < Z.to_nat (size b))%nat /\ (c < Z.to_nat (size b))%nat.
Proof.
  unfold resolve. destruct (pos _ (fst p)) as [r'|] eqn:E1; cbn [res_bind]; [|discriminate].
  destruct (pos _ (snd p)) as [c'|] eqn:E2; cbn [res_bind]; [|discriminate].
  intros [= <- <-]. split; eapply pos_bound; eauto.
Qed.

Lemma resolve_inside b p :
  inside b p -> resolve b p = Return (Z.to_nat (fst p), Z.to_nat (snd p)).
Proof.
  intros [Hr Hc]. unfold resolve. rewrite !pos_inside by lia. reflexivity.
Qed.

Lemma get_cell_resolve b p :
  wf b ->
  get_cell (fst p) (snd p) b
  = (res_bind (resolve b p) (fun rc => Return (grid_at (cells b) (fst rc) (snd rc))), b).
Proof.
  intros Hwf. pose proof (wf_cells b Hwf) as Hg. destruct (Hg) as [Hl _].
  unfold get_cell, resolve, getitem. f_equal. rewrite Hl.
  destruct (pos _ (fst p)) as [r|e1] eqn:E1; cbn [res_bind]; [|reflexivity].
  destruct (grid_ok_lookup _ _ r Hg (pos_bound _ _ _ E1)) as (row & Hrow & Hlen).
  rewrite Hrow. cbn [res_bind]. rewrite Hlen.
  destruct (pos _ (snd p)) as [c|e2] eqn:E2; cbn [res_bind]; [|reflexivity].
  destruct (lookup_lt_is_Some_2 row c) as [s Hs]; [rewrite Hlen; eapply pos_bound; eauto|].
  unfold grid_at. cbn [fst snd]. now rewrite Hrow, Hs.
Qed.

Lemma set_cell_resolve b p v :
  wf b ->
  set_cell (fst p) (snd p) v b
  = match resolve b p with
    | Return rc => (Return tt, with_cells (grid_set (cells b) (fst rc) (snd rc) v) b)
    | Raise e => (Raise e, b)
    end.
Proof.
  intros Hwf. pose proof (wf_cells b Hwf) as Hg. destruct (Hg) as [Hl _].
  unfold set_cell, resolve, setitem. rewrite Hl.
  destruct (pos _ (fst p)) as [r|e1] eqn:E1; cbn [res_bind]; [|reflexivity].
  destruct (grid_ok_lookup _ _ r Hg (pos_bound _ _ _ E1)) as (row & Hrow & Hlen).
  rewrite Hrow, Hlen.
  destruct (pos _ (snd p)) as [c|e2] eqn:E2; cbn [res_bind]; [|reflexivity].
  unfold grid_set. cbn [fst snd]. now rewrite Hrow.
Qed.

Lemma qubit_cases b index :
  wf b ->
  qubit index b
  = (if (- size b ^ 2 <=? index) && (index <? size b ^ 2)
     then Return (Z.to_nat (index mod size b ^ 2)) else Raise IndexError, b).
Proof.
  intros Hwf. unfold qubit, getitem. f_equal. rewrite (wf_qubits b Hwf), length_seq.
  pose proof (Z.pow_nonneg (size b) 2 ltac:(apply wf_size, Hwf)) as Hsq.
  unfold pos. rewrite Z2Nat.id by lia.
  destruct (Z.leb_spec 0 index), (Z.ltb_spec index (size b ^ 2)),
    (Z.leb_spec (- size b ^ 2) index), (Z.ltb_spec index 0);
    cbn [andb res_bind]; try lia; try reflexivity.
  - rewrite lookup_seq_lt by lia. rewrite Z.mod_small by lia. reflexivity.
  - rewrite lookup_seq_lt by lia. f_equal.
    replace (index mod size b ^ 2) with (size b ^ 2 + index); [reflexivity|].
    apply Z.mod_unique with (-1); lia.
Qed.

(** What [make_classical_move] does for any arguments. *)
Lemma make_classical_move_general b row col mark :
  wf b ->
  make_classical_move row col mark b
  = match resolve b (row, col) with
    | Raise e => (Raise IndexError, b)
    | Return (r, c) =>
        if String.eqb (grid_at (cells b) r c) " " then
          let b1 := with_cells (grid_set (cells b) r c mark) b in
          let index := row * size b + col in
          if (- size b ^ 2 <=? index) && (index <? size b ^ 2)
          then (Return true,
                with_circuit
                  (circuit b ++ [if String.eqb mark "X"
                                 then Gx (Z.to_nat (index mod size b ^ 2))
                                 else Gid (Z.to_nat (index mod size b ^ 2))]) b1)
          else (Raise IndexError, b1)
        else (Return false, b)
    end.
Proof.
  intros Hwf. unfold make_classical_move.
  pose proof (get_cell_resolve b (row, col) Hwf) as Hget.
  pose proof (set_cell_resolve b (row, col) mark Hwf) as Hset.
  cbn [fst snd] in Hget, Hset.
  destruct (resolve b (row, col)) as [[r c]|e] eqn:E; cbn [res_bind fst snd] in Hget, Hset.
  - rewrite (bind_Return _ _ _ _ _ Hget).
    destruct (String.eqb (grid_at (cells b) r c) " "); [|reflexivity].
    rewrite (bind_Return _ _ _ _ _ Hset). rewrite bind_self.
    set (b1 := with_cells _ b).
    assert (wf b1) as Hwf1 by (apply wf_with_cells; [|apply grid_set_ok, wf_cells]; exact Hwf).
    pose proof (qubit_cases b1 (row * size b1 + col) Hwf1) as Hq.
    change (size b1) with (size b) in *. cbn zeta.
    destruct ((- size b ^ 2 <=? row * size b + col) && (row * size b + col <? size b ^ 2)).
    + destruct (String.eqb mark "X").
      * rewrite (bind_Return _ _ b1 tt
                   (with_circuit (circuit b1 ++
                      [Gx (Z.to_nat ((row * size b + col) mod size b ^ 2))]) b1));
          [reflexivity|].
        rewrite (bind_Return _ _ _ _ _ Hq). apply append_distinct, NoDup_singleton.
      * rewrite (bind_Return _ _ b1 tt
                   (with_circuit (circuit b1 ++
                      [Gid (Z.to_nat ((row * size b + col) mod size b ^ 2))]) b1));
          [reflexivity|].
        rewrite (bind_Return _ _ _ _ _ Hq). apply append_distinct, NoDup_singleton.
    + destruct (String.eqb mark "X"); apply bind_Raise, bind_Raise, Hq.
  - apply bind_Raise. rewrite Hget. f_equal. f_equal. eapply resolve_exn; eauto.
Qed.

Lemma pos_wrap len i :
  - Z.of_nat len <= i < Z.of_nat len ->
  pos len i = Return (Z.to_nat (i mod Z.of_nat len)).
Proof.
  intros Hi. unfold pos.
  destruct (Z.leb_spec 0 i), (Z.ltb_spec i (Z.of_nat len)),
    (Z.leb_spec (- Z.of_nat len) i), (Z.ltb_spec i 0); cbn [andb]; try lia.
  - now rewrite Z.mod_small by lia.
  - do 2 f_equal. apply Z.mod_unique with (-1); lia.
Qed.

Lemma resolve_wrap b row col :
  wf b -> - size b <= row < size b -> - size b <= col < size b ->
  resolve b (row, col) = Return (Z.to_nat (row mod size b), Z.to_nat (col mod size b)).
Proof.
  intros Hwf Hr Hc. pose proof (wf_size b Hwf). unfold resolve. cbn [fst snd].
  rewrite !pos_wrap by lia. rewrite Z2Nat.id by lia. reflexivity.
Qed.

(** X5: a successful classical move on a cell of the board appends exactly
    one gate to the circuit, on the qubit [row * size + col] of that cell:
    an X gate when the mark is ["X"], the identity gate for any other
    mark.  No other cell of the board has that qubit. *)
Theorem make_classical_move_gate b row col mark :
  wf b -> inside b (row, col) -> cell b row col = " " ->
  exists b',
    make_classical_move row col mark b = (Return true, b')
    /\ circuit b' = circuit b ++ [if String.eqb mark "X"
                                  then Gx (qubit_of b (row, col))
                                  else Gid (qubit_of b (row, col))]
    /\ qubit_of b (row, col) = Z.to_nat (row * size b + col)
    /\ forall p, inside b p -> p <> (row, col) -> qubit_of b p <> qubit_of b (row, col).
Proof.
  intros Hwf Hin He. pose proof Hin as [Hr Hc]. cbn [fst snd] in *. eexists. split.
  - apply make_classical_move_empty; assumption.
  - split; [reflexivity|]. split; [reflexivity|].
    intros p Hp Hne. now apply qubit_of_inj.
Qed.

(** X6: a classical move never overwrites an occupied cell, whatever its
    arguments (in range, negative or out of range) and whether it returns
    or raises: a cell of the board that is not empty holds afterwards what
    it held before. *)
Theorem make_classical_move_keeps_occupied b r c row col mark :
  wf b -> inside b (r, c) -> cell b r c <> " " ->
  cell (snd (make_classical_move row col mark b)) r c = cell b r c.
Proof.
  intros Hwf [Hr Hc] Ho. cbn [fst snd] in *.
  rewrite make_classical_move_general by assumption.
  destruct (resolve b (row, col)) as [[r' c']|e] eqn:E; [|reflexivity].
  destruct (String.eqb_spec (grid_at (cells b) r' c') " ") as [He|]; [|reflexivity].
  assert ((r', c') <> (Z.to_nat r, Z.to_nat c)) as Hne.
  { intros [= -> ->]. apply Ho. exact He. }
  cbn zeta. destruct (_ && _); cbn [snd]; unfold cell; cbn [cells with_circuit with_cells];
    now apply grid_at_set_ne.
Qed.

(** X7: rows and columns from [- size] to [-1] are taken from the end, the
    way Python indexes a list.  When the cell so named is empty, a
    classical move is not refused: it writes the mark into that cell and
    leaves every other cell as it was. *)
Theorem make_classical_move_wraps b row col mark :
  wf b -> - size b <= row < size b -> - size b <= col < size b ->
  cell b (row mod size b) (col mod size b) = " " ->
  let out := make_classical_move row col mark b in
  cell (snd out) (row mod size b) (col mod size b) = mark
  /\ (forall r c, 0 <= r -> 0 <= c -> (r, c) <> (row mod size b, col mod size b) ->
        cell (snd out) r c = cell b r c)
  /\ fst out <> Return false.
Proof.
  intros Hwf Hr Hc He. cbn zeta. pose proof (wf_size b Hwf) as Hs.
  assert (0 < size b) as Hpos by lia.
  pose proof (Z.mod_pos_bound row (size b) Hpos) as Hrm.
  pose proof (Z.mod_pos_bound col (size b) Hpos) as Hcm.
  rewrite make_classical_move_general, resolve_wrap by assumption.
  unfold cell in He. rewrite He. cbn [String.eqb Ascii.eqb Bool.eqb]. cbn zeta.
  assert (forall circ,
            cell (with_circuit circ
                    (with_cells (grid_set (cells b) (Z.to_nat (row mod size b))
                                          (Z.to_nat (col mod size b)) mark) b))
                 (row mod size b) (col mod size b) = mark) as Hsame.
  { intros circ. unfold cell. cbn [cells with_circuit with_cells].
    eapply grid_at_set_eq; [apply (wf_cells b Hwf)| |]; lia. }
  assert (forall circ r c, 0 <= r -> 0 <= c ->
            (r, c) <> (row mod size b, col mod size b) ->
            cell (with_circuit circ
                    (with_cells (grid_set (cells b) (Z.to_nat (row mod size b))
                                          (Z.to_nat (col mod size b)) mark) b)) r c
            = cell b r c) as Hother.
  { intros circ r c Hr0 Hc0 Hne. unfold cell. cbn [cells with_circuit with_cells].
    apply grid_at_set_ne. intros [= E1 E2]. apply Hne. f_equal; lia. }
  destruct (_ && _); cbn [fst snd].
  - split; [apply Hsame|]. split; [apply Hother|discriminate].
  - split; [apply (Hsame (circuit b))|]. split; [apply (Hother (circuit b))|discriminate].
Qed.

(** ** Entangling moves with arbitrary arguments *)

Lemma occupied_scan_general b positions :
  wf b ->
  any_ (fun p => let* c := get_cell (fst p) (snd p) in ret (negb (String.eqb c " ")))
       positions b
  = (match empty_targets b positions with
     | Return (Some _) => Return false
     | Return None => Return true
     | Raise _ => Raise IndexError
     end, b).
Proof.
  intros Hwf. induction positions as [|p ps IH]; [reflexivity|].
  cbn [any_ empty_targets]. pose proof (get_cell_resolve b p Hwf) as Hget.
  destruct (resolve b p) as [[r c]|e] eqn:E; cbn [res_bind fst snd] in *.
  - erewrite bind_Return by (rewrite (bind_Return _ _ _ _ _ Hget); reflexivity).
    destruct (String.eqb (grid_at (cells b) r c) " "); cbn [negb]; [|reflexivity].
    rewrite IH. destruct (empty_targets b ps) as [[rcs|]|]; reflexivity.
  - apply bind_Raise, bind_Raise. rewrite Hget. f_equal. f_equal.
    eapply resolve_exn; eauto.
Qed.

Lemma empty_targets_Some b positions rcs :
  empty_targets b positions = Return (Some rcs) ->
  Forall2 (fun p rc => resolve b p = Return rc) positions rcs
  /\ Forall (fun rc => grid_at (cells b) (fst rc) (snd rc) = " ") rcs.
Proof.
  revert rcs. induction positions as [|p ps IH]; intros rcs; cbn [empty_targets].
  - intros [= <-]. split; constructor.
  - destruct (resolve b p) as [rc|] eqn:E; cbn [res_bind]; [|discriminate].
    destruct (String.eqb_spec (grid_at (cells b) (fst rc) (snd rc)) " ") as [He|];
      [|discriminate].
    destruct (empty_targets b ps) as [[rcs'|]|]; cbn [res_bind option_map]; try discriminate.
    intros [= <-]. destruct (IH rcs' eq_refl) as [H1 H2]. split; constructor; assumption.
Qed.

Lemma for_set_cell_general b positions rcs v :
  wf b -> Forall2 (fun p rc => resolve b p = Return rc) positions rcs ->
  for_ positions (fun p => set_cell (fst p) (snd p) v) b
  = (Return tt, with_cells (written (cells b) rcs v) b).
Proof.
  intros Hwf H. revert b rcs Hwf H. induction positions as [|p ps IH]; intros b rcs Hwf H.
  - apply Forall2_nil_inv_l in H. subst rcs. destruct b. reflexivity.
  - apply Forall2_cons_inv_l in H. destruct H as (rc & rcs' & Hrc & H & ->).
    cbn [for_ written fold_left].
    pose proof (set_cell_resolve b p v Hwf) as Hset. rewrite Hrc in Hset.
    rewrite (bind_Return _ _ _ _ _ Hset). rewrite IH with (rcs := rcs').
    + reflexivity.
    + apply wf_with_cells; [exact Hwf|]. apply grid_set_ok, wf_cells, Hwf.
    + exact H.
Qed.

Lemma grid_at_written g rcs v r c :
  (r, c) ∉ rcs -> grid_at (written g rcs v) r c = grid_at g r c.
Proof.
  revert g. induction rcs as [|rc rcs IH]; intros g Hnot; [reflexivity|].
  cbn [written fold_left]. fold (written (grid_set g (fst rc) (snd rc) v) rcs v).
  rewrite IH by (intros H; apply Hnot; now right).
  apply grid_at_set_ne. destruct rc as [r' c']. cbn [fst snd].
  intros [= -> ->]. apply Hnot. left.
Qed.

Lemma written_ok n g rcs v : grid_ok n g -> grid_ok n (written g rcs v).
Proof.
  revert g. induction rcs as [|rc rcs IH]; intros g Hg; [exact Hg|].
  cbn [written fold_left]. apply IH, grid_set_ok, Hg.
Qed.

Lemma circuit_only_refl b : circuit_only b b.
Proof. exists (circuit b). now destruct b. Qed.

Lemma circuit_only_with_circuit b0 b c :
  circuit_only b0 b -> circuit_only b0 (with_circuit c b).
Proof. intros [circ ->]. now exists c. Qed.

Ltac circuit_steps b0 :=
  repeat first
    [ apply triple_ret | apply triple_lift | apply triple_qubit
    | apply (triple_append _ (circuit_only_with_circuit b0))
    | match goal with
      | |- triple _ (if ?c then _ else _) _ => destruct c
      | |- triple _ (bind _ _) _ => apply triple_bind with (Q := fun _ => True); [|intros ? _]
      end ].

(** What [make_entangled_move] does for any arguments: it refuses and
    changes nothing, or raises with at most the circuit extended, or
    succeeds after having found every position to denote an empty cell. *)
Lemma make_entangled_move_general b positions mark :
  wf b ->
  let out := make_entangled_move positions mark b in
  out = (Return false, b)
  \/ (exists e circ, out = (Raise e, with_circuit circ b))
  \/ (exists rcs circ,
        (length positions = 2 \/ length positions = 3)%nat
        /\ Forall2 (fun p rc => resolve b p = Return rc) positions rcs
        /\ Forall (fun rc => grid_at (cells b) (fst rc) (snd rc) = " ") rcs
        /\ out = (Return true,
                  with_count (entanglement_count b + 1)
                    (with_cells (written (cells b) rcs (String.append mark "?"))
                       (with_circuit circ b)))).
Proof.
  intros Hwf. cbn zeta.
  destruct (make_entangled_move positions mark b) as [out_r out_b] eqn:Hout.
  unfold make_entangled_move in Hout.
  destruct (existsb (Nat.eqb (length positions)) [2; 3]%nat) eqn:Hlen; cbn [negb] in Hout;
    [|left; now rewrite <- Hout].
  assert (length positions = 2 \/ length positions = 3)%nat as Hlen'.
  { cbn [existsb] in Hlen. rewrite orb_false_r in Hlen. apply orb_true_iff in Hlen.
    destruct Hlen as [H|H]; apply Nat.eqb_eq in H; lia. }
  pose proof (occupied_scan_general b positions Hwf) as Hs.
  destruct (empty_targets b positions) as [[rcs|]|e] eqn:Hscan.
  2:{ left. now rewrite (bind_Return _ _ _ _ _ Hs) in Hout. }
  2:{ right. left. exists IndexError, (circuit b). rewrite (bind_Raise _ _ _ _ _ Hs) in Hout.
      rewrite <- Hout. now destruct b. }
  rewrite (bind_Return _ _ _ _ _ Hs) in Hout.
  destruct (negb (length (remove_dups positions) =? length positions)%nat);
    [left; now rewrite <- Hout|].
  rewrite bind_self in Hout.
  destruct (empty_targets_Some b positions rcs Hscan) as [Hres Hempty].
  match type of Hout with
  | bind ?blk ?k b = _ =>
      assert (triple (circuit_only b) blk (fun _ => True)) as Hblk
  end.
  { unfold circuit_h, circuit_cx, circuit_ccx. circuit_steps b. }
  destruct (Hblk b (circuit_only_refl b)) as [[circ Hb1] _].
  unfold bind at 1 in Hout.
  match type of Hout with
  | match ?blk b with _ => _ end = _ => destruct (blk b) as [[[]|e] b1]
  end; cbn [snd] in Hb1; subst b1.
  - right. right. exists rcs, circ. split; [exact Hlen'|]. split; [exact Hres|].
    split; [exact Hempty|]. rewrite <- Hout.
    erewrite bind_Return.
    2:{ apply for_set_cell_general with (rcs := rcs); [now apply wf_with_circuit|exact Hres]. }
    reflexivity.
  - right. left. exists e, circ. now rewrite <- Hout.
Qed.

Lemma qubit_of_NoDup b positions :
  Forall (inside b) positions -> NoDup positions -> NoDup (map (qubit_of b) positions).
Proof.
  intros Hin Hnd. induction Hnd as [|p ps Hnot Hnd IH]; [constructor|].
  apply Forall_cons in Hin. destruct Hin as [Hp Hin]. cbn [map]. constructor.
  - intros H. apply list_elem_of_fmap in H. destruct H as (q & E & Hq).
    rewrite Forall_forall in Hin. destruct (decide (p = q)) as [->|Hne]; [contradiction|].
    now apply (qubit_of_inj b p q Hp (Hin q Hq) Hne).
  - now apply IH.
Qed.

(** X8: a successful entangling move appends to the circuit, in this
    order, a Hadamard gate on the first named cell's qubit, a CNOT from the
    first to the second and, for three cells, a Toffoli gate from the first
    two to the third, and nothing else; the cell at row [r], column [c] has
    qubit [r * size + c], and the named cells have pairwise different
    qubits. *)
Theorem make_entangled_move_gates b positions mark :
  wf b -> Forall (inside b) positions ->
  (length positions = 2 \/ length positions = 3)%nat ->
  NoDup positions -> Forall (empty_at b) positions ->
  exists b',
    make_entangled_move positions mark b = (Return true, b')
    /\ circuit b' = circuit b ++ entangle_gates (map (qubit_of b) positions)
    /\ NoDup (map (qubit_of b) positions).
Proof.
  intros Hwf Hin Hlen Hnd Hempty. exists (entangled b positions mark).
  split; [now apply make_entangled_move_success|].
  split; [reflexivity|now apply qubit_of_NoDup].
Qed.

(** X9: an entangling move never overwrites an occupied cell, whatever its
    arguments and whether it returns or raises: a cell of the board that is
    not empty holds afterwards what it held before. *)
Theorem make_entangled_move_keeps_occupied b r c positions mark :
  wf b -> inside b (r, c) -> cell b r c <> " " ->
  cell (snd (make_entangled_move positions mark b)) r c = cell b r c.
Proof.
  intros Hwf [Hr Hc] Ho. cbn [fst snd] in *.
  destruct (make_entangled_move_general b positions mark Hwf)
    as [E|[(e & circ & E)|(rcs & circ & _ & Hres & Hempty & E)]]; rewrite E; cbn [snd].
  - reflexivity.
  - reflexivity.
  - unfold cell. cbn [cells with_count with_cells]. apply grid_at_written.
    intros Hin. rewrite Forall_forall in Hempty. specialize (Hempty _ Hin).
    cbn [fst snd] in Hempty. now apply Ho.
Qed.

(** X10: an entangling move changes cells or the counter only when it
    returns [True]: for any arguments, if it returns [False] or raises, all
    cells and the entanglement counter are what they were. *)
Theorem make_entangled_move_all_or_nothing b positions mark :
  wf b ->
  let out := make_entangled_move positions mark b in
  fst out <> Return true ->
  cells (snd out) = cells b /\ entanglement_count (snd out) = entanglement_count b.
Proof.
  intros Hwf out Hfail. subst out.
  destruct (make_entangled_move_general b positions mark Hwf)
    as [E|[(e & circ & E)|(rcs & circ & _ & _ & _ & E)]]; rewrite E in *; cbn [fst snd] in *.
  - now split.
  - now split.
  - contradiction.
Qed.

(** ** After a collapse *)

Lemma collapsed_wf ms b : wf b -> wf (collapsed ms b).
Proof.
  intros [H1 H2 H3 H4]. split; cbn [size cells qubits winning_lines collapsed]; try assumption.
  clear H3 H4. generalize (range (size b ^ 2)). intros idxs. revert H2.
  generalize (cells b). induction idxs as [|i idxs IH]; intros g Hg; [exact Hg|].
  cbn [fold_left]. now apply IH, collapse_step_ok.
Qed.

Lemma collapsed_not_pending ms b i :
  wf b -> 0 <= i < size b ^ 2 -> pendingb (cell_idx (collapsed ms b) i) = false.
Proof.
  intros Hwf Hi. rewrite collapsed_cell by assumption.
  destruct (pendingb (cell_idx b i)) eqn:E; [apply resolved_not_pending|exact E].
Qed.

Lemma collapse_board_run b counts :
  wf b -> counts_ok b counts ->
  exists ms, collapse_board counts b = (Return counts, collapsed ms b).
Proof.
  intros Hwf Hcounts.
  destruct (max_state_of_Return b counts Hcounts) as (k & _ & Hms & Hlen).
  exists (str_rev k). apply collapse_board_Return; [assumption|assumption|].
  rewrite Hlen. pose proof (Z.pow_nonneg (size b) 2 ltac:(apply wf_size, Hwf)). lia.
Qed.

(** X11: once [collapse_board] has returned, no cell of the board is
    pending any more, and [can_be_collapsed] answers [False]. *)
Theorem collapse_board_leaves_no_pending b counts :
  wf b -> counts_ok b counts ->
  exists b',
    collapse_board counts b = (Return counts, b')
    /\ (forall i, 0 <= i < size b' ^ 2 -> pendingb (cell_idx b' i) = false)
    /\ can_be_collapsed b' = (Return false, b').
Proof.
  intros Hwf Hcounts. destruct (collapse_board_run b counts Hwf Hcounts) as [ms Hrun].
  exists (collapsed ms b). split; [exact Hrun|]. split.
  - intros i Hi. now apply collapsed_not_pending.
  - reflexivity.
Qed.

(** X12: collapsing a second time resolves nothing: whatever distribution
    the second measurement hands back, every cell keeps the content the
    first collapse gave it, and the counter stays 0. *)
Theorem collapse_board_twice b counts1 counts2 :
  wf b -> counts_ok b counts1 -> counts_ok b counts2 ->
  exists b1 b2,
    collapse_board counts1 b = (Return counts1, b1)
    /\ collapse_board counts2 b1 = (Return counts2, b2)
    /\ (forall i, 0 <= i < size b ^ 2 -> cell_idx b2 i = cell_idx b1 i)
    /\ entanglement_count b2 = 0.
Proof.
  intros Hwf H1 H2. destruct (collapse_board_run b counts1 Hwf H1) as [ms1 Hrun1].
  assert (wf (collapsed ms1 b)) as Hwf1 by now apply collapsed_wf.
  destruct (collapse_board_run (collapsed ms1 b) counts2 Hwf1 H2) as [ms2 Hrun2].
  exists (collapsed ms1 b), (collapsed ms2 (collapsed ms1 b)).
  split; [exact Hrun1|]. split; [exact Hrun2|]. split; [|reflexivity].
  intros i Hi. rewrite collapsed_cell by assumption.
  now rewrite collapsed_not_pending.
Qed.

(** X13: when the measurement hands back an empty distribution,
    [collapse_board] raises [ValueError]; the cells and the entanglement
    counter are untouched, but the barrier and the measurement have already
    been appended to the circuit. *)
Theorem collapse_board_empty_counts b :
  collapse_board [] b
  = (Raise ValueError, with_circuit (circuit b ++ [Gbarrier; Gmeasure]) b).
Proof.
  unfold collapse_board, circuit_barrier, circuit_measure_all.
  erewrite bind_Return by (apply append_distinct, NoDup_nil_2).
  erewrite bind_Return by (apply append_distinct, NoDup_nil_2).
  unfold with_circuit. cbn [circuit size entanglement_count cells qubits winning_lines].
  rewrite <- app_assoc. reflexivity.
Qed.

(** ** A fresh board *)

Lemma grid_at_fresh n r c :
  grid_at (map (fun _ => map (fun _ => " ") (range n)) (range n)) r c = " ".
Proof.
  unfold grid_at. destruct (_ !! r) as [row|] eqn:E; [|reflexivity].
  apply list_elem_of_lookup_2, list_elem_of_fmap in E. destruct E as (i & -> & _).
  destruct (_ !! c) as [s|] eqn:E; [|reflexivity].
  apply list_elem_of_lookup_2, list_elem_of_fmap in E. now destruct E as (j & -> & _).
Qed.

Lemma first_winner_empty b lines :
  (forall line, line ∈ lines -> exists i0 rest, line = i0 :: rest) ->
  (forall i, cell_idx b i = " ") ->
  first_winner b lines = None.
Proof.
  intros Hne Hall. apply first_winner_None; [exact Hne|].
  intros line w Hline (Hw & Hnot & _).
  destruct (Hne line Hline) as (i0 & rest & ->).
  apply Hnot. rewrite <- (Hw i0 ltac:(left)). apply Hall.
Qed.

(** X14: for every size from 2 on, the constructor returns a board of that
    size whose cells are all empty, whose entanglement counter is 0 and
    whose circuit holds the reset and a barrier; on it [check_win] returns
    [None] and [can_be_collapsed] returns [False]. *)
Theorem init_fresh n :
  2 <= n ->
  exists b,
    init n = Return b
    /\ size b = n /\ entanglement_count b = 0 /\ circuit b = [Greset; Gbarrier]
    /\ (forall r c, cell b r c = " ")
    /\ check_win b = (Return VNone, b)
    /\ can_be_collapsed b = (Return false, b).
Proof.
  intros Hn. destruct (init_grid n Hn) as (b & Hinit & Hwf & Hlines).
  exists b. split; [exact Hinit|].
  unfold init in Hinit. rewrite init_winning_lines_grid in Hinit by assumption.
  cbn [res_bind] in Hinit. injection Hinit as Hb.
  assert (size b = n) as Hsize by now rewrite <- Hb.
  assert (forall r c, cell b r c = " ") as Hcells.
  { intros r c. unfold cell. rewrite <- Hb. cbn [cells]. apply grid_at_fresh. }
  split; [exact Hsize|]. split; [now rewrite <- Hb|]. split; [now rewrite <- Hb|].
  split; [exact Hcells|]. split.
  - rewrite check_win_Return by (assumption || lia).
    rewrite first_winner_empty.
    + assert (fullb b = false) as ->; [|reflexivity].
      destruct (fullb b) eqn:E; [|reflexivity].
      apply fullb_true with (i := 0) in E; [|nia].
      exfalso. apply E. apply Hcells.
    + intros line Hline. apply (wf_lines_shape b line Hwf); [lia|exact Hline].
    + intros i. apply Hcells.
  - unfold can_be_collapsed. rewrite bind_self. now rewrite <- Hb.
Qed.

Lemma NoDup_range n : NoDup (range n).
Proof.
  rewrite range_map. apply NoDup_fmap_2; [intros x y; lia|apply NoDup_seq].
Qed.

Lemma NoDup_map_range (f : Z -> Z) n :
  (forall x y, 0 <= x < n -> 0 <= y < n -> f x = f y -> x = y) -> NoDup (map f (range n)).
Proof.
  intros Hinj. apply NoDup_fmap_2_strong; [|apply NoDup_range].
  intros x y Hx Hy. apply elem_of_range in Hx, Hy. now apply Hinj.
Qed.

(** X15: for every size [n] from 2 on, the board has [2 * n + 2] winning
    lines; every line passes through [n] different cells, all of them on
    the board. *)
Theorem winning_lines_shape n b :
  2 <= n -> init n = Return b ->
  length (winning_lines b) = Z.to_nat (2 * n + 2)
  /\ forall line, line ∈ winning_lines b ->
       length line = Z.to_nat n /\ NoDup line /\ forall i, i ∈ line -> 0 <= i < n ^ 2.
Proof.
  intros Hn Hinit. destruct (init_grid n Hn) as (b' & Hinit' & Hwf & Hlines).
  rewrite Hinit in Hinit'. injection Hinit' as <-. rewrite Hlines. split.
  - unfold grid_lines. rewrite !length_app, !length_map, !length_range. cbn [length]. lia.
  - intros line Hline. split; [|split].
    + unfold grid_lines in Hline. rewrite !elem_of_app, !list_elem_of_fmap in Hline.
      destruct Hline as [(c & -> & _)|[(r & -> & _)|Hd]].
      * unfold column_line. now rewrite length_map, length_range.
      * unfold row_line. now rewrite length_map, length_range.
      * apply elem_of_cons in Hd. destruct Hd as [->|Hd].
        -- unfold diagonal_line. now rewrite length_map, length_range.
        -- apply list_elem_of_singleton in Hd. subst line.
           unfold antidiagonal_line. now rewrite length_map, length_range.
    + unfold grid_lines in Hline. rewrite !elem_of_app, !list_elem_of_fmap in Hline.
      destruct Hline as [(c & -> & _)|[(r & -> & _)|Hd]].
      * apply NoDup_map_range. intros x y Hx Hy. nia.
      * apply NoDup_map_range. intros x y Hx Hy. lia.
      * apply elem_of_cons in Hd. destruct Hd as [->|Hd].
        -- apply NoDup_map_range. intros x y Hx Hy. nia.
        -- apply list_elem_of_singleton in Hd. subst line.
           apply NoDup_map_range. intros x y Hx Hy. nia.
    + intros i Hi. apply (grid_lines_inside n line i); (lia || assumption).
Qed.

(** ** More on the evaluator *)

Lemma first_winner_complete b lines line w :
  (forall l, l ∈ lines -> exists i0 rest, l = i0 :: rest) ->
  line ∈ lines -> line_won b line w ->
  exists w' line', first_winner b lines = Some w' /\ line' ∈ lines /\ line_won b line' w'.
Proof.
  intros Hne Hline Hwon. destruct (first_winner b lines) as [w'|] eqn:E.
  - destruct (first_winner_Some b lines w' Hne E) as (line' & Hl & Hw). eauto.
  - exfalso. now apply (first_winner_None_inv b lines Hne E line w Hline).
Qed.

(** X16: whenever some winning line is complete (one and the same content
    in all its cells, not empty and not one of the pending strings),
    [check_win] reports a winner, and the winner it reports is the content
    of a complete line; the board is unchanged. *)
Theorem check_win_reports_complete_line b line w :
  wf b -> 0 < size b -> line ∈ winning_lines b -> line_won b line w ->
  exists w' line',
    check_win b = (Return (VStr w'), b)
    /\ line' ∈ winning_lines b /\ line_won b line' w'.
Proof.
  intros Hwf Hpos Hline Hwon.
  destruct (first_winner_complete b (winning_lines b) line w) as (w' & line' & E & Hl & Hw);
    try assumption.
  { intros l Hl. now apply (wf_lines_shape b l Hwf Hpos). }
  exists w', line'. split; [|now split].
  rewrite check_win_Return by assumption. now rewrite E.
Qed.

(** X17: while no winning line is complete and some cell is still empty,
    [check_win] returns [None], whatever the entanglement counter. *)
Theorem check_win_undecided b i :
  wf b -> 0 < size b ->
  (forall line w, line ∈ winning_lines b -> ~ line_won b line w) ->
  0 <= i < size b ^ 2 -> cell_idx b i = " " ->
  check_win b = (Return VNone, b).
Proof.
  intros Hwf Hpos Hno Hi He. rewrite check_win_Return by assumption.
  rewrite first_winner_None.
  - assert (fullb b = false) as ->; [|reflexivity].
    destruct (fullb b) eqn:E; [|reflexivity].
    exfalso. now apply (proj1 (fullb_true b) E i Hi).
  - intros line Hline. now apply (wf_lines_shape b line Hwf Hpos).
  - exact Hno.
Qed.

(** X18: [check_win] and [can_be_collapsed] only read: on every board,
    well-formed or not, and whether they return or raise, the board is
    afterwards exactly what it was. *)
Theorem evaluators_read_only b :
  snd (check_win b) = b /\ snd (can_be_collapsed b) = b.
Proof.
  split.
  - apply (check_win_keeps (fun b' => b' = b) (fun _ => True)); trivial.
  - apply (can_be_collapsed_keeps (fun b' => b' = b) (fun _ => True)); trivial.
Qed.

(** ** The counter and the pending cells *)

(** What [make_swap_move] does for any arguments: it leaves the cells as
    they are, or it has exchanged the contents of the two cells named. *)
Lemma make_swap_move_general b row1 col1 row2 col2 :
  wf b ->
  let out := make_swap_move row1 col1 row2 col2 b in
  (exists circ, snd out = with_circuit circ b /\ fst out <> Return true)
  \/ (exists rc1 rc2 circ,
        resolve b (row1, col1) = Return rc1 /\ resolve b (row2, col2) = Return rc2
        /\ out = (Return true,
                  with_cells
                    (grid_set (grid_set (cells b) (fst rc1) (snd rc1)
                                        (grid_at (cells b) (fst rc2) (snd rc2)))
                              (fst rc2) (snd rc2) (grid_at (cells b) (fst rc1) (snd rc1)))
                    (with_circuit circ b))).
Proof.
  intros Hwf. cbn zeta.
  destruct (make_swap_move row1 col1 row2 col2 b) as [out_r out_b] eqn:Hout.
  unfold make_swap_move in Hout.
  assert (b = with_circuit (circuit b) b) as Hb by now destruct b.
  pose proof (get_cell_resolve b (row1, col1) Hwf) as Hget1.
  pose proof (get_cell_resolve b (row2, col2) Hwf) as Hget2.
  cbn [fst snd] in Hget1, Hget2.
  destruct (resolve b (row1, col1)) as [rc1|e1] eqn:E1; cbn [res_bind] in Hget1.
  2:{ rewrite (bind_Raise _ _ _ _ _ Hget1) in Hout. injection Hout as <- <-.
      left. exists (circuit b). split; [exact Hb|discriminate]. }
  rewrite (bind_Return _ _ _ _ _ Hget1) in Hout.
  destruct (String.eqb (grid_at (cells b) (fst rc1) (snd rc1)) " "); cbn [negb] in Hout.
  { rewrite (bind_Return _ _ b false b) in Hout by reflexivity. injection Hout as <- <-.
    left. exists (circuit b). split; [exact Hb|discriminate]. }
  destruct (resolve b (row2, col2)) as [rc2|e2] eqn:E2; cbn [res_bind] in Hget2.
  2:{ rewrite (bind_Raise _ _ _ _ _ (bind_Raise _ _ _ _ _ Hget2)) in Hout.
      injection Hout as <- <-. left. exists (circuit b). split; [exact Hb|discriminate]. }
  rewrite (bind_Return _ _ b (negb (String.eqb (grid_at (cells b) (fst rc2) (snd rc2)) " ")) b)
    in Hout by (rewrite (bind_Return _ _ _ _ _ Hget2); reflexivity).
  destruct (String.eqb (grid_at (cells b) (fst rc2) (snd rc2)) " "); cbn [negb] in Hout.
  { injection Hout as <- <-. left. exists (circuit b). split; [exact Hb|discriminate]. }
  rewrite bind_self in Hout. erewrite bind_lift in Hout by reflexivity.
  unfold bind at 1 in Hout. unfold qubit at 1 in Hout.
  destruct (getitem (qubits b) _) as [q0|e]; cbn [fst snd] in Hout.
  2:{ injection Hout as <- <-. left. exists (circuit b). split; [exact Hb|discriminate]. }
  erewrite bind_lift in Hout by reflexivity.
  unfold bind at 1 in Hout. unfold qubit at 1 in Hout.
  destruct (getitem (qubits b) _) as [q1|e]; cbn [fst snd] in Hout.
  2:{ injection Hout as <- <-. left. exists (circuit b). split; [exact Hb|discriminate]. }
  unfold bind at 1 in Hout. unfold circuit_swap, append in Hout.
  destruct (bool_decide (NoDup [q0; q1])).
  2:{ injection Hout as <- <-. left. exists (circuit b). split; [exact Hb|discriminate]. }
  set (b1 := with_circuit (circuit b ++ [Gswap q0 q1]) b) in *.
  assert (wf b1) as Hwf1 by now apply wf_with_circuit.
  pose proof (get_cell_resolve b1 (row1, col1) Hwf1) as Hg1.
  pose proof (get_cell_resolve b1 (row2, col2) Hwf1) as Hg2.
  pose proof (set_cell_resolve b1 (row1, col1)
                (grid_at (cells b) (fst rc2) (snd rc2)) Hwf1) as Hs1.
  change (resolve b1) with (resolve b) in *. rewrite E1 in Hg1, Hs1. rewrite E2 in Hg2.
  cbn [fst snd res_bind] in Hg1, Hg2, Hs1. change (cells b1) with (cells b) in *.
  rewrite (bind_Return _ _ _ _ _ Hg2), (bind_Return _ _ _ _ _ Hg1) in Hout.
  rewrite (bind_Return _ _ _ _ _ Hs1) in Hout.
  set (b2 := with_cells _ b1) in *.
  assert (wf b2) as Hwf2
    by (apply wf_with_cells; [exact Hwf1|apply grid_set_ok, (wf_cells b Hwf)]).
  pose proof (set_cell_resolve b2 (row2, col2)
                (grid_at (cells b) (fst rc1) (snd rc1)) Hwf2) as Hs2.
  change (resolve b2) with (resolve b) in *. rewrite E2 in Hs2. cbn [fst snd] in Hs2.
  rewrite (bind_Return _ _ _ _ _ Hs2) in Hout. injection Hout as <- <-.
  right. exists rc1, rc2, (circuit b ++ [Gswap q0 q1]). split; [reflexivity|].
  split; [reflexivity|]. reflexivity.
Qed.

Lemma str_getitem_outside s i :
  Z.of_nat (String.length s) <= i -> str_getitem s i = Raise IndexError.
Proof. intros H. unfold str_getitem. rewrite pos_outside by lia. reflexivity. Qed.

Lemma collapse_body_general ms b i :
  wf b -> 0 <= i < size b ^ 2 ->
  (let* b := self in
   let* rc := lift (divmod i (size b)) in
   let* c := get_cell (fst rc) (snd rc) in
   if endswith c "?" then
     let* bit := lift (str_getitem ms i) in
     set_cell (fst rc) (snd rc) (if Ascii.eqb bit "1" then "X" else "O")
   else ret tt) b
  = if pendingb (grid_at (cells b) (Z.to_nat (i / size b)) (Z.to_nat (i mod size b)))
       && (Z.of_nat (String.length ms) <=? i)
    then (Raise IndexError, b)
    else (Return tt, with_cells (collapse_step ms (size b) (cells b) i) b).
Proof.
  intros Hwf Hi.
  assert (0 < size b) as Hpos by (pose proof (wf_size b Hwf); nia).
  destruct (index_split _ _ Hpos Hi) as [Hr Hc].
  rewrite bind_self. unfold divmod.
  destruct (Z.eqb_spec (size b) 0); [lia|].
  erewrite bind_lift by reflexivity. cbn [fst snd].
  erewrite bind_Return by (eapply get_cell_inside; [apply (wf_cells b Hwf)|lia|lia]).
  unfold collapse_step. fold (cell b (i / size b) (i mod size b)).
  unfold pendingb. destruct (endswith (cell b (i / size b) (i mod size b)) "?"); cbn [andb].
  - destruct (Z.leb_spec (Z.of_nat (String.length ms)) i) as [Hshort|Hlong].
    + apply bind_Raise. unfold lift. now rewrite str_getitem_outside.
    + destruct (str_getitem_inside ms i ltac:(lia)) as (ch & Hget & Hch).
      erewrite bind_lift by exact Hget.
      erewrite set_cell_inside by (try apply (wf_cells b Hwf); lia).
      unfold resolved, bit_at. rewrite Hch. reflexivity.
  - destruct b. reflexivity.
Qed.

Lemma collapse_loop_general ms b idxs :
  wf b -> (forall i, i ∈ idxs -> 0 <= i < size b ^ 2) ->
  for_ idxs (fun i =>
    let* b := self in
    let* rc := lift (divmod i (size b)) in
    let* c := get_cell (fst rc) (snd rc) in
    if endswith c "?" then
      let* bit := lift (str_getitem ms i) in
      set_cell (fst rc) (snd rc) (if Ascii.eqb bit "1" then "X" else "O")
    else ret tt) b
  = (fst (collapse_run ms (size b) (cells b) idxs),
     with_cells (snd (collapse_run ms (size b) (cells b) idxs)) b).
Proof.
  intros Hwf Hin. revert b Hwf Hin.
  induction idxs as [|i idxs IH]; intros b Hwf Hin.
  - destruct b. reflexivity.
  - cbn [for_ collapse_run].
    pose proof (collapse_body_general ms b i Hwf (Hin i ltac:(left))) as Hstep.
    destruct (pendingb _ && _).
    + rewrite (bind_Raise _ _ _ _ _ Hstep). cbn [fst snd]. now destruct b.
    + rewrite (bind_Return _ _ _ _ _ Hstep). rewrite IH.
      * reflexivity.
      * apply wf_with_cells; [exact Hwf|]. apply collapse_step_ok, wf_cells, Hwf.
      * intros j Hj. apply Hin. now right.
Qed.

Section CollapseRun.

Variables (ms : string) (n : Z) (k : nat).
Hypothesis n_pos : 0 < n.
Hypothesis n_k : n = Z.of_nat k.

Let at_ (g : list (list string)) (j : Z) : string :=
  grid_at g (Z.to_nat (j / n)) (Z.to_nat (j mod n)).

Lemma collapse_run_ok g idxs : grid_ok k g -> grid_ok k (snd (collapse_run ms n g idxs)).
Proof.
  revert g. induction idxs as [|i idxs IH]; intros g Hg; [exact Hg|].
  cbn [collapse_run]. destruct (_ && _); [exact Hg|]. now apply IH, collapse_step_ok.
Qed.

(** A cell is left as it is, or it was pending and is resolved. *)
Lemma collapse_run_cell g idxs j :
  grid_ok k g -> (forall i, i ∈ idxs -> 0 <= i < n ^ 2) -> 0 <= j < n ^ 2 ->
  at_ (snd (collapse_run ms n g idxs)) j = at_ g j
  \/ (pendingb (at_ g j) = true /\ at_ (snd (collapse_run ms n g idxs)) j = resolved ms j).
Proof.
  intros Hg Hin Hj. revert g Hg.
  induction idxs as [|i idxs IH]; intros g Hg; [now left|].
  cbn [collapse_run]. destruct (_ && _); [now left|].
  destruct (IH ltac:(intros i' Hi'; apply Hin; now right)
               (collapse_step ms n g i) ltac:(now apply collapse_step_ok)) as [E|[Hp E]];
    unfold at_ in *;
    rewrite (grid_at_collapse_step ms n k g i j) in * by (try assumption; apply Hin; left);
    destruct (bool_decide (j = i) && pendingb (grid_at g _ _)) eqn:Eb.
  - right. apply andb_true_iff in Eb. now split.
  - now left.
  - rewrite resolved_not_pending in Hp. discriminate.
  - right. now split.
Qed.

(** When the loop runs to its end no visited cell is pending. *)
Lemma collapse_run_Return g idxs j :
  grid_ok k g -> (forall i, i ∈ idxs -> 0 <= i < n ^ 2) ->
  fst (collapse_run ms n g idxs) = Return tt -> j ∈ idxs ->
  pendingb (at_ (snd (collapse_run ms n g idxs)) j) = false.
Proof.
  intros Hg Hin. revert g Hg.
  induction idxs as [|i idxs IH]; intros g Hg Hret Hj; [inversion Hj|].
  cbn [collapse_run] in *. destruct (_ && _); [discriminate|].
  assert (0 <= j < n ^ 2) as Hjr by (now apply Hin).
  assert (grid_ok k (collapse_step ms n g i)) as Hg1 by now apply collapse_step_ok.
  assert (forall i', i' ∈ idxs -> 0 <= i' < n ^ 2) as Hin' by (intros; apply Hin; now right).
  destruct (decide (j ∈ idxs)) as [Hjin|Hjout]; [now apply IH|].
  apply elem_of_cons in Hj. destruct Hj as [->|]; [|contradiction].
  destruct (collapse_run_cell (collapse_step ms n g i) idxs i Hg1 Hin' Hjr) as [E|[_ E]];
    unfold at_ in *; rewrite E; [|apply resolved_not_pending].
  rewrite (grid_at_collapse_step ms n k g i i) by assumption.
  rewrite bool_decide_eq_true_2 by reflexivity. cbn [andb].
  destruct (pendingb (grid_at g _ _)) eqn:Ep; [apply resolved_not_pending|exact Ep].
Qed.

(** The loop raises as soon as the outcome is too short for a pending cell. *)
Lemma collapse_run_Raise g idxs j :
  grid_ok k g -> (forall i, i ∈ idxs -> 0 <= i < n ^ 2) ->
  j ∈ idxs -> pendingb (at_ g j) = true -> Z.of_nat (String.length ms) <= j ->
  fst (collapse_run ms n g idxs) = Raise IndexError.
Proof.
  intros Hg Hin. revert g Hg.
  induction idxs as [|i idxs IH]; intros g Hg Hj Hp Hshort; [inversion Hj|].
  cbn [collapse_run]. destruct (_ && _) eqn:Eb; [reflexivity|].
  assert (0 <= j < n ^ 2) as Hjr by (now apply Hin).
  assert (j <> i) as Hne.
  { intros ->. unfold at_ in Hp. rewrite Hp in Eb. cbn [andb] in Eb.
    destruct (Z.leb_spec (Z.of_nat (String.length ms)) i); [discriminate|lia]. }
  apply elem_of_cons in Hj. destruct Hj as [|Hj]; [contradiction|].
  apply IH; try assumption.
  - intros i' Hi'. apply Hin. now right.
  - now apply collapse_step_ok.
  - unfold at_ in *. rewrite (grid_at_collapse_step ms n k g i j)
      by (try assumption; apply Hin; left).
    now rewrite bool_decide_eq_false_2.
Qed.

End CollapseRun.

(** What [collapse_board] does for any distribution. *)
Lemma collapse_board_general b counts :
  wf b ->
  collapse_board counts b
  = let b0 := with_circuit (circuit b ++ [Gbarrier; Gmeasure]) b in
    match max_state_of counts with
    | Raise e => (Raise e, b0)
    | Return ms =>
        let run := collapse_run ms (size b) (cells b) (range (size b ^ 2)) in
        match fst run with
        | Return _ => (Return counts, with_count 0 (with_cells (snd run) b0))
        | Raise e => (Raise e, with_cells (snd run) b0)
        end
    end.
Proof.
  intros Hwf. unfold collapse_board, circuit_barrier, circuit_measure_all.
  erewrite bind_Return by (apply append_distinct, NoDup_nil_2).
  erewrite bind_Return by (apply append_distinct, NoDup_nil_2).
  match goal with
  | |- bind _ _ ?S = _ =>
      replace S with (with_circuit (circuit b ++ [Gbarrier; Gmeasure]) b)
  end.
  2:{ unfold with_circuit. cbn [circuit size entanglement_count cells qubits winning_lines].
      now rewrite <- app_assoc. }
  cbn zeta. set (b0 := with_circuit _ b).
  assert (wf b0) as Hwf0 by now apply wf_with_circuit.
  destruct (max_state_of counts) as [ms|e]; [|reflexivity].
  erewrite bind_lift by reflexivity. rewrite bind_self.
  pose proof (collapse_loop_general ms b0 (range (size b0 ^ 2)) Hwf0) as Hloop.
  change (size b0) with (size b) in *. change (cells b0) with (cells b) in *.
  specialize (Hloop ltac:(intros i Hi; now apply elem_of_range in Hi)).
  destruct (fst (collapse_run ms (size b) (cells b) (range (size b ^ 2)))) as [[]|e] eqn:E.
  - rewrite (bind_Return _ _ _ _ _ Hloop). reflexivity.
  - rewrite (bind_Raise _ _ _ _ _ Hloop). reflexivity.
Qed.

(** X20: when the outcome chosen from the distribution has no bit for some
    pending cell (it is shorter than that cell's index), [collapse_board]
    raises [IndexError] and does not reset the entanglement counter; every
    cell is then either as it was or, having been pending, already
    resolved. *)
Theorem collapse_board_short_outcome b counts ms i :
  wf b -> max_state_of counts = Return ms ->
  0 <= i < size b ^ 2 -> pendingb (cell_idx b i) = true ->
  Z.of_nat (String.length ms) <= i ->
  let out := collapse_board counts b in
  fst out = Raise IndexError
  /\ entanglement_count (snd out) = entanglement_count b
  /\ forall j, 0 <= j < size b ^ 2 ->
       cell_idx (snd out) j = cell_idx b j
       \/ (pendingb (cell_idx b j) = true /\ cell_idx (snd out) j = resolved ms j).
Proof.
  intros Hwf Hms Hi Hp Hshort. cbn zeta.
  assert (0 < size b) as Hpos by (pose proof (wf_size b Hwf); nia).
  rewrite collapse_board_general, Hms by assumption. cbn zeta.
  pose proof (collapse_run_Raise ms (size b) (Z.to_nat (size b)) Hpos ltac:(lia)
                (cells b) (range (size b ^ 2)) i (wf_cells b Hwf)
                ltac:(intros i' Hi'; now apply elem_of_range in Hi')
                ltac:(now apply elem_of_range) Hp Hshort) as Hraise.
  rewrite Hraise. cbn [fst snd]. split; [reflexivity|]. split; [reflexivity|].
  intros j Hj. unfold cell_idx, cell. cbn [cells size with_cells with_circuit].
  apply (collapse_run_cell ms (size b) (Z.to_nat (size b)) Hpos ltac:(lia)
           (cells b) (range (size b ^ 2)) j (wf_cells b Hwf));
    [intros i' Hi'; now apply elem_of_range in Hi'|exact Hj].
Qed.

Lemma grid_at_set_cases n g r c v r' c' :
  grid_ok n g -> (r < n)%nat -> (c < n)%nat ->
  grid_at (grid_set g r c v) r' c' = v \/ grid_at (grid_set g r c v) r' c' = grid_at g r' c'.
Proof.
  intros Hg Hr Hc. destruct (decide ((r, c) = (r', c'))) as [[= <- <-]|Hne].
  - left. eapply grid_at_set_eq; eauto.
  - right. now apply grid_at_set_ne.
Qed.

Lemma ledger_with_circuit b circ : ledger_ok b -> ledger_ok (with_circuit circ b).
Proof. intros (Hwf & Hc & Hp). split; [now apply wf_with_circuit|]. now split. Qed.

Lemma ledger_with_cells b g :
  ledger_ok b -> grid_ok (Z.to_nat (size b)) g ->
  (entanglement_count b = 0 -> forall r c, pendingb (grid_at g r c) = false) ->
  ledger_ok (with_cells g b).
Proof.
  intros (Hwf & Hc & Hp) Hg Hnew. split; [now apply wf_with_cells|]. split; [exact Hc|].
  intros E r c Hin. unfold cell. cbn [cells with_cells]. now apply Hnew.
Qed.

Lemma no_pending_grid b r c :
  wf b -> no_pending b -> pendingb (grid_at (cells b) r c) = false.
Proof.
  intros Hwf Hp. destruct (wf_cells b Hwf) as [Hl Hrows].
  destruct (Nat.lt_ge_cases r (Z.to_nat (size b))) as [Hr|Hr].
  - destruct (Nat.lt_ge_cases c (Z.to_nat (size b))) as [Hc|Hc].
    + specialize (Hp (Z.of_nat r) (Z.of_nat c) ltac:(split; cbn; lia)).
      unfold cell in Hp. now rewrite !Nat2Z.id in Hp.
    + unfold grid_at. destruct (cells b !! r) as [row|] eqn:E; [|reflexivity].
      rewrite Forall_forall in Hrows.
      pose proof (Hrows row ltac:(eapply list_elem_of_lookup_2; eauto)) as Hlen.
      rewrite lookup_ge_None_2 by lia. reflexivity.
  - unfold grid_at. rewrite lookup_ge_None_2 by lia. reflexivity.
Qed.

Lemma collapse_run_grid ms b r c :
  wf b -> entanglement_count b = 0 -> no_pending b ->
  pendingb (grid_at (snd (collapse_run ms (size b) (cells b) (range (size b ^ 2)))) r c)
  = false.
Proof.
  intros Hwf E Hp. pose proof (wf_size b Hwf) as Hs.
  set (g' := snd _).
  destruct (Z.eq_dec (size b) 0) as [E0|Hne].
  { subst g'. replace (range (size b ^ 2)) with (@nil Z) by (now rewrite E0).
    cbn [collapse_run snd]. now apply no_pending_grid. }
  assert (0 < size b) as Hpos by lia.
  assert (grid_ok (Z.to_nat (size b)) g') as Hg'
      by (apply (collapse_run_ok ms (size b) (Z.to_nat (size b))), wf_cells, Hwf).
  destruct (Nat.lt_ge_cases r (Z.to_nat (size b))) as [Hr|Hr].
  2:{ destruct Hg' as [Hl _]. unfold grid_at. now rewrite lookup_ge_None_2 by lia. }
  destruct (Nat.lt_ge_cases c (Z.to_nat (size b))) as [Hc|Hc].
  2:{ destruct (grid_ok_lookup _ _ r Hg' Hr) as (row & Hrow & Hlen).
      unfold grid_at. rewrite Hrow. now rewrite lookup_ge_None_2 by lia. }
  destruct (index_join (size b) (Z.of_nat r) (Z.of_nat c) ltac:(lia) ltac:(lia))
    as (Hj & Hd & Hm).
  pose proof (collapse_run_cell ms (size b) (Z.to_nat (size b)) Hpos ltac:(lia)
                (cells b) (range (size b ^ 2)) (Z.of_nat r * size b + Z.of_nat c)
                (wf_cells b Hwf) ltac:(intros i' Hi'; now apply elem_of_range in Hi') Hj)
    as Hcell.
  cbv beta zeta in Hcell. rewrite Hd, Hm, !Nat2Z.id in Hcell. fold g' in Hcell.
  destruct Hcell as [->|[_ ->]]; [now apply no_pending_grid|apply resolved_not_pending].
Qed.

Lemma collapse_run_all ms b :
  wf b ->
  fst (collapse_run ms (size b) (cells b) (range (size b ^ 2))) = Return tt ->
  forall r c, inside b (r, c) ->
    pendingb (grid_at (snd (collapse_run ms (size b) (cells b) (range (size b ^ 2))))
                      (Z.to_nat r) (Z.to_nat c)) = false.
Proof.
  intros Hwf Hret r c [Hr Hc]. cbn [fst snd] in *.
  assert (0 < size b) as Hpos by lia.
  destruct (index_join (size b) r c Hr Hc) as (Hj & Hd & Hm).
  pose proof (collapse_run_Return ms (size b) (Z.to_nat (size b)) Hpos ltac:(lia)
                (cells b) (range (size b ^ 2)) (r * size b + c)
                (wf_cells b Hwf) ltac:(intros i' Hi'; now apply elem_of_range in Hi')
                Hret ltac:(now apply elem_of_range)) as H.
  cbv beta zeta in H. now rewrite Hd, Hm in H.
Qed.

Lemma init_ledger n b : 0 <= n -> init n = Return b -> ledger_ok b.
Proof.
  intros Hn Hinit. split; [eapply init_wf; eauto|].
  unfold init in Hinit. destruct (init_winning_lines n); [|discriminate].
  cbn [res_bind] in Hinit. injection Hinit as <-. cbn [entanglement_count].
  split; [lia|]. intros _ r c _. unfold cell. cbn [cells]. now rewrite grid_at_fresh.
Qed.

(** X21: the entanglement counter accounts for the pending cells.  On a
    board where the counter is not negative and, while it is 0, no cell is
    pending, every method leaves a board of the same kind, whatever its
    arguments and whether it returns or raises, as long as classical
    marks do not end in [?]; the constructor builds such a board. *)
Theorem ledger_invariant b :
  ledger_ok b ->
  (forall row col mark, pendingb mark = false ->
     ledger_ok (snd (make_classical_move row col mark b)))
  /\ (forall row1 col1 row2 col2, ledger_ok (snd (make_swap_move row1 col1 row2 col2 b)))
  /\ (forall positions mark, ledger_ok (snd (make_entangled_move positions mark b)))
  /\ (forall counts, ledger_ok (snd (collapse_board counts b)))
  /\ ledger_ok (snd (check_win b))
  /\ ledger_ok (snd (can_be_collapsed b)).
Proof.
  intros Hl. pose proof Hl as (Hwf & Hcount & Hp).
  pose proof (wf_cells b Hwf) as Hg.
  split; [|split; [|split; [|split; [|split]]]].
  - intros row col mark Hmark. rewrite make_classical_move_general by assumption.
    destruct (resolve b (row, col)) as [[r c]|e] eqn:E; [|exact Hl].
    destruct (String.eqb (grid_at (cells b) r c) " "); [|exact Hl].
    destruct (resolve_bound b _ _ _ E) as [Hr Hc].
    assert (ledger_ok (with_cells (grid_set (cells b) r c mark) b)) as Hl1.
    { apply ledger_with_cells; [exact Hl|now apply grid_set_ok|].
      intros E0 r' c'.
      destruct (grid_at_set_cases _ (cells b) r c mark r' c' Hg Hr Hc) as [-> | ->];
        [exact Hmark|apply no_pending_grid; auto]. }
    cbn zeta. destruct (_ && _); cbn [snd]; [now apply ledger_with_circuit|exact Hl1].
  - intros row1 col1 row2 col2.
    destruct (make_swap_move_general b row1 col1 row2 col2 Hwf)
      as [(circ & -> & _)|([r1 c1] & [r2 c2] & circ & E1 & E2 & ->)].
    + now apply ledger_with_circuit.
    + cbn [fst snd]. destruct (resolve_bound b _ _ _ E1) as [Hr1 Hc1].
      destruct (resolve_bound b _ _ _ E2) as [Hr2 Hc2].
      apply (ledger_with_cells (with_circuit circ b)); [now apply ledger_with_circuit| |].
      * now apply grid_set_ok, grid_set_ok.
      * intros E0 r c. cbn [entanglement_count with_circuit] in E0.
        destruct (grid_at_set_cases _ _ r2 c2 (grid_at (cells b) r1 c1) r c
                    (grid_set_ok _ _ r1 c1 (grid_at (cells b) r2 c2) Hg) Hr2 Hc2)
          as [-> | ->]; [apply no_pending_grid; auto|].
        destruct (grid_at_set_cases _ (cells b) r1 c1 (grid_at (cells b) r2 c2) r c
                    Hg Hr1 Hc1) as [-> | ->];
          apply no_pending_grid; auto.
  - intros positions mark.
    destruct (make_entangled_move_general b positions mark Hwf)
      as [E|[(e & circ & E)|(rcs & circ & _ & _ & _ & E)]]; rewrite E; cbn [snd].
    + exact Hl.
    + now apply ledger_with_circuit.
    + split; [|split].
      * apply wf_with_count, wf_with_cells; [now apply wf_with_circuit|].
        now apply written_ok.
      * cbn [entanglement_count with_count]. lia.
      * cbn [entanglement_count with_count]. lia.
  - intros counts. rewrite collapse_board_general by assumption. cbn zeta.
    destruct (max_state_of counts) as [ms|e]; cbn [snd]; [|now apply ledger_with_circuit].
    pose proof (collapse_run_ok ms (size b) (Z.to_nat (size b)) (cells b)
                  (range (size b ^ 2)) Hg) as Hg'.
    destruct (fst (collapse_run ms (size b) (cells b) (range (size b ^ 2)))) as [[]|e] eqn:E;
      cbn [snd].
    + split; [|split].
      * apply wf_with_count, wf_with_cells; [now apply wf_with_circuit|exact Hg'].
      * reflexivity.
      * intros _ r c Hin. unfold cell. cbn [cells with_count with_cells].
        now apply collapse_run_all.
    + apply (ledger_with_cells (with_circuit _ b)); [now apply ledger_with_circuit|exact Hg'|].
      intros E0 r c. apply collapse_run_grid; auto.
  - replace (snd (check_win b)) with b; [exact Hl|]. symmetry.
    apply (check_win_keeps (fun b' => b' = b) (fun _ => True)); trivial.
  - replace (snd (can_be_collapsed b)) with b; [exact Hl|]. symmetry.
    apply (can_be_collapsed_keeps (fun b' => b' = b) (fun _ => True)); trivial.
Qed.

(** X22: on a board that holds cell states and whose counter accounts for
    the pending cells, a ["Draw"] from [check_win] means that the game is
    over: every cell holds a classical mark, none is empty or pending. *)
Theorem check_win_draw_is_final b b' :
  Inv b -> ledger_ok b -> 0 < size b ->
  check_win b = (Return (VStr "Draw"), b') ->
  forall i, 0 <= i < size b ^ 2 -> exists m, cell_idx b i = encode (Classical m).
Proof.
  intros HI (Hwf & Hcount & Hp) Hpos Hrun i Hi.
  rewrite check_win_Return in Hrun by assumption.
  pose proof (Inv_cells_valid b HI) as Hvalid.
  destruct (first_winner b (winning_lines b)) as [w|] eqn:E.
  { exfalso. injection Hrun as -> _.
    apply first_winner_Some in E.
    2:{ intros line Hline. now apply (wf_lines_shape b line Hwf Hpos). }
    destruct E as (line & Hline & Hall & _).
    destruct (wf_lines_shape b line Hwf Hpos Hline) as [(i0 & rest & ->) Hin].
    destruct (Hvalid i0 (Hin i0 ltac:(left))) as [c Hc].
    rewrite (Hall i0 ltac:(left)) in Hc. destruct c as [|[]|[]]; discriminate. }
  destruct (fullb b) eqn:Hfull; [|discriminate].
  destruct (Z.leb_spec (entanglement_count b) 0) as [Hle|]; [|discriminate].
  pose proof (proj1 (fullb_true b) Hfull i Hi) as Hne.
  destruct (index_split _ _ Hpos Hi) as [Hr Hc].
  specialize (Hp ltac:(lia) (i / size b) (i mod size b) ltac:(split; cbn; lia)).
  fold (cell_idx b i) in Hp. destruct (Hvalid i Hi) as [c Ec]. rewrite Ec in *.
  destruct c as [|m|m]; [contradiction|eauto|destruct m; discriminate].
Qed.

(** ** Rendering *)

Lemma append_empty_r s : String.append s EmptyString = s.
Proof. induction s as [|a s IH]; cbn; [reflexivity|now rewrite IH]. Qed.

Lemma append_assoc s1 s2 s3 :
  String.append (String.append s1 s2) s3 = String.append s1 (String.append s2 s3).
Proof. induction s1 as [|a s1 IH]; cbn; [reflexivity|now rewrite IH]. Qed.

Lemma length_append s1 s2 :
  String.length (String.append s1 s2) = (String.length s1 + String.length s2)%nat.
Proof. induction s1 as [|a s1 IH]; cbn; [reflexivity|now rewrite IH]. Qed.

Lemma drop_last_append s1 s2 :
  s2 <> EmptyString ->
  drop_last (String.append s1 s2) = String.append s1 (drop_last s2).
Proof.
  intros Hne. induction s1 as [|a s1 IH]; [reflexivity|].
  cbn [String.append drop_last]. rewrite IH.
  destruct (String.append s1 s2) eqn:E; [|reflexivity].
  destruct s1; [cbn in E; contradiction|discriminate].
Qed.

Lemma length_drop_last s :
  String.length (drop_last s) = (String.length s - 1)%nat.
Proof.
  induction s as [|a s IH]; [reflexivity|].
  destruct s as [|a' s']; [reflexivity|].
  change (drop_last (String a (String a' s'))) with (String a (drop_last (String a' s'))).
  cbn [String.length] in *. rewrite IH. lia.
Qed.

Lemma length_str_mul_char c n :
  String.length (str_mul (String c EmptyString) n) = Z.to_nat n.
Proof.
  unfold str_mul. induction (Z.to_nat n) as [|k IH]; [reflexivity|].
  cbn [repeat]. destruct k as [|k]; [reflexivity|].
  cbn [repeat String.concat] in *. cbn [String.append String.length] in *. now rewrite IH.
Qed.

Section Rendering.

Variable colored : string -> string -> string.

Lemma render_cell_append acc cell :
  render_cell colored acc cell = String.append acc (cell_text colored cell).
Proof.
  unfold cell_text, render_cell. cbn zeta. rewrite append_assoc. reflexivity.
Qed.

Lemma concat_cons_text t ts :
  String.concat EmptyString (t :: ts) = String.append t (String.concat EmptyString ts).
Proof.
  destruct ts as [|t' ts]; cbn [String.concat]; [now rewrite append_empty_r|reflexivity].
Qed.

Lemma fold_render_cell row acc :
  fold_left (render_cell colored) row acc
  = String.append acc (String.concat EmptyString (map (cell_text colored) row)).
Proof.
  revert acc. induction row as [|cell row IH]; intros acc.
  - cbn. now rewrite append_empty_r.
  - cbn [fold_left map]. rewrite IH, render_cell_append, concat_cons_text.
    apply append_assoc.
Qed.

Lemma cell_text_nonempty cell : cell_text colored cell <> EmptyString.
Proof.
  unfold cell_text, render_cell. cbn [String.append]. discriminate.
Qed.

Lemma concat_texts_nonempty row :
  row <> [] -> String.concat EmptyString (map (cell_text colored) row) <> EmptyString.
Proof.
  destruct row as [|cell row]; [contradiction|]. intros _. cbn [map].
  rewrite concat_cons_text. pose proof (cell_text_nonempty cell) as H.
  destruct (cell_text colored cell); [contradiction|discriminate].
Qed.

Lemma render_rows_join n acc i rows :
  Forall (fun row => row <> []) rows ->
  i + Z.of_nat (length rows) = n ->
  render_rows colored n acc i rows
  = String.append acc (join_rows (str_mul "-" (5 * n - 1)) (map (row_text colored) rows)).
Proof.
  intros Hne. revert acc i. induction Hne as [|row rows Hrow Hne IH]; intros acc i Hlen.
  - cbn. now rewrite append_empty_r.
  - cbn [render_rows]. cbn [length] in Hlen. rewrite IH by lia.
    unfold render_row. rewrite fold_render_cell.
    rewrite drop_last_append by now apply concat_texts_nonempty.
    fold (row_text colored row). cbn [map].
    destruct rows as [|row' rows].
    + destruct (Z.ltb_spec i (n - 1)); [cbn [length] in Hlen; lia|].
      cbn [map join_rows]. now rewrite append_empty_r, append_assoc.
    + destruct (Z.ltb_spec i (n - 1)); [|cbn [length] in Hlen; lia].
      cbn [map join_rows]. now rewrite !append_assoc.
Qed.

(** Every coloured text is [k] characters longer than the text. *)
Variable k : nat.
Hypothesis colored_length :
  forall text color, String.length (colored text color) = (String.length text + k)%nat.

Lemma length_cell_text_any cell :
  String.length (cell_text colored cell)
  = (String.length cell + k + if has_char "?" cell then 3 else 4)%nat.
Proof.
  unfold cell_text, render_cell. cbn zeta. cbn [String.append String.length].
  rewrite !length_append, colored_length.
  destruct (has_char "?" cell); cbn [String.length]; lia.
Qed.

Lemma length_cell_text cell :
  valid_str cell -> String.length (cell_text colored cell) = (5 + k)%nat.
Proof.
  intros [c ->]. rewrite length_cell_text_any.
  destruct c as [|[]|[]]; vm_compute (has_char _ _); cbn [encode mark_str String.append String.length]; lia.
Qed.

Lemma length_concat_texts row :
  Forall valid_str row ->
  String.length (String.concat EmptyString (map (cell_text colored) row))
  = (length row * (5 + k))%nat.
Proof.
  induction 1 as [|cell row Hcell Hrow IH]; [reflexivity|].
  cbn [map]. rewrite concat_cons_text, length_append, IH, length_cell_text by assumption.
  cbn [length]. lia.
Qed.

(** X19: on a board of positive size whose cells hold cell states,
    [__str__] lays the board out as [size] rows, each followed by a line
    feed, with a line of [5 * size - 1] dashes (and a line feed) between
    consecutive rows and none after the last.  When [colored] makes every
    text [k] characters longer, every row is [size * (5 + k) - 1]
    characters wide: empty, classical and pending cells take the same
    width, and without colour codes the rows are as wide as the dashes. *)
Theorem str_layout b :
  Inv b -> 0 < size b ->
  exists texts,
    __str__ colored b = join_rows (str_mul "-" (5 * size b - 1)) texts
    /\ length texts = Z.to_nat (size b)
    /\ (forall t, t ∈ texts -> String.length t = (Z.to_nat (size b) * (5 + k) - 1)%nat)
    /\ String.length (str_mul "-" (5 * size b - 1)) = Z.to_nat (5 * size b - 1).
Proof.
  intros [Hwf Hvalid] Hpos. destruct (wf_cells b Hwf) as [Hlen Hrows].
  exists (map (row_text colored) (cells b)). split; [|split; [|split]].
  - unfold __str__. rewrite (render_rows_join (size b)); [reflexivity| |lia].
    eapply Forall_impl; [exact Hrows|]. cbn beta. intros row Hrow ->. cbn in Hrow. lia.
  - now rewrite length_map.
  - intros t Ht. apply list_elem_of_fmap in Ht. destruct Ht as (row & -> & Hrow).
    rewrite Forall_forall in Hrows, Hvalid.
    unfold row_text. rewrite length_drop_last, length_concat_texts by auto.
    now rewrite (Hrows row Hrow).
  - apply length_str_mul_char.
Qed.

End Rendering.

(** ** How the moves compose *)

(** X23: a cell taken by a move is refused to the next classical move: after
    a successful classical move with a mark other than a blank, or after a
    successful entangling move, a classical move on the cell just written
    returns [False] and changes nothing. *)
Theorem taken_cell_refused b :
  wf b ->
  (forall row col mark mark',
     inside b (row, col) -> cell b row col = " " -> mark <> " " ->
     exists b1,
       make_classical_move row col mark b = (Return true, b1)
       /\ make_classical_move row col mark' b1 = (Return false, b1))
  /\ (forall positions mark p mark',
        Forall (inside b) positions ->
        (length positions = 2 \/ length positions = 3)%nat ->
        NoDup positions -> Forall (empty_at b) positions -> p ∈ positions ->
        exists b1,
          make_entangled_move positions mark b = (Return true, b1)
          /\ make_classical_move (fst p) (snd p) mark' b1 = (Return false, b1)).
Proof.
  intros Hwf. split.
  - intros row col mark mark' Hin He Hmark. pose proof Hin as [Hr Hc]. cbn [fst snd] in *.
    eexists. split; [now apply make_classical_move_empty|].
    apply make_classical_move_occupied; try assumption.
    + apply wf_with_circuit, wf_with_cells; [exact Hwf|]. apply grid_set_ok, wf_cells, Hwf.
    + unfold cell. cbn [cells with_circuit with_cells].
      erewrite grid_at_set_eq; [exact Hmark|apply (wf_cells b Hwf)| |]; lia.
  - intros positions mark p mark' Hin Hlen Hnd Hempty Hp.
    exists (entangled b positions mark). split; [now apply make_entangled_move_success|].
    rewrite Forall_forall in Hin. destruct (Hin p Hp) as [Hr Hc].
    apply make_classical_move_occupied; try assumption.
    + now apply entangled_wf.
    + rewrite entangled_cell; try lia; try assumption; [|now apply Forall_forall].
      rewrite bool_decide_eq_true_2 by (now destruct p).
      destruct mark as [|a [|a' m]]; discriminate.
Qed.

(** X24: once [collapse_board] has returned, [check_win] no longer answers
    with the counter: on the collapsed board it returns a winner, ["Draw"]
    or [None]. *)
Theorem check_win_after_collapse b counts :
  wf b -> 0 < size b -> counts_ok b counts ->
  exists b',
    collapse_board counts b = (Return counts, b')
    /\ exists v, check_win b' = (Return v, b') /\ forall n, v <> VInt n.
Proof.
  intros Hwf Hpos Hcounts. destruct (collapse_board_run b counts Hwf Hcounts) as [ms Hrun].
  exists (collapsed ms b). split; [exact Hrun|].
  eexists. split; [apply check_win_Return; [now apply collapsed_wf|exact Hpos]|].
  intros n. destruct (first_winner _ _); [discriminate|].
  destruct (fullb _); [|discriminate]. cbn [entanglement_count collapsed]. discriminate.
Qed.

(** X25: the entanglement counter changes in two ways only, whatever the
    arguments: an entangling move that returns [True] adds 1 to it, and a
    [collapse_board] that returns sets it to 0.  Every other call, and
    every call that returns [False] or raises, leaves it as it was. *)
Theorem counter_changes b :
  wf b ->
  (forall row col mark,
     entanglement_count (snd (make_classical_move row col mark b)) = entanglement_count b)
  /\ (forall row1 col1 row2 col2,
        entanglement_count (snd (make_swap_move row1 col1 row2 col2 b))
        = entanglement_count b)
  /\ (forall positions mark,
        entanglement_count (snd (make_entangled_move positions mark b))
        = match fst (make_entangled_move positions mark b) with
          | Return true => entanglement_count b + 1
          | _ => entanglement_count b
          end)
  /\ (forall counts,
        entanglement_count (snd (collapse_board counts b))
        = match fst (collapse_board counts b) with
          | Return _ => 0
          | Raise _ => entanglement_count b
          end)
  /\ entanglement_count (snd (check_win b)) = entanglement_count b
  /\ entanglement_count (snd (can_be_collapsed b)) = entanglement_count b.
Proof.
  intros Hwf. split; [|split; [|split; [|split; [|split]]]].
  - intros row col mark. rewrite make_classical_move_general by assumption.
    destruct (resolve b (row, col)) as [[r c]|e]; [|reflexivity].
    destruct (String.eqb _ " "); [|reflexivity]. cbn zeta. now destruct (_ && _).
  - intros row1 col1 row2 col2.
    destruct (make_swap_move_general b row1 col1 row2 col2 Hwf)
      as [(circ & -> & _)|(rc1 & rc2 & circ & _ & _ & ->)]; reflexivity.
  - intros positions mark.
    destruct (make_entangled_move_general b positions mark Hwf)
      as [E|[(e & circ & E)|(rcs & circ & _ & _ & _ & E)]]; rewrite E; reflexivity.
  - intros counts. rewrite collapse_board_general by assumption. cbn zeta.
    destruct (max_state_of counts) as [ms|e]; [|reflexivity].
    now destruct (fst (collapse_run ms (size b) (cells b) (range (size b ^ 2)))) as [[]|e].
  - replace (snd (check_win b)) with b; [reflexivity|]. symmetry.
    apply (check_win_keeps (fun b' => b' = b) (fun _ => True)); trivial.
  - replace (snd (can_be_collapsed b)) with b; [reflexivity|]. symmetry.
    apply (can_be_collapsed_keeps (fun b' => b' = b) (fun _ => True)); trivial.
Qed.

(** ** The further properties on concrete boards *)

Lemma draw_board_wf : wf draw_board.
Proof. wf_concrete. Qed.

Ltac valid_cells :=
  repeat (constructor;
          [repeat (constructor;
                   [first [ now exists Empty | now exists (Classical X)
                          | now exists (Classical O) | now exists (Pending X)
                          | now exists (Pending O) ]|]); constructor|]);
  constructor.

Lemma draw_board_Inv : Inv draw_board.
Proof. split; [exact draw_board_wf|]. cbn [cells draw_board]. valid_cells. Qed.

Lemma board3_Inv : Inv board3.
Proof. exact (init_Inv 3 board3 ltac:(lia) board3_init). Qed.

Lemma draw_board_ledger : ledger_ok draw_board.
Proof.
  split; [exact draw_board_wf|]. split; [reflexivity|].
  intros _ r c [Hr Hc]. cbn [fst snd size draw_board] in Hr, Hc.
  assert (r = 0 \/ r = 1 \/ r = 2) as Hr' by lia.
  assert (c = 0 \/ c = 1 \/ c = 2) as Hc' by lia.
  destruct Hr' as [-> | [-> | ->]], Hc' as [-> | [-> | ->]]; reflexivity.
Qed.

Lemma won_board_first_row : line_won won_board [0; 1; 2] "X".
Proof.
  split; [|repeat split; discriminate].
  intros i Hi. repeat (apply elem_of_cons in Hi; destruct Hi as [->|Hi]; [reflexivity|]).
  inversion Hi.
Qed.

Lemma board3_no_line line w : line ∈ winning_lines board3 -> ~ line_won board3 line w.
Proof.
  apply (first_winner_None_inv board3 (winning_lines board3)).
  - intros l Hl. now apply (wf_lines_shape board3 l board3_wf).
  - reflexivity.
Qed.

Lemma make_swap_move_effect_witness :
  wf won_board
  /\ exists b',
       make_swap_move 0 0 1 0 won_board = (Return true, b')
       /\ cell b' 0 0 = cell won_board 1 0
       /\ cell b' 1 0 = cell won_board 0 0
       /\ (forall r c, 0 <= r -> 0 <= c -> (r, c) <> (0, 0) -> (r, c) <> (1, 0) ->
             cell b' r c = cell won_board r c)
       /\ entanglement_count b' = entanglement_count won_board
       /\ circuit b' = circuit won_board
                       ++ [Gswap (Z.to_nat (0 * size won_board + 0))
                                 (Z.to_nat (1 * size won_board + 0))].
Proof.
  split; [exact won_board_wf|].
  apply (make_swap_move_effect won_board 0 0 1 0).
  - exact won_board_wf.
  - split; cbn; lia.
  - split; cbn; lia.
  - discriminate.
  - discriminate.
  - discriminate.
Defined.

Lemma make_swap_move_refused_witness :
  wf board3 /\ make_swap_move 0 0 1 1 board3 = (Return false, board3).
Proof.
  split; [exact board3_wf|].
  apply (make_swap_move_refused board3 0 0 1 1).
  - exact board3_wf.
  - split; cbn; lia.
  - split; cbn; lia.
  - left. reflexivity.
Defined.

Lemma make_swap_move_twice_witness :
  wf won_board
  /\ exists b2,
       (make_swap_move 0 0 1 0 ;; make_swap_move 0 0 1 0) won_board = (Return true, b2)
       /\ (forall r c, 0 <= r -> 0 <= c -> cell b2 r c = cell won_board r c)
       /\ entanglement_count b2 = entanglement_count won_board.
Proof.
  split; [exact won_board_wf|].
  apply (make_swap_move_twice won_board 0 0 1 0).
  - exact won_board_wf.
  - split; cbn; lia.
  - split; cbn; lia.
  - discriminate.
  - discriminate.
  - discriminate.
Defined.

Lemma make_swap_move_keeps_occupancy_witness :
  wf won_board
  /\ (forall r c, 0 <= r -> 0 <= c ->
        (cell (snd (make_swap_move 0 0 1 2 won_board)) r c = " " <-> cell won_board r c = " "))
  /\ entanglement_count (snd (make_swap_move 0 0 1 2 won_board))
     = entanglement_count won_board.
Proof.
  split; [exact won_board_wf|].
  apply (make_swap_move_keeps_occupancy won_board 0 0 1 2).
  - exact won_board_wf.
  - split; cbn; lia.
  - split; cbn; lia.
Defined.

Lemma make_classical_move_gate_witness :
  wf board3
  /\ exists b',
       make_classical_move 1 1 "X" board3 = (Return true, b')
       /\ circuit b' = circuit board3 ++ [Gx (qubit_of board3 (1, 1))]
       /\ qubit_of board3 (1, 1) = 4%nat
       /\ forall p, inside board3 p -> p <> (1, 1) ->
            qubit_of board3 p <> qubit_of board3 (1, 1).
Proof.
  split; [exact board3_wf|].
  apply (make_classical_move_gate board3 1 1 "X").
  - exact board3_wf.
  - split; cbn; lia.
  - reflexivity.
Defined.

Lemma make_classical_move_keeps_occupied_witness :
  wf won_board
  /\ cell (snd (make_classical_move 0 0 "O" won_board)) 0 0 = cell won_board 0 0.
Proof.
  split; [exact won_board_wf|].
  apply (make_classical_move_keeps_occupied won_board 0 0 0 0 "O").
  - exact won_board_wf.
  - split; cbn; lia.
  - discriminate.
Defined.

Lemma make_classical_move_wraps_witness :
  wf board3
  /\ cell (snd (make_classical_move (-1) (-1) "X" board3)) 2 2 = "X"
  /\ (forall r c, 0 <= r -> 0 <= c -> (r, c) <> (2, 2) ->
        cell (snd (make_classical_move (-1) (-1) "X" board3)) r c = cell board3 r c)
  /\ fst (make_classical_move (-1) (-1) "X" board3) <> Return false.
Proof.
  split; [exact board3_wf|].
  apply (make_classical_move_wraps board3 (-1) (-1) "X").
  - exact board3_wf.
  - cbn. lia.
  - cbn. lia.
  - reflexivity.
Defined.

Lemma make_entangled_move_gates_witness :
  wf board3
  /\ exists b',
       make_entangled_move [(1, 1); (1, 2); (2, 2)] "O" board3 = (Return true, b')
       /\ circuit b' = circuit board3 ++ [Gh 4; Gcx 4 5; Gccx 4 5 8]%nat
       /\ NoDup [4; 5; 8]%nat.
Proof.
  split; [exact board3_wf|].
  apply (make_entangled_move_gates board3 [(1, 1); (1, 2); (2, 2)] "O").
  - exact board3_wf.
  - repeat (constructor; [split; cbn; lia|]). constructor.
  - right. reflexivity.
  - repeat (constructor; [rewrite ?elem_of_cons, ?elem_of_nil;
                          intros H; repeat destruct H as [H|H]; discriminate || exact H|]).
    constructor.
  - repeat (constructor; [reflexivity|]). constructor.
Defined.

Lemma make_entangled_move_keeps_occupied_witness :
  wf won_board
  /\ cell (snd (make_entangled_move [(0, 0); (1, 2)] "O" won_board)) 0 0
     = cell won_board 0 0.
Proof.
  split; [exact won_board_wf|].
  apply (make_entangled_move_keeps_occupied won_board 0 0 [(0, 0); (1, 2)] "O").
  - exact won_board_wf.
  - split; cbn; lia.
  - discriminate.
Defined.

Lemma make_entangled_move_all_or_nothing_witness :
  wf board3
  /\ cells (snd (make_entangled_move [(7, 7); (0, 0)] "X" board3)) = cells board3
  /\ entanglement_count (snd (make_entangled_move [(7, 7); (0, 0)] "X" board3))
     = entanglement_count board3.
Proof.
  split; [exact board3_wf|].
  apply (make_entangled_move_all_or_nothing board3 [(7, 7); (0, 0)] "X").
  - exact board3_wf.
  - vm_compute. discriminate.
Defined.

Lemma collapse_board_leaves_no_pending_witness :
  wf pending_board /\ counts_ok pending_board counts2
  /\ exists b',
       collapse_board counts2 pending_board = (Return counts2, b')
       /\ (forall i, 0 <= i < size b' ^ 2 -> pendingb (cell_idx b' i) = false)
       /\ can_be_collapsed b' = (Return false, b').
Proof.
  split; [exact pending_board_wf|]. split; [now apply counts_ok_counts2|].
  apply (collapse_board_leaves_no_pending pending_board counts2).
  - exact pending_board_wf.
  - now apply counts_ok_counts2.
Defined.

Lemma collapse_board_twice_witness :
  wf pending_board
  /\ exists b1 b2,
       collapse_board counts2 pending_board = (Return counts2, b1)
       /\ collapse_board counts13 b1 = (Return counts13, b2)
       /\ (forall i, 0 <= i < size pending_board ^ 2 -> cell_idx b2 i = cell_idx b1 i)
       /\ entanglement_count b2 = 0.
Proof.
  split; [exact pending_board_wf|].
  apply (collapse_board_twice pending_board counts2 counts13).
  - exact pending_board_wf.
  - now apply counts_ok_counts2.
  - split; [discriminate|]. intros k n H. unfold counts13 in H.
    repeat (apply elem_of_cons in H; destruct H as [H|H]);
      try (injection H as -> ->; reflexivity).
    inversion H.
Defined.

Lemma init_fresh_witness :
  exists b,
    init 3 = Return b
    /\ size b = 3 /\ entanglement_count b = 0 /\ circuit b = [Greset; Gbarrier]
    /\ (forall r c, cell b r c = " ")
    /\ check_win b = (Return VNone, b)
    /\ can_be_collapsed b = (Return false, b).
Proof. apply (init_fresh 3). lia. Defined.

Lemma winning_lines_shape_witness :
  length (winning_lines board3) = 8%nat
  /\ forall line, line ∈ winning_lines board3 ->
       length line = 3%nat /\ NoDup line /\ forall i, i ∈ line -> 0 <= i < 3 ^ 2.
Proof. apply (winning_lines_shape 3 board3); [lia|exact board3_init]. Defined.

Lemma check_win_reports_complete_line_witness :
  wf won_board
  /\ exists w' line',
       check_win won_board = (Return (VStr w'), won_board)
       /\ line' ∈ winning_lines won_board /\ line_won won_board line' w'.
Proof.
  split; [exact won_board_wf|].
  apply (check_win_reports_complete_line won_board [0; 1; 2] "X").
  - exact won_board_wf.
  - reflexivity.
  - cbn [winning_lines won_board]. unfold lines3. do 3 right. left.
  - exact won_board_first_row.
Defined.

Lemma check_win_undecided_witness :
  wf board3 /\ check_win board3 = (Return VNone, board3).
Proof.
  split; [exact board3_wf|].
  apply (check_win_undecided board3 0).
  - exact board3_wf.
  - reflexivity.
  - exact board3_no_line.
  - cbn. lia.
  - reflexivity.
Defined.

Lemma str_layout_witness :
  Inv pending_board
  /\ exists texts,
       __str__ plain pending_board = join_rows (str_mul "-" (5 * size pending_board - 1)) texts
       /\ length texts = 3%nat
       /\ (forall t, t ∈ texts -> String.length t = 14%nat)
       /\ String.length (str_mul "-" (5 * size pending_board - 1)) = 14%nat.
Proof.
  assert (Inv pending_board) as HI.
  { split; [exact pending_board_wf|]. cbn [cells pending_board]. valid_cells. }
  split; [exact HI|].
  apply (str_layout plain 0 (fun text color => eq_sym (Nat.add_0_r (String.length text)))
           pending_board).
  - exact HI.
  - reflexivity.
Defined.

Lemma collapse_board_short_outcome_witness :
  wf pending_board
  /\ fst (collapse_board counts_short pending_board) = Raise IndexError
  /\ entanglement_count (snd (collapse_board counts_short pending_board))
     = entanglement_count pending_board
  /\ forall j, 0 <= j < size pending_board ^ 2 ->
       cell_idx (snd (collapse_board counts_short pending_board)) j = cell_idx pending_board j
       \/ (pendingb (cell_idx pending_board j) = true
           /\ cell_idx (snd (collapse_board counts_short pending_board)) j = resolved "0" j).
Proof.
  split; [exact pending_board_wf|].
  apply (collapse_board_short_outcome pending_board counts_short "0" 1).
  - exact pending_board_wf.
  - reflexivity.
  - cbn. lia.
  - reflexivity.
  - cbn. lia.
Defined.

Lemma ledger_invariant_witness :
  ledger_ok board3
  /\ ledger_ok (snd (make_entangled_move [(0, 0); (0, 1)] "X" board3))
  /\ ledger_ok (snd (collapse_board counts2 board3)).
Proof.
  assert (ledger_ok board3) as Hl by exact (init_ledger 3 board3 ltac:(lia) board3_init).
  split; [exact Hl|].
  destruct (ledger_invariant board3 Hl) as (_ & _ & He & Hc & _). split.
  - apply He.
  - apply Hc.
Defined.

Lemma check_win_draw_is_final_witness :
  Inv draw_board /\ ledger_ok draw_board
  /\ check_win draw_board = (Return (VStr "Draw"), draw_board)
  /\ forall i, 0 <= i < size draw_board ^ 2 ->
       exists m, cell_idx draw_board i = encode (Classical m).
Proof.
  split; [exact draw_board_Inv|]. split; [exact draw_board_ledger|].
  split; [reflexivity|].
  apply (check_win_draw_is_final draw_board draw_board).
  - exact draw_board_Inv.
  - exact draw_board_ledger.
  - reflexivity.
  - reflexivity.
Defined.

Lemma taken_cell_refused_witness :
  wf board3
  /\ exists b1,
       make_classical_move 1 1 "X" board3 = (Return true, b1)
       /\ make_classical_move 1 1 "O" b1 = (Return false, b1).
Proof.
  split; [exact board3_wf|].
  apply (proj1 (taken_cell_refused board3 board3_wf) 1 1 "X" "O").
  - split; cbn; lia.
  - reflexivity.
  - discriminate.
Defined.

Lemma check_win_after_collapse_witness :
  wf pending_board
  /\ exists b',
       collapse_board counts2 pending_board = (Return counts2, b')
       /\ exists v, check_win b' = (Return v, b') /\ forall n, v <> VInt n.
Proof.
  split; [exact pending_board_wf|].
  apply (check_win_after_collapse pending_board counts2).
  - exact pending_board_wf.
  - reflexivity.
  - now apply counts_ok_counts2.
Defined.

Lemma counter_changes_witness :
  wf pending_board
  /\ entanglement_count (snd (make_swap_move 0 0 0 1 pending_board)) = 3
  /\ entanglement_count (snd (collapse_board counts2 pending_board)) = 0.
Proof.
  split; [exact pending_board_wf|].
  destruct (counter_changes pending_board pending_board_wf) as (_ & Hs & _ & Hc & _).
  split.
  - apply Hs.
  - rewrite Hc. reflexivity.
Defined.
